(** * kafkacat: record framing, send loop, end-of-partition coordination

    A shallow embedding of [kafkacat.c]: the delimiter parser
    ([parse_delim]), the producer ([produce], [produce_file],
    [producer_run]), the consumer callback and loop ([consume_cb],
    [consumer_run]) and the command line ([argparse]), followed by the
    properties proved about them.

    Conventions.
    - Bytes read from the input are [Byte.byte]; C [int]s are [Z].
    - Buffer lengths and offsets into the read buffer are [nat]: they are
      lengths of in-memory buffers and never wrap.
    - The 64-bit counters of [struct stats] are [Z] with the wrap-around of
      [uint64_t] written out.
    - Everything the program cannot decide by itself (what the broker client
      answers, which callbacks a poll delivers, whether a signal arrived) is
      read from an explicit oracle, a finite list of environment answers.
    - A call to [exit] is the outcome [Exited]; an oracle that ends while a
      loop is still waiting is the outcome [Waiting]. *)

From Stdlib Require Import ZArith List Bool Lia Strings.Byte Ascii String.
From Stdlib Require Import DecimalString DecimalPos.
From stdpp Require Import base list gmap.
Import ListNotations.

Local Open Scope Z_scope.
Set Warnings "-clear-no-such-hyp".
Set Warnings "-notation-for-abbreviation".
Set Warnings "-level-tolerance".

(** ** librdkafka constants (rdkafka.h) *)

Definition RD_KAFKA_MSG_F_FREE : Z := 1.
Definition RD_KAFKA_MSG_F_COPY : Z := 2.
Definition RD_KAFKA_PARTITION_UA : Z := -1.
Definition RD_KAFKA_RESP_ERR_NO_ERROR : Z := 0.
Definition RD_KAFKA_RESP_ERR__PARTITION_EOF : Z := -191.
Definition RD_KAFKA_RESP_ERR__ALL_BROKERS_DOWN : Z := -187.
Definition RD_KAFKA_RESP_ERR__QUEUE_FULL : Z := -184.

(** ** C helpers *)

(** [flags & mask] used as a condition. *)
Definition flag_set (flags mask : Z) : bool := negb (Z.land flags mask =? 0).

(** Conversion of a [char] holding byte [b] to [int].  Whether plain [char]
    is signed is implementation-defined, so it is a parameter. *)
Definition char_to_int (char_signed : bool) (b : Z) : Z :=
  if char_signed && (128 <=? b) then b - 256 else b.

Definition byte_val (b : byte) : Z := Z.of_N (Byte.to_N b).
Definition ascii_val (c : ascii) : Z := Z.of_N (N_of_ascii c).

Definition ULONG_MAX : Z := 2 ^ 64 - 1.
Definition UINT64_MOD : Z := 2 ^ 64.

(** [x++] on a [uint64_t]. *)
Definition u64_incr (x : Z) : Z := (x + 1) mod UINT64_MOD.

(** Comparison [u == i] of a [uint64_t] with an [int64_t]: the signed
    operand is converted to [uint64_t]. *)
Definition u64_eq_i64 (u i : Z) : bool := u =? i mod UINT64_MOD.

(** *** strtoul, base 16 *)

Definition isspace (c : ascii) : bool :=
  let n := ascii_val c in (n =? 32) || ((9 <=? n) && (n <=? 13)).

Definition hex_digit (c : ascii) : option Z :=
  let n := ascii_val c in
  if (48 <=? n) && (n <=? 57) then Some (n - 48)
  else if (97 <=? n) && (n <=? 102) then Some (n - 87)
  else if (65 <=? n) && (n <=? 70) then Some (n - 55)
  else None.

Fixpoint skip_space (s : string) : string :=
  match s with
  | String c s' => if isspace c then skip_space s' else s
  | EmptyString => s
  end.

(** Accumulates the leading hexadecimal digits of [s]; [None] once the value
    no longer fits an [unsigned long]. *)
Fixpoint hex_accum (s : string) (acc : Z) : option Z :=
  match s with
  | String c s' =>
      match hex_digit c with
      | Some d =>
          let acc' := acc * 16 + d in
          if ULONG_MAX <? acc' then None else hex_accum s' acc'
      | None => Some acc
      end
  | EmptyString => Some acc
  end.

(** An optional [0x]/[0X] prefix is skipped when a hexadecimal digit
    follows it. *)
Definition skip_0x (s : string) : string :=
  match s with
  | String "0"%char (String x (String d s')) =>
      if ((ascii_val x =? 120) || (ascii_val x =? 88)) && bool_decide (is_Some (hex_digit d))
      then String d s' else s
  | _ => s
  end.

(** [strtoul(s, NULL, 16)]: white space, an optional sign, an optional
    prefix, then digits; [ULONG_MAX] when out of range, and a negated value
    is negated as an [unsigned long]. *)
Definition strtoul16 (s : string) : Z :=
  let s := skip_space s in
  let '(neg, s) :=
    match s with
    | String "-"%char s' => (true, s')
    | String "+"%char s' => (false, s')
    | _ => (false, s)
    end in
  match hex_accum (skip_0x s) 0 with
  | None => ULONG_MAX
  | Some v => if neg then (- v) mod (ULONG_MAX + 1) else v
  end.

(** [strncmp(str, prefix, strlen(prefix)) == 0] *)
Fixpoint has_prefix (prefix str : string) : bool :=
  match prefix, str with
  | EmptyString, _ => true
  | String p prefix', String c str' => Ascii.eqb p c && has_prefix prefix' str'
  | String _ _, EmptyString => false
  end.

Fixpoint drop_chars (n : nat) (s : string) : string :=
  match n, s with
  | S n', String _ s' => drop_chars n' s'
  | _, _ => s
  end.

(** [*str]: the first character, or the terminating NUL. *)
Definition deref (str : string) : Z :=
  match str with
  | String c _ => ascii_val c
  | EmptyString => 0
  end.

(** ** Delimiter parser *)

Section Delim.
Variable char_signed : bool.

(** [parse_delim]: the function returns an [int] on every path. *)
Definition parse_delim (str : string) : Z :=
  if has_prefix "\x" str then
    Z.land (strtoul16 (drop_chars (String.length "\x") str)) 255
  else if String.eqb str "\n" then 10
  else if String.eqb str "\t" then 9
  else Z.land (char_to_int char_signed (deref str)) 255.

End Delim.

(** ** Program state *)

(** The fields of [struct conf] that are fixed once the command line is
    parsed.  [exit_eof] is an [int] that only ever holds 0 or 1. *)
Record config := mkConfig {
  flags : Z;
  delim : Z;
  key_delim : Z;
  partition : Z;
  exit_eof : bool;
  msg_cnt : Z
}.

(** [struct stats] *)
Record stats_t := mkStats {
  tx : Z;
  tx_err_q : Z;
  tx_err_dr : Z;
  tx_delivered : Z;
  rx : Z
}.

(** A message handed to [consume_cb] ([rd_kafka_message_t]). *)
Record message := mkMessage {
  m_err : Z;
  m_partition : Z;
  m_offset : Z;
  m_payload : option (list byte);
  m_key : option (list byte)
}.

(** What the program does to the outside world, in order. *)
Inductive event : Type :=
| EvRead (fresh : bool) (chunk : list byte)
    (* getdelim returned [chunk]; [fresh]: the line buffer was NULL and had
       to be allocated *)
| EvProduce (buf : option (list byte)) (len : nat)
            (key : option (list byte)) (key_len : nat) (msgflags : Z)
    (* rd_kafka_produce accepted the message *)
| EvTee (bytes : list byte)
| EvInfoFailedFiles (failed total : Z)
| EvOutput (m : message)                      (* fmt_msg_output *)
| EvOffsetStore (part offset : Z)             (* rd_kafka_offset_store *)
| EvConsumeStart (part : Z)                   (* rd_kafka_consume_start_queue *)
| EvConsumeStop (part : Z).                   (* rd_kafka_consume_stop *)

(** The mutable globals: [conf.run] (an [int] that only ever holds 0 or
    1), [conf.exitcode], [stats], the end-of-partition table [part_eof]
    (NULL until it is allocated) with its counter and threshold, and the
    trace of events. *)
Record world := mkWorld {
  run : bool;
  exitcode : Z;
  stats : stats_t;
  part_eof : option (list Z);
  part_eof_cnt : Z;
  part_eof_thres : Z;
  log : list event
}.

Definition set_run (v : bool) (w : world) : world :=
  mkWorld v (exitcode w) (stats w) (part_eof w) (part_eof_cnt w)
          (part_eof_thres w) (log w).
Definition set_exitcode (v : Z) (w : world) : world :=
  mkWorld (run w) v (stats w) (part_eof w) (part_eof_cnt w)
          (part_eof_thres w) (log w).
Definition set_stats (v : stats_t) (w : world) : world :=
  mkWorld (run w) (exitcode w) v (part_eof w) (part_eof_cnt w)
          (part_eof_thres w) (log w).
Definition set_part_eof (v : option (list Z)) (w : world) : world :=
  mkWorld (run w) (exitcode w) (stats w) v (part_eof_cnt w)
          (part_eof_thres w) (log w).
Definition set_part_eof_cnt (v : Z) (w : world) : world :=
  mkWorld (run w) (exitcode w) (stats w) (part_eof w) v
          (part_eof_thres w) (log w).
Definition set_part_eof_thres (v : Z) (w : world) : world :=
  mkWorld (run w) (exitcode w) (stats w) (part_eof w) (part_eof_cnt w)
          v (log w).
Definition emit (e : event) (w : world) : world :=
  mkWorld (run w) (exitcode w) (stats w) (part_eof w) (part_eof_cnt w)
          (part_eof_thres w) (log w ++ [e]).

Definition incr_tx (s : stats_t) : stats_t :=
  mkStats (u64_incr (tx s)) (tx_err_q s) (tx_err_dr s) (tx_delivered s) (rx s).
Definition incr_tx_err_q (s : stats_t) : stats_t :=
  mkStats (tx s) (u64_incr (tx_err_q s)) (tx_err_dr s) (tx_delivered s) (rx s).
Definition incr_tx_err_dr (s : stats_t) : stats_t :=
  mkStats (tx s) (tx_err_q s) (u64_incr (tx_err_dr s)) (tx_delivered s) (rx s).
Definition incr_tx_delivered (s : stats_t) : stats_t :=
  mkStats (tx s) (tx_err_q s) (tx_err_dr s) (u64_incr (tx_delivered s)) (rx s).
Definition incr_rx (s : stats_t) : stats_t :=
  mkStats (tx s) (tx_err_q s) (tx_err_dr s) (tx_delivered s) (u64_incr (rx s)).

(** The globals as [main] finds them: [conf.run = 1], everything else
    zero. *)
Definition initial_world : world :=
  mkWorld true 0 (mkStats 0 0 0 0 0) None 0 0 [].

(** ** Outcomes *)

Inductive outcome (A : Type) : Type :=
| Done (a : A) (w : world)            (* returned normally *)
| Exited (code : Z) (w : world)       (* exit(code) was called *)
| Waiting (w : world)                 (* the oracle ended inside a loop *)
| Undefined (w : world).              (* undefined behaviour *)
Arguments Done {A} a w.
Arguments Exited {A} code w.
Arguments Waiting {A} w.
Arguments Undefined {A} w.

Definition M (A : Type) : Type := world -> outcome A.

Definition ret {A} (a : A) : M A := fun w => Done a w.

Definition bind {A B} (m : M A) (k : A -> M B) : M B :=
  fun w =>
    match m w with
    | Done a w' => k a w'
    | Exited c w' => Exited c w'
    | Waiting w' => Waiting w'
    | Undefined w' => Undefined w'
    end.

Notation "x <- c1 ;; c2" := (bind c1 (fun x => c2))
  (at level 100, c1 at next level, right associativity).
Notation "c1 ;; c2" := (bind c1 (fun _ => c2))
  (at level 100, right associativity).

Definition modify (f : world -> world) : M unit := fun w => Done tt (f w).
Definition get {A} (f : world -> A) : M A := fun w => Done (f w) w.

(** [FATAL(...)]: [fatal0] prints and calls [exit(1)]. *)
Definition FATAL {A} : M A := fun w => Exited 1 w.

Fixpoint for_each {A} (f : A -> M unit) (l : list A) : M unit :=
  match l with
  | [] => ret tt
  | x :: l' => f x ;; for_each f l'
  end.

(** The state an outcome ends in. *)
Definition final_world {A} (o : outcome A) : world :=
  match o with
  | Done _ w | Exited _ w | Waiting w | Undefined w => w
  end.

(** The exit status of the process when [main] ends with
    [exit(conf.exitcode)] after the mode's run function. *)
Definition exit_status (o : outcome unit) : option Z :=
  match o with
  | Done _ w => Some (exitcode w)
  | Exited c _ => Some c
  | Waiting _ | Undefined _ => None
  end.

(** ** Callbacks served by rd_kafka_poll *)

(** What can happen while the program sits in a poll: a delivery report,
    an error report, or a signal ([term]). *)
Inductive async_event : Type :=
| AsDelivery (err : Z)
| AsError (err : Z)
| AsSignal.

(** [dr_msg_cb] *)
Definition dr_msg_cb (err : Z) : M unit :=
  if negb (err =? 0) then modify (fun w => set_stats (incr_tx_err_dr (stats w)) w)
  else modify (fun w => set_stats (incr_tx_delivered (stats w)) w).

(** [error_cb] *)
Definition error_cb (err : Z) : M unit :=
  if err =? RD_KAFKA_RESP_ERR__ALL_BROKERS_DOWN then FATAL else ret tt.

(** [term] *)
Definition term : M unit := modify (set_run false).

(** The handler an event runs. *)
Definition serve (e : async_event) : M unit :=
  match e with
  | AsDelivery err => dr_msg_cb err
  | AsError err => error_cb err
  | AsSignal => term
  end.

(** [rd_kafka_poll]: serves the callbacks of the events the oracle
    delivers. *)
Definition rd_kafka_poll (evs : list async_event) : M unit :=
  for_each serve evs.

(** ** Send loop *)

(** One call of [rd_kafka_produce] as the oracle answers it: [a_err = None]
    when the call is accepted, [Some err] when it returns -1 with [errno]
    standing for [err]; [a_poll] are the events of the poll that follows. *)
Record attempt := mkAttempt {
  a_err : option Z;
  a_poll : list async_event
}.

(** [produce] *)
Fixpoint produce (buf : option (list byte)) (len : nat)
                 (key : option (list byte)) (key_len : nat) (msgflags : Z)
                 (oracle : list attempt) : M unit :=
  fun w =>
    if negb (run w) then FATAL w
    else
      match oracle with
      | [] => Waiting w
      | a :: oracle' =>
          match a_err a with
          | None =>
              (modify (fun w => set_stats (incr_tx (stats w)) w) ;;
               modify (emit (EvProduce buf len key key_len msgflags)) ;;
               rd_kafka_poll (a_poll a)) w
          | Some err =>
              if negb (err =? RD_KAFKA_RESP_ERR__QUEUE_FULL) then FATAL w
              else
                (modify (fun w => set_stats (incr_tx_err_q (stats w)) w) ;;
                 rd_kafka_poll (a_poll a) ;;
                 produce buf len key key_len msgflags oracle') w
          end
      end.

(** ** Record framer and producer *)

(** [getdelim]: the bytes up to and including the first [delim], or up to
    the end of the input when there is none. *)
Fixpoint read_until (delim : Z) (fp : list byte) : list byte * list byte :=
  match fp with
  | [] => ([], [])
  | b :: fp' =>
      if byte_val b =? delim mod 256 then ([b], fp')
      else let '(chunk, rest) := read_until delim fp' in (b :: chunk, rest)
  end.

(** [None] is the return value -1: nothing is left to read. *)
Definition getdelim (delim : Z) (fp : list byte) : option (list byte * list byte) :=
  match fp with
  | [] => None
  | _ :: _ => Some (read_until delim fp)
  end.

Fixpoint find_byte (c : Z) (l : list byte) : option nat :=
  match l with
  | [] => None
  | b :: l' => if byte_val b =? c then Some O else option_map S (find_byte c l')
  end.

(** [memchr(sbuf + off, c, n)], the result as an offset from [sbuf]. *)
Definition memchr (sbuf : list byte) (off : nat) (c : Z) (n : nat) : option nat :=
  option_map (fun i => (off + i)%nat) (find_byte (c mod 256) (take n (drop off sbuf))).

(** The [len] bytes at a pointer into [sbuf]; a pointer is [None] (NULL) or
    an offset from [sbuf]. *)
Definition slice (sbuf : list byte) (p : option nat) (len : nat) : option (list byte) :=
  option_map (fun off => take len (drop off sbuf)) p.

(** The locals of the loop body that reach the call of [produce]. *)
Record line_vars := mkVars {
  v_msgflags : Z;
  v_buf : option nat;
  v_len : nat;
  v_key : option nat;
  v_key_len : nat
}.

(** The line buffer handed to [getdelim]. *)
Record linebuf := mkLinebuf {
  sbuf : option (list byte);
  size : nat
}.

(** The number of elements of a finite set ([size] names the field of
    the line buffer). *)
Abbreviation card := (stdpp.base.size).

(** Oracle of one iteration of the read loop: whether a signal arrived
    during the read, the answers to the sends, whether the tee write
    fails. *)
Record read_env := mkReadEnv {
  r_signal : bool;
  r_attempts : list attempt;
  r_tee_fails : bool
}.

(** Oracle of one file of the file list. *)
Inductive file_state : Type :=
| FOpenFails
| FStatFails
| FFile (contents : list byte) (mmap_ok : bool).

Record file_env := mkFileEnv {
  f_state : file_state;
  f_attempts : list attempt
}.

(** Oracle of one evaluation of an out-queue drain condition. *)
Record drain_round := mkDrain {
  d_outq_len : Z;
  d_poll : list async_event
}.

(** *** Reading the trace *)

(** The chunks returned by [getdelim], in order. *)
Fixpoint chunks_read (evs : list event) : list (list byte) :=
  match evs with
  | [] => []
  | EvRead _ chunk :: evs' => chunk :: chunks_read evs'
  | _ :: evs' => chunks_read evs'
  end.

(** The payloads of the accepted sends, in order. *)
Fixpoint payloads_sent (evs : list event) : list (option (list byte)) :=
  match evs with
  | [] => []
  | EvProduce buf _ _ _ _ :: evs' => buf :: payloads_sent evs'
  | _ :: evs' => payloads_sent evs'
  end.

(** The messages rendered by [fmt_msg_output], in order. *)
Fixpoint rendered (evs : list event) : list message :=
  match evs with
  | [] => []
  | EvOutput m :: evs' => m :: rendered evs'
  | _ :: evs' => rendered evs'
  end.

(** The masks [CONF_F_KEY_DELIM], [CONF_F_TEE], [CONF_F_NULL] and
    [CONF_F_LINE] of [conf.flags] are defined in kafkacat.h, which is not
    among the sources at hand: they are parameters, and so is the signedness
    of [char]. *)
Section Producer.
Variable char_signed : bool.
Variables CONF_F_KEY_DELIM CONF_F_TEE CONF_F_NULL CONF_F_LINE : Z.
Variable cfg : config.

(** "Shave off delimiter": [if ((int)buf[len-1] == conf.delim) len--] *)
Definition shave_delim (buf : list byte) (len : nat) : nat :=
  if char_to_int char_signed (byte_val (nth (len - 1) buf "000"%byte)) =? delim cfg
  then (len - 1)%nat else len.

(** "Extract key, if desired and found".  On entry [buf] is the offset of
    the record in the line buffer (the code has [buf == sbuf]); [t] is the
    offset of the match from [sbuf], so [key_len = t - sbuf] is [t]. *)
Definition extract_key (buf0 : list byte) (msgflags : Z) (buf len : nat)
  : line_vars :=
  if flag_set (flags cfg) CONF_F_KEY_DELIM then
    match memchr buf0 buf (key_delim cfg) len with
    | Some t =>
        let key_len := t in
        let key := buf in
        let buf := (buf + (key_len + 1))%nat in
        let len := (len - (key_len + 1))%nat in
        let msgflags := Z.lor msgflags RD_KAFKA_MSG_F_COPY in
        if flag_set (flags cfg) CONF_F_NULL then
          mkVars msgflags
                 (if (len =? 0)%nat then None else Some buf) len
                 (if (key_len =? 0)%nat then None else Some key) key_len
        else mkVars msgflags (Some buf) len (Some key) key_len
    | None => mkVars msgflags (Some buf) len None O
    end
  else mkVars msgflags (Some buf) len None O.

(** The choice between handing the buffer over and having it copied. *)
Definition choose_ownership (v : line_vars) : line_vars :=
  let msgflags :=
    if negb (flag_set (v_msgflags v) RD_KAFKA_MSG_F_COPY)
       && (1024 <? v_len v)%nat
       && negb (flag_set (flags cfg) CONF_F_TEE)
    then Z.lor (v_msgflags v) RD_KAFKA_MSG_F_FREE
    else Z.lor (v_msgflags v) RD_KAFKA_MSG_F_COPY in
  mkVars msgflags (v_buf v) (v_len v) (v_key v) (v_key_len v).

(** The body of the read loop from its start to the call of [produce]:
    [None] when the iteration ends in [continue]. *)
Definition frame_line (buf0 : list byte) (len : nat) : option line_vars :=
  if (len =? 0)%nat then None
  else
    let len := shave_delim buf0 len in
    if (len =? 0)%nat then None
    else
      Some (choose_ownership (extract_key buf0 0 O len)).

(** The body of the read loop once [getdelim] has filled the line buffer
    with [buf0].  It returns the line buffer for the next read. *)
Definition loop_body (r : read_env) (buf0 : list byte) (lb : linebuf)
  : M linebuf :=
  match frame_line buf0 (length buf0) with
  | None => ret lb
  | Some v =>
      produce (slice buf0 (v_buf v) (v_len v)) (v_len v)
              (slice buf0 (v_key v) (v_key_len v)) (v_key_len v)
              (v_msgflags v) (r_attempts r) ;;
      (if flag_set (flags cfg) CONF_F_TEE then
         if r_tee_fails r then FATAL else modify (emit (EvTee buf0))
       else ret tt) ;;
      let lb' := if flag_set (v_msgflags v) RD_KAFKA_MSG_F_FREE
                 then mkLinebuf None 0 else lb in
      sent <- get (fun w => tx (stats w)) ;;
      (if u64_eq_i64 sent (msg_cnt cfg) then modify (set_run false)
       else ret tt) ;;
      ret lb'
  end.

(** The read loop of [producer_run].  It returns the input left unread and
    the line buffer. *)
Fixpoint stream_loop (reads : list read_env) (fp : list byte) (lb : linebuf)
  : M (list byte * linebuf) :=
  fun w =>
    if negb (run w) then Done (fp, lb) w
    else
      match getdelim (delim cfg) fp with
      | None => Done (fp, lb) w
      | Some (chunk, fp') =>
          match reads with
          | [] => Waiting w
          | r :: reads' =>
              (modify (emit (EvRead (bool_decide (sbuf lb = None)) chunk)) ;;
               (if r_signal r then term else ret tt) ;;
               lb' <- loop_body r chunk
                        (mkLinebuf (Some chunk)
                                   (Nat.max (size lb) (S (length chunk)))) ;;
               stream_loop reads' fp' lb') w
          end
      end.

(** [produce_file] *)
Definition produce_file (f : file_env) : M Z :=
  match f_state f with
  | FOpenFails => ret (-1)
  | FStatFails => ret (-1)
  | FFile contents mmap_ok =>
      if (length contents =? 0)%nat then ret 0
      else if negb mmap_ok then ret (-1)
      else
        produce (Some contents) (length contents) None 0 RD_KAFKA_MSG_F_COPY
                (f_attempts f) ;;
        ret (Z.of_nat (length contents))
  end.

(** The loop over the file list; [good] counts the files for which
    [produce_file] did not return -1. *)
Fixpoint produce_files (paths : list file_env) (good : Z) : M Z :=
  match paths with
  | [] => ret good
  | f :: paths' =>
      r <- produce_file f ;;
      produce_files paths' (if negb (r =? -1) then good + 1 else good)
  end.

(** "Wait for all messages to be transmitted" *)
Fixpoint drain_loop (oracle : list drain_round) : M unit :=
  fun w =>
    if negb (run w) then Done tt w
    else
      match oracle with
      | [] => Waiting w
      | d :: oracle' =>
          if d_outq_len d =? 0 then Done tt w
          else (rd_kafka_poll (d_poll d) ;; drain_loop oracle') w
      end.

(** [producer_run], from the point where the producer handle and the topic
    exist.  [read_error] tells whether the input ends in a read error
    instead of an end of file. *)
Definition producer_run (fp : list byte) (read_error : bool)
    (reads : list read_env) (paths : list file_env)
    (drain : list drain_round) : M unit :=
  let pathcnt := Z.of_nat (length paths) in
  (if (0 <? pathcnt) && negb (flag_set (flags cfg) CONF_F_LINE) then
     good <- produce_files paths 0 ;;
     if good =? 0 then modify (set_exitcode 1)
     else if good <? pathcnt then
       modify (emit (EvInfoFailedFiles (pathcnt - good) pathcnt))
     else ret tt
   else
     _ <- stream_loop reads fp (mkLinebuf None 0) ;;
     running <- get run ;;
     if running && read_error then FATAL else ret tt) ;;
  modify (set_run true) ;;
  drain_loop drain ;;
  s <- get stats ;;
  if negb (tx_err_q s =? 0) || negb (tx_err_dr s =? 0)
  then modify (set_exitcode 1) else ret tt.

End Producer.

(** ** Consumer *)

(** The topic metadata the broker answers with. *)
Record metadata := mkMetadata {
  md_err : Z;                 (* result of rd_kafka_metadata *)
  md_topic_cnt : Z;
  md_topic_err : Z;           (* topics[0].err *)
  md_partitions : list Z      (* topics[0].partitions[i].id *)
}.

(** Oracle of one round of the consume loop: the messages the queue hands
    to the callback, then the events of the poll. *)
Record consume_round := mkRound {
  c_batch : list message;
  c_poll : list async_event
}.

Section Consumer.
Variable cfg : config.

(** [part_eof[partition]]; reading outside the array is undefined. *)
Definition part_eof_get (p : Z) : M Z :=
  fun w =>
    match part_eof w with
    | None => Undefined w
    | Some arr =>
        if p <? 0 then Undefined w
        else match arr !! Z.to_nat p with
             | Some v => Done v w
             | None => Undefined w
             end
    end.

(** [part_eof[partition] = v] *)
Definition part_eof_set (p : Z) (v : Z) : M unit :=
  fun w =>
    match part_eof w with
    | None => Undefined w
    | Some arr =>
        if (p <? 0) || (Z.of_nat (length arr) <=? p) then Undefined w
        else Done tt (set_part_eof (Some (<[Z.to_nat p := v]> arr)) w)
    end.

(** [consume_cb] *)
Definition consume_cb (m : message) : M unit :=
  running <- get run ;;
  if negb running then ret tt
  else if negb (m_err m =? 0) then
    if m_err m =? RD_KAFKA_RESP_ERR__PARTITION_EOF then
      modify (emit (EvOffsetStore (m_partition m)
                      (if m_offset m =? 0 then 0 else m_offset m - 1))) ;;
      if exit_eof cfg then
        seen <- part_eof_get (m_partition m) ;;
        if seen =? 0 then
          modify (emit (EvConsumeStop (m_partition m))) ;;
          part_eof_set (m_partition m) 1 ;;
          modify (fun w => set_part_eof_cnt (part_eof_cnt w + 1) w) ;;
          cnt <- get part_eof_cnt ;;
          thres <- get part_eof_thres ;;
          if thres <=? cnt then modify (set_run false) else ret tt
        else ret tt
      else ret tt
    else FATAL
  else
    modify (emit (EvOutput m)) ;;
    modify (emit (EvOffsetStore (m_partition m) (m_offset m))) ;;
    modify (fun w => set_stats (incr_rx (stats w)) w) ;;
    received <- get (fun w => rx (stats w)) ;;
    if u64_eq_i64 received (msg_cnt cfg) then modify (set_run false)
    else ret tt.

(** [rd_kafka_consume_callback_queue]: the callback is called for each
    message of the batch. *)
Definition consume_callback_queue (batch : list message) : M unit :=
  for_each consume_cb batch.

(** "Read messages from Kafka, write to 'fp'" *)
Fixpoint consume_loop (rounds : list consume_round) : M unit :=
  fun w =>
    if negb (run w) then Done tt w
    else
      match rounds with
      | [] => Waiting w
      | r :: rounds' =>
          (consume_callback_queue (c_batch r) ;;
           rd_kafka_poll (c_poll r) ;;
           consume_loop rounds') w
      end.

(** "If Exit-at-EOF is enabled, set up array to track EOF state for each
    partition." *)
Definition setup_eof (partition_cnt : nat) : M unit :=
  if exit_eof cfg then
    modify (set_part_eof (Some (replicate partition_cnt 0))) ;;
    if negb (partition cfg =? RD_KAFKA_PARTITION_UA)
    then modify (set_part_eof_thres 1)
    else modify (set_part_eof_thres (Z.of_nat partition_cnt))
  else ret tt.

(** "Start consuming from all wanted partitions"; [start_fails] is the
    oracle for [rd_kafka_consume_start_queue] returning -1.  The result
    tells whether the loop ran to its end ([i == partition_cnt]). *)
Fixpoint start_consuming (start_fails : Z -> bool) (parts : list Z) : M bool :=
  match parts with
  | [] => ret true
  | p :: parts' =>
      if negb (partition cfg =? RD_KAFKA_PARTITION_UA)
         && negb (partition cfg =? p)
      then start_consuming start_fails parts'
      else if start_fails p then FATAL
      else
        modify (emit (EvConsumeStart p)) ;;
        if negb (partition cfg =? RD_KAFKA_PARTITION_UA) then ret false
        else start_consuming start_fails parts'
  end.

(** "Stop consuming" *)
Definition stop_consuming (parts : list Z) : M unit :=
  for_each (fun p =>
    if negb (partition cfg =? RD_KAFKA_PARTITION_UA)
       && negb (partition cfg =? p)
    then ret tt
    else
      eof <- get part_eof ;;
      (match eof with
       | None => modify (emit (EvConsumeStop p))
       | Some _ =>
           seen <- part_eof_get p ;;
           if seen =? 0 then modify (emit (EvConsumeStop p)) else ret tt
       end) ;;
      modify (emit (EvConsumeStop p))) parts.

(** The drain loop at the end of [consumer_run] ([outq_len > 0]). *)
Fixpoint drain_loop_pos (oracle : list drain_round) : M unit :=
  fun w =>
    if negb (run w) then Done tt w
    else
      match oracle with
      | [] => Waiting w
      | d :: oracle' =>
          if negb (0 <? d_outq_len d) then Done tt w
          else (rd_kafka_poll (d_poll d) ;; drain_loop_pos oracle') w
      end.

(** [consumer_run], from the point where the consumer handle and the topic
    exist. *)
Definition consumer_run (md : metadata) (start_fails : Z -> bool)
    (rounds : list consume_round) (drain : list drain_round) : M unit :=
  if negb (md_err md =? 0) then FATAL
  else if md_topic_cnt md =? 0 then FATAL
  else if negb (md_topic_err md =? 0) then FATAL
  else if (length (md_partitions md) =? 0)%nat then FATAL
  else
    setup_eof (length (md_partitions md)) ;;
    at_end <- start_consuming start_fails (md_partitions md) ;;
    (if negb (partition cfg =? RD_KAFKA_PARTITION_UA) && at_end
     then FATAL else ret tt) ;;
    consume_loop rounds ;;
    stop_consuming (md_partitions md) ;;
    modify (set_run true) ;;
    drain_loop_pos drain.

End Consumer.

(** ** Vocabulary of the statements *)

(** An event a poll can deliver without stopping the program: a delivery
    report, or an error report other than "all brokers down". *)
Definition quiet (e : async_event) : bool :=
  match e with
  | AsDelivery _ => true
  | AsError err => negb (err =? RD_KAFKA_RESP_ERR__ALL_BROKERS_DOWN)
  | AsSignal => false
  end.

(** An attempt answered with the queue-full error. *)
Definition is_queue_full (a : attempt) : Prop :=
  a_err a = Some RD_KAFKA_RESP_ERR__QUEUE_FULL.

(** An attempt whose poll is quiet. *)
Definition quiet_poll (a : attempt) : Prop :=
  forallb quiet (a_poll a) = true.

(** What a poll leaves alone whatever it delivers. *)
Definition poll_frame (w w' : world) : Prop :=
  exitcode w' = exitcode w /\ log w' = log w /\
  part_eof w' = part_eof w /\ part_eof_cnt w' = part_eof_cnt w /\
  part_eof_thres w' = part_eof_thres w /\
  tx (stats w') = tx (stats w) /\ tx_err_q (stats w') = tx_err_q (stats w) /\
  rx (stats w') = rx (stats w) /\
  (run w = false -> run w' = false).

(** The copy path and the ownership-transfer path of a send. *)
Definition copy_path (msgflags : Z) : Prop :=
  flag_set msgflags RD_KAFKA_MSG_F_COPY = true /\
  flag_set msgflags RD_KAFKA_MSG_F_FREE = false.

Definition transfer_path (msgflags : Z) : Prop :=
  flag_set msgflags RD_KAFKA_MSG_F_FREE = true /\
  flag_set msgflags RD_KAFKA_MSG_F_COPY = false.

(** The length of the record in a chunk returned by [getdelim]: what the
    loop body has in [len] once the delimiter is shaved off. *)
Definition record_len (cs : bool) (cfg : config) (chunk : list byte) : nat :=
  shave_delim cs cfg chunk (length chunk).

(** The framed record of a chunk and the bytes shaved off behind it. *)
Definition record_of (cs : bool) (cfg : config) (chunk : list byte) : list byte :=
  take (record_len cs cfg chunk) chunk.

Definition shaved_of (cs : bool) (cfg : config) (chunk : list byte) : list byte :=
  drop (record_len cs cfg chunk) chunk.

(** A chunk as [getdelim] cuts it for the delimiter [d]: bytes other than
    [d], then [d] or (at the end of the input) nothing. *)
Definition delimited (d : Z) (chunk : list byte) : Prop :=
  exists body tail,
    chunk = body ++ tail /\
    (forall x, x ∈ body -> byte_val x <> d mod 256) /\
    (tail = [] \/ exists b, tail = [b] /\ byte_val b = d mod 256).

(** A key split is applied: the key delimiter is configured and found in
    the record. *)
Definition key_split (cs : bool) (KEY_DELIM : Z) (cfg : config)
    (chunk : list byte) : bool :=
  flag_set (flags cfg) KEY_DELIM
  && bool_decide (is_Some (memchr chunk 0 (key_delim cfg) (record_len cs cfg chunk))).

(** The length handed over with a payload or key: a NULL pointer goes with
    the length 0. *)
Definition payload_len (p : option (list byte)) : nat :=
  from_option length O p.

(** Between [w] and [w'] the next thing sent was the message with payload
    [value] and key [key]. *)
Definition sends (w w' : world) (value key : option (list byte)) : Prop :=
  exists msgflags rest,
    log w' = log w ++ EvProduce value (payload_len value)
                                key (payload_len key) msgflags :: rest.

(** The half of a split record as it is sent: an empty half is sent as NULL
    when the null flag is set. *)
Definition nullable (NULL : Z) (cfg : config) (half : list byte)
  : option (list byte) :=
  if flag_set (flags cfg) NULL && (length half =? 0)%nat then None
  else Some half.

(** A file of the list fails when [produce_file] returns -1 for it: it
    cannot be opened, or examined, or (not being empty) mapped. *)
Definition file_fails (f : file_env) : bool :=
  match f_state f with
  | FOpenFails | FStatFails => true
  | FFile contents mmap_ok => negb (length contents =? 0)%nat && negb mmap_ok
  end.

(** The message a file gives: its contents, when it is read and not
    empty. *)
Definition file_payload (f : file_env) : option (list byte) :=
  match f_state f with
  | FFile contents true =>
      if (length contents =? 0)%nat then None else Some contents
  | _ => None
  end.

(** An end-of-partition marker, and an ordinary message. *)
Definition is_eof (m : message) : bool :=
  m_err m =? RD_KAFKA_RESP_ERR__PARTITION_EOF.

Definition is_data (m : message) : bool := m_err m =? 0.

(** The partitions the consumer was started on: all of them, or the one
    requested with [-p]. *)
Definition wanted (cfg : config) (p : Z) : Prop :=
  partition cfg = RD_KAFKA_PARTITION_UA \/ p = partition cfg.

(** The distinct partitions for which a list of messages holds an
    end-of-partition marker. *)
Definition eof_partitions (msgs : list message) : gset Z :=
  list_to_set (m_partition <$> filter (fun m => is_eof m = true) msgs).

(** The offset stored for an end-of-partition marker. *)
Definition eof_store (m : message) : event :=
  EvOffsetStore (m_partition m) (if m_offset m =? 0 then 0 else m_offset m - 1).

(** What the callback does with a message when exit-at-EOF is off and the
    run flag is set: an ordinary message is rendered and its offset stored;
    a marker only has its offset stored. *)
Definition trace_of (m : message) : list event :=
  if is_data m then [EvOutput m; EvOffsetStore (m_partition m) (m_offset m)]
  else [eof_store m].

(** The threshold [consumer_run] sets up for [partition_cnt] partitions. *)
Definition eof_threshold (cfg : config) (partition_cnt : nat) : Z :=
  if negb (partition cfg =? RD_KAFKA_PARTITION_UA) then 1
  else Z.of_nat partition_cnt.

(** The partitions whose markers can reach the callback: those the consumer
    was started on, among the partitions 0 .. partition_cnt - 1 of the
    topic. *)
Definition eof_domain (cfg : config) (partition_cnt : nat) : gset Z :=
  if partition cfg =? RD_KAFKA_PARTITION_UA
  then list_to_set (seqZ 0 (Z.of_nat partition_cnt))
  else {[partition cfg]} ∩ list_to_set (seqZ 0 (Z.of_nat partition_cnt)).

(** A message the coordinator can be told about: the marker of a wanted
    partition of the topic, or, when no message-count limit is configured,
    an ordinary message. *)
Definition deliverable (cfg : config) (partition_cnt : nat) (m : message) : Prop :=
  (is_data m = true /\ msg_cnt cfg = 0) \/
  (is_eof m = true /\ 0 <= m_partition m < Z.of_nat partition_cnt /\
   wanted cfg (m_partition m)).

(** A message of a run in which only the message-count limit can stop the
    consume loop: an ordinary message, or, exit-at-EOF being off, an
    end-of-partition marker. *)
Definition plain_message (cfg : config) (m : message) : Prop :=
  is_data m = true \/ (is_eof m = true /\ exit_eof cfg = false).

(** The end-of-partition table marks exactly the partitions of [obs], and
    the counter is their number. *)
Definition coordinated (partition_cnt : nat) (obs : gset Z) (w : world) : Prop :=
  exists arr,
    part_eof w = Some arr /\ length arr = partition_cnt /\
    (forall i, (i < partition_cnt)%nat ->
       arr !! i = Some (if bool_decide (Z.of_nat i ∈ obs) then 1 else 0)) /\
    part_eof_cnt w = Z.of_nat (card obs).

(** The coordinator at work: the table is set up for [partition_cnt]
    partitions, then the callback is handed [msgs] one by one. *)
Definition observe (cfg : config) (partition_cnt : nat) (msgs : list message)
  : M unit :=
  setup_eof cfg partition_cnt ;; consume_callback_queue cfg msgs.

(** ** Sample inputs *)

Definition bytes (s : string) : list byte := list_byte_of_string s.

(** An attempt accepted at once, and one answered queue-full; both with
    nothing to serve in the poll. *)
Definition accepted : attempt := mkAttempt None [].
Definition queue_full : attempt :=
  mkAttempt (Some RD_KAFKA_RESP_ERR__QUEUE_FULL) [].

(** A read with no signal, a send accepted at once, a tee write that
    works. *)
Definition plain_read : read_env := mkReadEnv false [accepted] false.

(** Newline-delimited input, no key delimiter, no flag set. *)
Definition lines_cfg : config := mkConfig 0 10 0 (-1) false 0.


(** A consumer of all partitions that exits at the end of the topic. *)
Definition exit_eof_cfg : config := mkConfig 0 10 0 (-1) true 0.

(** A consumer of all partitions limited to two messages. *)
Definition two_messages_cfg : config := mkConfig 0 10 0 (-1) false 2.

Definition eof_marker (part offset : Z) : message :=
  mkMessage RD_KAFKA_RESP_ERR__PARTITION_EOF part offset None None.

Definition data_msg (part offset : Z) (payload : string) : message :=
  mkMessage 0 part offset (Some (bytes payload)) None.

(** ** Vocabulary of the further properties *)

(** *** Delimiter specifications *)

(** The digit [d] (0..15) as a hexadecimal character, in either case. *)
Definition hex_char (upper : bool) (d : Z) : ascii :=
  ascii_of_N (Z.to_N (if d <? 10 then 48 + d
                      else if upper then 55 + d else 87 + d)).

(** The form [\xNN] of the byte value [n]. *)
Definition hex_spec (upper : bool) (n : Z) : string :=
  String "\" (String "x" (String (hex_char upper (n / 16))
    (String (hex_char upper (n mod 16)) EmptyString))).

(** A text made of hexadecimal digits only, and the number it writes, most
    significant digit first. *)
Fixpoint all_hex (s : string) : bool :=
  match s with
  | EmptyString => true
  | String c s' => bool_decide (is_Some (hex_digit c)) && all_hex s'
  end.

Fixpoint hex_number (s : string) : Z :=
  match s with
  | EmptyString => 0
  | String c s' =>
      default 0 (hex_digit c) * 16 ^ Z.of_nat (String.length s') + hex_number s'
  end.

(** *** Events of a poll *)

Definition delivery_ok (e : async_event) : bool :=
  match e with AsDelivery err => err =? 0 | _ => false end.

Definition delivery_failed (e : async_event) : bool :=
  match e with AsDelivery err => negb (err =? 0) | _ => false end.

Definition brokers_down (e : async_event) : bool :=
  match e with
  | AsError err => err =? RD_KAFKA_RESP_ERR__ALL_BROKERS_DOWN
  | _ => false
  end.

Definition is_signal (e : async_event) : bool :=
  match e with AsSignal => true | _ => false end.

(** A 64-bit counter [x] after [n] increments. *)
Definition u64_add (x : Z) (n : nat) : Z := (x + Z.of_nat n) mod UINT64_MOD.

(** *** Reading the trace, continued *)

(** The chunks echoed on standard output in tee mode, in order. *)
Fixpoint teed (evs : list event) : list (list byte) :=
  match evs with
  | [] => []
  | EvTee chunk :: evs' => chunk :: teed evs'
  | _ :: evs' => teed evs'
  end.

(** The partitions started and the partitions stopped, in order, one entry
    for each call. *)
Fixpoint started (evs : list event) : list Z :=
  match evs with
  | [] => []
  | EvConsumeStart p :: evs' => p :: started evs'
  | _ :: evs' => started evs'
  end.

Fixpoint stopped (evs : list event) : list Z :=
  match evs with
  | [] => []
  | EvConsumeStop p :: evs' => p :: stopped evs'
  | _ :: evs' => stopped evs'
  end.

(** A chunk whose record is sent: it is not empty once the delimiter is
    shaved off. *)
Definition sendable (cs : bool) (cfg : config) (chunk : list byte) : bool :=
  negb (record_len cs cfg chunk =? 0)%nat.

(** The number of calls that stopped the partition [p]. *)
Definition stop_count (p : Z) (evs : list event) : nat :=
  length (filter (fun q => q = p) (stopped evs)).

(** Whether the end-of-partition table marks the partition [p]. *)
Definition marked (w : world) (p : Z) : bool :=
  match part_eof w with
  | Some arr =>
      if p <? 0 then false
      else match arr !! Z.to_nat p with
           | Some v => negb (v =? 0)
           | None => false
           end
  | None => false
  end.

(** The condition under which the loops over the partitions skip [p]. *)
Definition skipped (cfg : config) (p : Z) : bool :=
  negb (partition cfg =? RD_KAFKA_PARTITION_UA) && negb (partition cfg =? p).

(** The record of a chunk as the reader of the input sees it: the chunk
    without the delimiter byte [d] at its end, if it ends in one. *)
Definition strip_delim (d : Z) (chunk : list byte) : list byte :=
  match last chunk with
  | Some b => if byte_val b =? d then take (length chunk - 1) chunk else chunk
  | None => chunk
  end.

(** A chunk is its record, which holds no delimiter byte, followed by the
    delimiter byte or (at the end of the input) by nothing. *)
Definition ends_record (d : Z) (chunk rec : list byte) : Prop :=
  (forall b, b ∈ rec -> byte_val b <> d) /\
  (chunk = rec \/ exists b, byte_val b = d /\ chunk = rec ++ [b]).

(** The key delimiter is configured and the record holds it. *)
Definition holds_key (KEY_DELIM : Z) (cfg : config) (rec : list byte) : Prop :=
  flag_set (flags cfg) KEY_DELIM = true /\
  exists b, b ∈ rec /\ byte_val b = key_delim cfg mod 256.

(** The comparison of the step "Shave off delimiter" finds the delimiter:
    [char] is unsigned, or the delimiter is a 7-bit value. *)
Definition shave_exact (cs : bool) (cfg : config) : Prop :=
  cs = false \/ delim cfg < 128.

(** ** Command line *)

(** *** strtoll and atoi, base 10 *)

Definition LLONG_MAX : Z := 2 ^ 63 - 1.
Definition LLONG_MIN : Z := - 2 ^ 63.
Definition INT_MAX : Z := 2 ^ 31 - 1.
Definition INT_MIN : Z := - 2 ^ 31.

Definition dec_digit (c : ascii) : option Z :=
  let n := ascii_val c in
  if (48 <=? n) && (n <=? 57) then Some (n - 48) else None.

(** The value of the decimal digits [s] starts with, continuing [acc]. *)
Fixpoint dec_accum (s : string) (acc : Z) : Z :=
  match s with
  | String c s' =>
      match dec_digit c with
      | Some d => dec_accum s' (acc * 10 + d)
      | None => acc
      end
  | EmptyString => acc
  end.

(** The number a text starts with: white space, an optional sign, decimal
    digits; 0 when no digit is found, and the rest of the text is
    ignored. *)
Definition leading_number (s : string) : Z :=
  match skip_space s with
  | String "-"%char s' => - dec_accum s' 0
  | String "+"%char s' => dec_accum s' 0
  | s' => dec_accum s' 0
  end.

(** [strtoll(s, NULL, 10)]: a value out of range is clamped. *)
Definition strtoll10 (s : string) : Z :=
  Z.max LLONG_MIN (Z.min LLONG_MAX (leading_number s)).

(** [atoi(s)]: the behaviour is undefined ([None]) when the value cannot be
    represented as an [int]. *)
Definition atoi (s : string) : option Z :=
  let v := leading_number s in
  if (INT_MIN <=? v) && (v <=? INT_MAX) then Some v else None.

(** [strchr(s, c)] followed by [*val = 0; val++]: the text before the first
    [c] and the text after it; [None] when [c] does not occur. *)
Fixpoint strchr_cut (c : ascii) (s : string) : option (string * string) :=
  match s with
  | EmptyString => None
  | String x s' =>
      if Ascii.eqb x c then Some (EmptyString, s')
      else match strchr_cut c s' with
           | Some (name, val) => Some (String x name, val)
           | None => None
           end
  end.

(** [snprintf(buf, size, ...)] of a text: at most [size - 1] characters are
    stored. *)
Definition snprintf (size : nat) (text : string) : string :=
  String.substring 0 (size - 1) text.

(** [printf("%i", n)] *)
Definition dec (n : Z) : string := NilZero.string_of_int (Z.to_int n).

(** *** librdkafka: offsets and configuration results (rdkafka.h) *)

Definition RD_KAFKA_OFFSET_BEGINNING : Z := -2.
Definition RD_KAFKA_OFFSET_END : Z := -1.
Definition RD_KAFKA_OFFSET_STORED : Z := -1000.
Definition RD_KAFKA_OFFSET_TAIL_BASE : Z := -2000.
Definition RD_KAFKA_RESP_ERR_LEADER_NOT_AVAILABLE : Z := 5.

Inductive rd_kafka_conf_res_t : Type :=
| RD_KAFKA_CONF_UNKNOWN
| RD_KAFKA_CONF_INVALID
| RD_KAFKA_CONF_OK.

(** *** struct conf *)

(** The fields of [struct conf] that the command line decides ([conf.run]
    and [conf.exitcode] are part of [world]).  [conf.mode] is the option
    character, 0 as long as none was given.  The two configuration objects
    of librdkafka are the lists of the properties set successfully, in
    order. *)
Record conf := mkConf {
  conf_mode : Z;
  conf_flags : Z;
  conf_delim : Z;
  conf_key_delim : Z;
  conf_partition : Z;
  conf_offset : Z;
  conf_exit_eof : bool;
  conf_msg_cnt : Z;
  conf_null_str_len : Z;
  conf_verbosity : Z;
  conf_brokers : option string;
  conf_topic : option string;
  conf_debug : option string;
  conf_conf_dump : bool;
  conf_rk_conf : list (string * string);
  conf_rkt_conf : list (string * string)
}.

Definition with_mode (v : Z) (c : conf) : conf :=
  mkConf v (conf_flags c) (conf_delim c) (conf_key_delim c) (conf_partition
         c) (conf_offset c) (conf_exit_eof c) (conf_msg_cnt c)
         (conf_null_str_len c) (conf_verbosity c) (conf_brokers c)
         (conf_topic c) (conf_debug c) (conf_conf_dump c) (conf_rk_conf c)
         (conf_rkt_conf c).
Definition with_flags (v : Z) (c : conf) : conf :=
  mkConf (conf_mode c) v (conf_delim c) (conf_key_delim c) (conf_partition
         c) (conf_offset c) (conf_exit_eof c) (conf_msg_cnt c)
         (conf_null_str_len c) (conf_verbosity c) (conf_brokers c)
         (conf_topic c) (conf_debug c) (conf_conf_dump c) (conf_rk_conf c)
         (conf_rkt_conf c).
Definition with_delim (v : Z) (c : conf) : conf :=
  mkConf (conf_mode c) (conf_flags c) v (conf_key_delim c) (conf_partition
         c) (conf_offset c) (conf_exit_eof c) (conf_msg_cnt c)
         (conf_null_str_len c) (conf_verbosity c) (conf_brokers c)
         (conf_topic c) (conf_debug c) (conf_conf_dump c) (conf_rk_conf c)
         (conf_rkt_conf c).
Definition with_key_delim (v : Z) (c : conf) : conf :=
  mkConf (conf_mode c) (conf_flags c) (conf_delim c) v (conf_partition c)
         (conf_offset c) (conf_exit_eof c) (conf_msg_cnt c)
         (conf_null_str_len c) (conf_verbosity c) (conf_brokers c)
         (conf_topic c) (conf_debug c) (conf_conf_dump c) (conf_rk_conf c)
         (conf_rkt_conf c).
Definition with_partition (v : Z) (c : conf) : conf :=
  mkConf (conf_mode c) (conf_flags c) (conf_delim c) (conf_key_delim c) v
         (conf_offset c) (conf_exit_eof c) (conf_msg_cnt c)
         (conf_null_str_len c) (conf_verbosity c) (conf_brokers c)
         (conf_topic c) (conf_debug c) (conf_conf_dump c) (conf_rk_conf c)
         (conf_rkt_conf c).
Definition with_offset (v : Z) (c : conf) : conf :=
  mkConf (conf_mode c) (conf_flags c) (conf_delim c) (conf_key_delim c)
         (conf_partition c) v (conf_exit_eof c) (conf_msg_cnt c)
         (conf_null_str_len c) (conf_verbosity c) (conf_brokers c)
         (conf_topic c) (conf_debug c) (conf_conf_dump c) (conf_rk_conf c)
         (conf_rkt_conf c).
Definition with_exit_eof (v : bool) (c : conf) : conf :=
  mkConf (conf_mode c) (conf_flags c) (conf_delim c) (conf_key_delim c)
         (conf_partition c) (conf_offset c) v (conf_msg_cnt c)
         (conf_null_str_len c) (conf_verbosity c) (conf_brokers c)
         (conf_topic c) (conf_debug c) (conf_conf_dump c) (conf_rk_conf c)
         (conf_rkt_conf c).
Definition with_msg_cnt (v : Z) (c : conf) : conf :=
  mkConf (conf_mode c) (conf_flags c) (conf_delim c) (conf_key_delim c)
         (conf_partition c) (conf_offset c) (conf_exit_eof c) v
         (conf_null_str_len c) (conf_verbosity c) (conf_brokers c)
         (conf_topic c) (conf_debug c) (conf_conf_dump c) (conf_rk_conf c)
         (conf_rkt_conf c).
Definition with_null_str_len (v : Z) (c : conf) : conf :=
  mkConf (conf_mode c) (conf_flags c) (conf_delim c) (conf_key_delim c)
         (conf_partition c) (conf_offset c) (conf_exit_eof c) (conf_msg_cnt
         c) v (conf_verbosity c) (conf_brokers c) (conf_topic c) (conf_debug
         c) (conf_conf_dump c) (conf_rk_conf c) (conf_rkt_conf c).
Definition with_verbosity (v : Z) (c : conf) : conf :=
  mkConf (conf_mode c) (conf_flags c) (conf_delim c) (conf_key_delim c)
         (conf_partition c) (conf_offset c) (conf_exit_eof c) (conf_msg_cnt
         c) (conf_null_str_len c) v (conf_brokers c) (conf_topic c)
         (conf_debug c) (conf_conf_dump c) (conf_rk_conf c) (conf_rkt_conf
         c).
Definition with_brokers (v : option string) (c : conf) : conf :=
  mkConf (conf_mode c) (conf_flags c) (conf_delim c) (conf_key_delim c)
         (conf_partition c) (conf_offset c) (conf_exit_eof c) (conf_msg_cnt
         c) (conf_null_str_len c) (conf_verbosity c) v (conf_topic c)
         (conf_debug c) (conf_conf_dump c) (conf_rk_conf c) (conf_rkt_conf
         c).
Definition with_topic (v : option string) (c : conf) : conf :=
  mkConf (conf_mode c) (conf_flags c) (conf_delim c) (conf_key_delim c)
         (conf_partition c) (conf_offset c) (conf_exit_eof c) (conf_msg_cnt
         c) (conf_null_str_len c) (conf_verbosity c) (conf_brokers c) v
         (conf_debug c) (conf_conf_dump c) (conf_rk_conf c) (conf_rkt_conf
         c).
Definition with_debug (v : option string) (c : conf) : conf :=
  mkConf (conf_mode c) (conf_flags c) (conf_delim c) (conf_key_delim c)
         (conf_partition c) (conf_offset c) (conf_exit_eof c) (conf_msg_cnt
         c) (conf_null_str_len c) (conf_verbosity c) (conf_brokers c)
         (conf_topic c) v (conf_conf_dump c) (conf_rk_conf c) (conf_rkt_conf
         c).
Definition with_conf_dump (v : bool) (c : conf) : conf :=
  mkConf (conf_mode c) (conf_flags c) (conf_delim c) (conf_key_delim c)
         (conf_partition c) (conf_offset c) (conf_exit_eof c) (conf_msg_cnt
         c) (conf_null_str_len c) (conf_verbosity c) (conf_brokers c)
         (conf_topic c) (conf_debug c) v (conf_rk_conf c) (conf_rkt_conf c).
Definition with_rk_conf (v : list (string * string)) (c : conf) : conf :=
  mkConf (conf_mode c) (conf_flags c) (conf_delim c) (conf_key_delim c)
         (conf_partition c) (conf_offset c) (conf_exit_eof c) (conf_msg_cnt
         c) (conf_null_str_len c) (conf_verbosity c) (conf_brokers c)
         (conf_topic c) (conf_debug c) (conf_conf_dump c) v (conf_rkt_conf
         c).
Definition with_rkt_conf (v : list (string * string)) (c : conf) : conf :=
  mkConf (conf_mode c) (conf_flags c) (conf_delim c) (conf_key_delim c)
         (conf_partition c) (conf_offset c) (conf_exit_eof c) (conf_msg_cnt
         c) (conf_null_str_len c) (conf_verbosity c) (conf_brokers c)
         (conf_topic c) (conf_debug c) (conf_conf_dump c) (conf_rk_conf c) v.

(** [struct conf conf = { .run = 1, .verbosity = 1, .partition =
    RD_KAFKA_PARTITION_UA, ... }]: everything else is zero. *)
Definition initial_conf : conf :=
  mkConf 0 0 0 0 RD_KAFKA_PARTITION_UA 0 false 0 0 1 None None None false [] [].

(** What the run functions read of it. *)
Definition config_of (c : conf) : config :=
  mkConfig (conf_flags c) (conf_delim c) (conf_key_delim c)
           (conf_partition c) (conf_exit_eof c) (conf_msg_cnt c).

(** *** argparse *)

(** One return of [getopt]: the option character and [optarg]. *)
Record getopt_result := mkOpt {
  g_opt : ascii;
  g_optarg : string
}.

(** The locals of [argparse] next to [conf], and whether standard output
    was made unbuffered. *)
Record arg_state := mkArgs {
  a_conf : conf;
  a_fmt : option string;
  a_delim : string;
  a_key_delim : option string;
  a_unbuffered : bool
}.

Definition set_conf (c : conf) (st : arg_state) : arg_state :=
  mkArgs c (a_fmt st) (a_delim st) (a_key_delim st) (a_unbuffered st).
Definition set_fmt (v : option string) (st : arg_state) : arg_state :=
  mkArgs (a_conf st) v (a_delim st) (a_key_delim st) (a_unbuffered st).
Definition set_delim (v : string) (st : arg_state) : arg_state :=
  mkArgs (a_conf st) (a_fmt st) v (a_key_delim st) (a_unbuffered st).
Definition set_key_delim (v : option string) (st : arg_state) : arg_state :=
  mkArgs (a_conf st) (a_fmt st) (a_delim st) v (a_unbuffered st).
Definition set_unbuffered (v : bool) (st : arg_state) : arg_state :=
  mkArgs (a_conf st) (a_fmt st) (a_delim st) (a_key_delim st) v.

(** The newline character as a text: the default [delim]. *)
Definition newline : string := String "010"%char EmptyString.

(** [const char *fmt = NULL, *delim = "\n", *key_delim = NULL] *)
Definition initial_args (c : conf) : arg_state :=
  mkArgs c None newline None false.

(** Why the process ended before a mode was entered. *)
Inductive cause : Type :=
| Usage (reason : option string)   (* usage(argv0, code, reason) *)
| UsageErrstr                      (* usage(), with the error text of librdkafka *)
| Fatal                            (* FATAL(...) *)
| PropertiesShown                  (* -X list, -X help *)
| ExpectedProperty                 (* -X without a value *)
| Format                           (* fmt_parse ended the process *)
| ConfDumped.                      (* -X dump *)

Inductive parsed (A : Type) : Type :=
| Parsed (a : A)
| Quit (code : Z) (why : cause)    (* exit(code) *)
| Unspecified.                     (* undefined behaviour *)
Arguments Parsed {A} a.
Arguments Quit {A} code why.
Arguments Unspecified {A}.

(** The argument of [-o]: [None] where the arithmetic on [int64_t]
    overflows. *)
Definition parse_offset (optarg : string) : option Z :=
  if String.eqb optarg "end" then Some RD_KAFKA_OFFSET_END
  else if String.eqb optarg "beginning" then Some RD_KAFKA_OFFSET_BEGINNING
  else if String.eqb optarg "stored" then Some RD_KAFKA_OFFSET_STORED
  else
    let offset := strtoll10 optarg in
    if offset <? 0 then
      (* RD_KAFKA_OFFSET_TAIL(-conf.offset) *)
      if offset =? LLONG_MIN then None
      else
        let tail := RD_KAFKA_OFFSET_TAIL_BASE - (- offset) in
        if tail <? LLONG_MIN then None else Some tail
    else Some offset.

(** The masks of [conf.flags] and the compile-time switch [ENABLE_JSON]
    come from kafkacat.h and the build; what librdkafka answers when a
    property is set, and whether [fmt_parse] (format.c) ends the process on
    a format, are given from outside. *)
Section CommandLine.
Variable char_signed : bool.
Variable ENABLE_JSON : bool.
Variables CONF_F_FMT_JSON CONF_F_KEY_DELIM CONF_F_OFFSET : Z.
Variables CONF_F_TEE CONF_F_NULL CONF_F_LINE : Z.
Variable rd_kafka_conf_set : string -> string -> rd_kafka_conf_res_t.
Variable rd_kafka_topic_conf_set : string -> string -> rd_kafka_conf_res_t.
Variable fmt_parse : string -> option Z.

(** [conf.flags |= mask] *)
Definition or_flags (mask : Z) (st : arg_state) : arg_state :=
  set_conf (with_flags (Z.lor (conf_flags (a_conf st)) mask) (a_conf st)) st.

(** [if (rd_kafka_conf_set(conf.rk_conf, name, val, ...) != RD_KAFKA_CONF_OK)
    FATAL(...)] *)
Definition conf_set_or_fatal (name val : string) (st : arg_state)
  : parsed arg_state :=
  match rd_kafka_conf_set name val with
  | RD_KAFKA_CONF_OK =>
      Parsed (set_conf (with_rk_conf (conf_rk_conf (a_conf st) ++ [(name, val)])
                                     (a_conf st)) st)
  | _ => Quit 1 Fatal
  end.

(** [case 'X'] *)
Definition property_option (optarg : string) (st : arg_state)
  : parsed arg_state :=
  if String.eqb optarg "list" || String.eqb optarg "help"
  then Quit 0 PropertiesShown
  else if String.eqb optarg "dump"
  then Parsed (set_conf (with_conf_dump true (a_conf st)) st)
  else
    match strchr_cut "="%char optarg with
    | None => Quit 1 ExpectedProperty
    | Some (name, val) =>
        let c := a_conf st in
        let res :=
          if has_prefix "topic." name
          then rd_kafka_topic_conf_set
                 (drop_chars (String.length "topic.") name) val
          else RD_KAFKA_CONF_UNKNOWN in
        match res with
        | RD_KAFKA_CONF_OK =>
            Parsed (set_conf
                      (with_rkt_conf
                         (conf_rkt_conf c
                          ++ [(drop_chars (String.length "topic.") name, val)])
                         c) st)
        | RD_KAFKA_CONF_INVALID => Quit 1 Fatal
        | RD_KAFKA_CONF_UNKNOWN =>
            match rd_kafka_conf_set name val with
            | RD_KAFKA_CONF_OK =>
                Parsed (set_conf (with_rk_conf (conf_rk_conf c ++ [(name, val)])
                                               c) st)
            | _ => Quit 1 Fatal
            end
        end
    end.

(** The body of the [getopt] loop: the [switch] on the option character. *)
Definition argparse_opt (o : getopt_result) (st : arg_state)
  : parsed arg_state :=
  let optarg := g_optarg o in
  let c := a_conf st in
  match g_opt o with
  | "P"%char | "C"%char | "L"%char =>
      Parsed (set_conf (with_mode (ascii_val (g_opt o)) c) st)
  | "t"%char => Parsed (set_conf (with_topic (Some optarg) c) st)
  | "p"%char =>
      match atoi optarg with
      | Some v => Parsed (set_conf (with_partition v c) st)
      | None => Unspecified
      end
  | "b"%char => Parsed (set_conf (with_brokers (Some optarg) c) st)
  | "z"%char => conf_set_or_fatal "compression.codec" optarg st
  | "o"%char =>
      match parse_offset optarg with
      | Some v => Parsed (set_conf (with_offset v c) st)
      | None => Unspecified
      end
  | "e"%char => Parsed (set_conf (with_exit_eof true c) st)
  | "f"%char => Parsed (set_fmt (Some optarg) st)
  | "J"%char =>
      if ENABLE_JSON then Parsed (or_flags CONF_F_FMT_JSON st)
      else Quit 1 (Usage (Some "unknown argument"%string))
  | "D"%char => Parsed (set_delim optarg st)
  | "K"%char => Parsed (or_flags CONF_F_KEY_DELIM (set_key_delim (Some optarg) st))
  | "l"%char => Parsed (or_flags CONF_F_LINE st)
  | "O"%char => Parsed (or_flags CONF_F_OFFSET st)
  | "c"%char => Parsed (set_conf (with_msg_cnt (strtoll10 optarg) c) st)
  | "Z"%char =>
      let st := or_flags CONF_F_NULL st in
      Parsed (set_conf (with_null_str_len (Z.of_nat (String.length "NULL"))
                                          (a_conf st)) st)
  | "d"%char =>
      conf_set_or_fatal "debug" optarg
        (set_conf (with_debug (Some optarg) c) st)
  | "q"%char => Parsed (set_conf (with_verbosity 0 c) st)
  | "v"%char =>
      if conf_verbosity c =? INT_MAX then Unspecified
      else Parsed (set_conf (with_verbosity (conf_verbosity c + 1) c) st)
  | "T"%char => Parsed (or_flags CONF_F_TEE st)
  | "u"%char => Parsed (set_unbuffered true st)
  | "X"%char => property_option optarg st
  | _ => Quit 1 (Usage (Some "unknown argument"%string))
  end.

(** [while ((opt = getopt(...)) != -1) switch (opt) ...] over the returns
    of [getopt]. *)
Fixpoint getopt_loop (opts : list getopt_result) (st : arg_state)
  : parsed arg_state :=
  match opts with
  | [] => Parsed st
  | o :: opts' =>
      match argparse_opt o st with
      | Parsed st' => getopt_loop opts' st'
      | Quit code why => Quit code why
      | Unspecified => Unspecified
      end
  end.

(** The format of the consumer when [-f] is not given. *)
Definition default_fmt (st : arg_state) : string :=
  if flag_set (conf_flags (a_conf st)) CONF_F_FMT_JSON then a_delim st
  else
    match a_key_delim st with
    | Some key_delim =>
        snprintf 64 ("%k" ++ key_delim ++ "%s" ++ a_delim st)%string
    | None => snprintf 64 ("%s" ++ a_delim st)%string
    end.

(** What follows the loop. *)
Definition argparse_finish (isatty : bool) (st : arg_state)
  : parsed arg_state :=
  let c := a_conf st in
  match conf_brokers c with
  | None => Quit 1 (Usage (Some "-b <broker,..> missing"%string))
  | Some brokers =>
      let c :=
        if conf_mode c =? 0
        then with_mode (if isatty then ascii_val "C" else ascii_val "P") c
        else c in
      if negb (conf_mode c =? ascii_val "L")
         && bool_decide (conf_topic c = None)
      then Quit 1 (Usage (Some "-t <topic> missing"%string))
      else
        match rd_kafka_conf_set "metadata.broker.list" brokers with
        | RD_KAFKA_CONF_OK =>
            let c := with_rk_conf
                       (conf_rk_conf c ++ [("metadata.broker.list"%string, brokers)])
                       c in
            let st := set_conf c st in
            if conf_mode c =? ascii_val "C" then
              let fmt := match a_fmt st with
                         | Some fmt => fmt
                         | None => default_fmt st
                         end in
              match fmt_parse fmt with
              | Some code => Quit code Format
              | None => Parsed (set_fmt (Some fmt) st)
              end
            else if conf_mode c =? ascii_val "P" then
              let c := with_delim (parse_delim char_signed (a_delim st)) c in
              if flag_set (conf_flags c) CONF_F_KEY_DELIM then
                match a_key_delim st with
                | Some key_delim =>
                    Parsed (set_conf
                              (with_key_delim
                                 (parse_delim char_signed key_delim) c) st)
                | None => Unspecified
                end
              else Parsed (set_conf c st)
            else Parsed st
        | _ => Quit 1 UsageErrstr
        end
  end.

(** [argparse] *)
Definition argparse (opts : list getopt_result) (isatty : bool) (c : conf)
  : parsed arg_state :=
  match getopt_loop opts (initial_args c) with
  | Parsed st => argparse_finish isatty st
  | Quit code why => Quit code why
  | Unspecified => Unspecified
  end.

End CommandLine.

(** *** Reading an option list *)

(** The argument of the last occurrence of the option [c], and whether the
    option occurs. *)
Definition last_arg (c : ascii) (opts : list getopt_result) : option string :=
  g_optarg <$> last (filter (fun o => Ascii.eqb (g_opt o) c = true) opts).

Definition given (c : ascii) (opts : list getopt_result) : bool :=
  existsb (fun o => Ascii.eqb (g_opt o) c) opts.

(** The mode options, and the last one given. *)
Definition is_mode (c : ascii) : bool :=
  Ascii.eqb c "P" || Ascii.eqb c "C" || Ascii.eqb c "L".

Definition last_mode (opts : list getopt_result) : option ascii :=
  g_opt <$> last (filter (fun o => is_mode (g_opt o) = true) opts).

(** The decision of an option list by its last occurrence of [c]: what the
    argument of that occurrence gives, or [init] when the option is not
    given. *)
Definition decided {A} (c : ascii) (f : string -> A) (init : A)
    (opts : list getopt_result) : A :=
  from_option f init (last_arg c opts).

(** The flag an option sets. *)
Definition option_mask (F_JSON F_KEY F_OFFSET F_TEE F_NULL F_LINE : Z)
    (c : ascii) : Z :=
  if Ascii.eqb c "J" then F_JSON
  else if Ascii.eqb c "K" then F_KEY
  else if Ascii.eqb c "O" then F_OFFSET
  else if Ascii.eqb c "T" then F_TEE
  else if Ascii.eqb c "Z" then F_NULL
  else if Ascii.eqb c "l" then F_LINE
  else 0.

(** Masks that are single, distinct bits: none is zero and no two
    overlap. *)
Fixpoint independent (masks : list Z) : Prop :=
  match masks with
  | [] => True
  | m :: masks' =>
      m <> 0 /\ Forall (fun m' => Z.land m m' = 0) masks' /\ independent masks'
  end.

(** The state [argparse] is called in: [conf] as it is initialised, but for
    the properties [main] has set already. *)
Definition conf_at_start (rk : list (string * string)) : conf :=
  with_rk_conf rk initial_conf.


(** *** A command line to try the statements on

    librdkafka accepts every property and [fmt_parse] every format; the
    masks are six distinct bits, [char] is unsigned and JSON is compiled
    in. *)
Definition accept_all (name val : string) : rd_kafka_conf_res_t :=
  RD_KAFKA_CONF_OK.

Abbreviation try_argparse opts isatty :=
  (argparse false true 1 2 4 8 16 32 accept_all accept_all (fun _ => None)
            opts isatty (conf_at_start [])).

Definition flag (c : ascii) : getopt_result := mkOpt c EmptyString.

(** * Properties *)

Ltac munfold :=
  unfold bind, modify, ret, get, FATAL, term in *; cbn [final_world] in *.

(** ** Delimiter parser *)

Lemma byte_val_range (b : byte) : 0 <= byte_val b < 256.
Proof.
  unfold byte_val. pose proof (Byte.to_N_bounded b) as H. lia.
Qed.

Lemma land_255_range (x : Z) : 0 <= Z.land x 255 <= 255.
Proof.
  assert (E : Z.land x 255 = x mod 256)
    by (change 255 with (Z.ones 8); rewrite Z.land_ones by lia; reflexivity).
  rewrite E. pose proof (Z.mod_pos_bound x 256 ltac:(lia)). lia.
Qed.

Lemma parse_delim_range (cs : bool) (str : string) :
  0 <= parse_delim cs str <= 255.
Proof.
  unfold parse_delim.
  destruct (has_prefix _ _); [apply land_255_range|].
  destruct (String.eqb str _); [lia|].
  destruct (String.eqb str _); [lia|].
  apply land_255_range.
Qed.

Example parse_delim_hex : parse_delim true "\x1f" = 31.
Proof. reflexivity. Qed.

Example parse_delim_hex_high : parse_delim true "\xff" = 255.
Proof. reflexivity. Qed.

Example parse_delim_newline : parse_delim true "\n" = 10.
Proof. reflexivity. Qed.

Example parse_delim_verbatim : parse_delim true ";" = 59.
Proof. reflexivity. Qed.

(** C9, as the code has it: on the empty specification string the parser
    returns the byte value 0 for the signed-[char] build. *)
Lemma parse_delim_empty_is_nul : parse_delim true EmptyString = 0.
Proof. reflexivity. Qed.

(** C9 (amended): the delimiter parser has no failure path.  On the empty
    specification string it returns the byte value 0, the terminating NUL
    of the string, and on every string it returns a value in 0..255. *)
Theorem parse_delim_total (cs : bool) :
  parse_delim cs EmptyString = 0 /\
  forall str, 0 <= parse_delim cs str <= 255.
Proof.
  split; [by destruct cs | apply parse_delim_range].
Qed.

(** ** Counters *)

Lemma u64_incr_no_limit x :
  0 <= x -> x + 1 < UINT64_MOD -> u64_eq_i64 (u64_incr x) 0 = false.
Proof.
  intros H0 H1. unfold u64_eq_i64, u64_incr.
  rewrite Z.mod_small by lia. apply Z.eqb_neq.
  change (0 mod UINT64_MOD) with 0. lia.
Qed.

Lemma u64_incr_small x : 0 <= x -> x + 1 < UINT64_MOD -> u64_incr x = x + 1.
Proof. intros. unfold u64_incr. apply Z.mod_small. lia. Qed.

(** ** Polls *)

Lemma poll_frame_refl w : poll_frame w w.
Proof. unfold poll_frame; tauto. Qed.

Lemma poll_frame_trans w1 w2 w3 :
  poll_frame w1 w2 -> poll_frame w2 w3 -> poll_frame w1 w3.
Proof.
  unfold poll_frame; intros H1 H2.
  destruct H1 as (?&?&?&?&?&?&?&?&?), H2 as (?&?&?&?&?&?&?&?&?).
  repeat split; try congruence; auto.
Qed.

Lemma poll_cons e evs w :
  rd_kafka_poll (e :: evs) w = bind (serve e) (fun _ => rd_kafka_poll evs) w.
Proof. reflexivity. Qed.

Lemma serve_frame e w : poll_frame w (final_world (serve e w)).
Proof.
  destruct e as [err|err|]; cbn [serve]; unfold dr_msg_cb, error_cb; munfold.
  - destruct (negb (err =? 0)); unfold poll_frame; cbn; tauto.
  - destruct (err =? _); apply poll_frame_refl.
  - unfold poll_frame; cbn; tauto.
Qed.

Lemma serve_quiet e w :
  quiet e = true -> exists w', serve e w = Done tt w' /\ run w' = run w.
Proof.
  destruct e as [err|err|]; cbn [serve quiet]; unfold dr_msg_cb, error_cb;
    munfold; intros He; try discriminate.
  - destruct (negb (err =? 0)); eauto.
  - apply negb_true_iff in He. rewrite He. eauto.
Qed.

(** Whatever a poll delivers, and however it ends, it touches only the
    delivery counters and the run flag, and it never sets the run flag. *)
Lemma rd_kafka_poll_frame evs w :
  poll_frame w (final_world (rd_kafka_poll evs w)).
Proof.
  revert w; induction evs as [|e evs IH]; intros w; [apply poll_frame_refl|].
  rewrite poll_cons. unfold bind.
  pose proof (serve_frame e w) as Hs.
  destruct (serve e w) as [[] w1|c w1|w1|w1]; cbn [final_world] in *; auto.
  eapply poll_frame_trans; [exact Hs|apply IH].
Qed.

(** A quiet poll returns and leaves the run flag as it is. *)
Lemma rd_kafka_poll_quiet evs w :
  forallb quiet evs = true ->
  exists w', rd_kafka_poll evs w = Done tt w' /\ run w' = run w /\ poll_frame w w'.
Proof.
  intros Hq. pose proof (rd_kafka_poll_frame evs w) as Hf.
  revert w Hf; induction evs as [|e evs IH]; intros w Hf.
  - exists w. split; [reflexivity|split; [reflexivity|exact Hf]].
  - cbn in Hq. apply andb_prop in Hq as [He Hq].
    rewrite poll_cons in *. unfold bind in *.
    destruct (serve_quiet e w He) as (w1 & Hs & Hr1). rewrite Hs in *.
    destruct (IH Hq w1 (rd_kafka_poll_frame _ _)) as (w' & Hd & Hr & _).
    rewrite Hd in *. exists w'.
    split; [reflexivity|split; [congruence|exact Hf]].
Qed.

(** A poll that delivers a signal clears the run flag. *)
Lemma rd_kafka_poll_signal evs1 evs2 w :
  forallb quiet evs1 = true -> forallb quiet evs2 = true ->
  exists w', rd_kafka_poll (evs1 ++ AsSignal :: evs2) w = Done tt w' /\
             run w' = false /\ poll_frame w w'.
Proof.
  intros H1 H2.
  pose proof (rd_kafka_poll_frame (evs1 ++ AsSignal :: evs2) w) as Hf.
  revert w Hf; induction evs1 as [|e evs1 IH]; intros w Hf.
  - cbn [app] in *. rewrite poll_cons in *. unfold bind in *. cbn [serve] in *.
    unfold term, modify in *. cbn beta iota in *.
    destruct (rd_kafka_poll_quiet evs2 (set_run false w) H2) as (w' & Hd & Hr & _).
    rewrite Hd in *. eauto.
  - cbn in H1. apply andb_prop in H1 as [He H1].
    cbn [app] in *. rewrite poll_cons in *. unfold bind in *.
    destruct (serve_quiet e w He) as (w1 & Hs & Hr1). rewrite Hs in *.
    destruct (IH H1 w1 (rd_kafka_poll_frame _ _)) as (w' & Hd & Hr & _).
    rewrite Hd in *. eauto.
Qed.

(** ** Send loop *)

Section SendLoop.
Variables (buf : option (list byte)) (len : nat).
Variables (key : option (list byte)) (key_len : nat) (msgflags : Z).

Local Abbreviation send := (produce buf len key key_len msgflags).
Local Abbreviation sent_event := (EvProduce buf len key key_len msgflags).

Lemma produce_not_running o w : run w = false -> send o w = Exited 1 w.
Proof. intros Hr. destruct o; cbn [produce]; rewrite Hr; reflexivity. Qed.

(** An attempt accepted at once, with nothing to serve in the poll. *)
Lemma produce_accepted w :
  run w = true ->
  send [accepted] w
  = Done tt (emit sent_event (set_stats (incr_tx (stats w)) w)).
Proof. intros Hr. cbn [produce]. rewrite Hr. reflexivity. Qed.

(** One retry: a queue-full answer followed by a quiet poll leads to the
    next attempt, with the queue-full counter advanced. *)
Lemma produce_retry_step a w :
  run w = true -> is_queue_full a -> quiet_poll a ->
  exists w1, run w1 = true /\ log w1 = log w /\ exitcode w1 = exitcode w /\
             tx (stats w1) = tx (stats w) /\
             tx_err_q (stats w1) = u64_incr (tx_err_q (stats w)) /\
             forall o, send (a :: o) w = send o w1.
Proof.
  intros Hr Hq Hp.
  destruct (rd_kafka_poll_quiet (a_poll a)
              (set_stats (incr_tx_err_q (stats w)) w) Hp)
    as (w1 & Hd & Hr1 & Hf).
  destruct Hf as (He & Hl & _ & _ & _ & Htx & Hq1 & _).
  exists w1. repeat split; try assumption.
  - rewrite Hr1. exact Hr.
  - intros o. cbn [produce]. rewrite Hr, Hq. cbn. munfold. rewrite Hd.
    reflexivity.
Qed.

(** Any number of retries. *)
Lemma produce_retry_prefix pre w :
  run w = true -> Forall (fun a => is_queue_full a /\ quiet_poll a) pre ->
  exists w1, run w1 = true /\ log w1 = log w /\ exitcode w1 = exitcode w /\
             tx (stats w1) = tx (stats w) /\
             tx_err_q (stats w1)
               = Nat.iter (length pre) u64_incr (tx_err_q (stats w)) /\
             forall o, send (pre ++ o) w = send o w1.
Proof.
  intros Hr Hpre. revert w Hr.
  induction Hpre as [|a pre [Hq Hp] _ IH]; intros w Hr.
  - exists w. repeat split; auto.
  - destruct (produce_retry_step a w Hr Hq Hp)
      as (w1 & Hr1 & Hl1 & He1 & Htx1 & Hq1 & Hs1).
    destruct (IH w1 Hr1) as (w2 & Hr2 & Hl2 & He2 & Htx2 & Hq2 & Hs2).
    exists w2. repeat split; try congruence.
    + rewrite Hq2, Hq1. cbn [length]. rewrite Nat.iter_succ_r. reflexivity.
    + intros o. cbn [app]. rewrite Hs1. apply Hs2.
Qed.

(** The send returns only through an accepted attempt. *)
Lemma produce_done_inv o w w' :
  send o w = Done tt w' ->
  exists pre a post,
    o = pre ++ a :: post /\ Forall is_queue_full pre /\ a_err a = None /\
    log w' = log w ++ [sent_event] /\
    exitcode w' = exitcode w /\
    tx (stats w') = u64_incr (tx (stats w)) /\
    tx_err_q (stats w')
      = Nat.iter (length pre) u64_incr (tx_err_q (stats w)).
Proof.
  revert w; induction o as [|a o IH]; intros w H; cbn [produce] in H;
    destruct (run w) eqn:Hr; cbn in H; try discriminate.
  destruct (a_err a) as [err|] eqn:Ha.
  - destruct (err =? RD_KAFKA_RESP_ERR__QUEUE_FULL) eqn:He; cbn in H;
      try discriminate.
    apply Z.eqb_eq in He; subst err. munfold.
    pose proof (rd_kafka_poll_frame (a_poll a)
                  (set_stats (incr_tx_err_q (stats w)) w)) as Hf.
    destruct (rd_kafka_poll (a_poll a) _) as [[] w1|?|?|?]; try discriminate.
    unfold poll_frame in Hf; cbn in Hf.
    destruct Hf as (He1 & Hl1 & _ & _ & _ & Htx1 & Hq1 & _).
    destruct (IH w1 H) as (pre & a' & post & -> & Hpre & Ha' & Hl & He & Htx & Hq).
    exists (a :: pre), a', post. repeat split; try congruence.
    + constructor; assumption.
    + rewrite Hq, Hq1. cbn [length]. rewrite Nat.iter_succ_r. reflexivity.
  - munfold.
    pose proof (rd_kafka_poll_frame (a_poll a)
                  (emit sent_event (set_stats (incr_tx (stats w)) w))) as Hf.
    destruct (rd_kafka_poll (a_poll a) _) as [[] w1|?|?|?]; try discriminate.
    injection H as ->. unfold poll_frame in Hf; cbn in Hf.
    destruct Hf as (He1 & Hl1 & _ & _ & _ & Htx1 & Hq1 & _).
    exists [], a, o. repeat split; auto.
Qed.

(** C6: the send loop.
    (1) [produce] returns normally only through an attempt the broker client
        accepted, after attempts that were all answered queue-full; the
        message is handed over once and counted once.
    (2) After any number [length pre] of queue-full answers, each followed
        by a poll that serves the completion events, an accepted attempt
        makes it return: the number of attempts has no bound.
    (3) As long as the answers are queue-full it keeps retrying.
    (4) When the run flag is found cleared (before the first attempt, or by
        a signal that arrived during the wait after a queue-full answer),
        the process exits with status 1 and the message is not sent.
    (5) On any other error of an attempt the process exits with status 1
        at once. *)
Theorem produce_send_loop :
  (forall o w w', send o w = Done tt w' ->
     exists pre a post,
       o = pre ++ a :: post /\ Forall is_queue_full pre /\ a_err a = None /\
       log w' = log w ++ [sent_event] /\
       tx (stats w') = u64_incr (tx (stats w))) /\
  (forall pre a post w,
     run w = true ->
     Forall (fun a => is_queue_full a /\ quiet_poll a) pre ->
     a_err a = None -> quiet_poll a ->
     exists w', send (pre ++ a :: post) w = Done tt w' /\
                tx_err_q (stats w')
                  = Nat.iter (length pre) u64_incr (tx_err_q (stats w))) /\
  (forall pre w,
     run w = true ->
     Forall (fun a => is_queue_full a /\ quiet_poll a) pre ->
     exists w', send pre w = Waiting w' /\ log w' = log w) /\
  (forall o w, run w = false -> send o w = Exited 1 w) /\
  (forall pre a evs1 evs2 post w,
     run w = true ->
     Forall (fun a => is_queue_full a /\ quiet_poll a) pre ->
     is_queue_full a -> a_poll a = evs1 ++ AsSignal :: evs2 ->
     forallb quiet evs1 = true -> forallb quiet evs2 = true ->
     exists w', send (pre ++ a :: post) w = Exited 1 w' /\ log w' = log w) /\
  (forall pre a err post w,
     run w = true ->
     Forall (fun a => is_queue_full a /\ quiet_poll a) pre ->
     a_err a = Some err -> err <> RD_KAFKA_RESP_ERR__QUEUE_FULL ->
     exists w', send (pre ++ a :: post) w = Exited 1 w' /\ log w' = log w).
Proof.
  repeat apply conj.
  - intros o w w' H.
    destruct (produce_done_inv o w w' H)
      as (pre & a & post & ? & ? & ? & ? & ? & ? & ?).
    exists pre, a, post. auto.
  - intros pre a post w Hr Hpre Ha Hp.
    destruct (produce_retry_prefix pre w Hr Hpre)
      as (w1 & Hr1 & Hl1 & He1 & Htx1 & Hq1 & Hs).
    rewrite Hs. cbn [produce]. rewrite Hr1, Ha. cbn. munfold.
    destruct (rd_kafka_poll_quiet (a_poll a)
                (emit sent_event (set_stats (incr_tx (stats w1)) w1)) Hp)
      as (w' & Hd & _ & Hf).
    rewrite Hd. exists w'. split; [reflexivity|].
    destruct Hf as (_ & _ & _ & _ & _ & _ & Hq & _). rewrite Hq. exact Hq1.
  - intros pre w Hr Hpre.
    destruct (produce_retry_prefix pre w Hr Hpre)
      as (w1 & Hr1 & Hl1 & He1 & Htx1 & Hq1 & Hs).
    exists w1. specialize (Hs []). rewrite app_nil_r in Hs. rewrite Hs.
    cbn [produce]. rewrite Hr1. auto.
  - intros o w Hr. apply produce_not_running, Hr.
  - intros pre a evs1 evs2 post w Hr Hpre Ha Hp H1 H2.
    destruct (produce_retry_prefix pre w Hr Hpre)
      as (w1 & Hr1 & Hl1 & He1 & Htx1 & Hq1 & Hs).
    rewrite Hs. cbn [produce]. rewrite Hr1, Ha, Hp. cbn. munfold.
    destruct (rd_kafka_poll_signal evs1 evs2
                (set_stats (incr_tx_err_q (stats w1)) w1) H1 H2)
      as (w' & Hd & Hr' & Hf).
    rewrite Hd. exists w'. rewrite produce_not_running by exact Hr'.
    split; [reflexivity|].
    destruct Hf as (_ & Hl & _). rewrite Hl. exact Hl1.
  - intros pre a err post w Hr Hpre Ha Hne.
    destruct (produce_retry_prefix pre w Hr Hpre)
      as (w1 & Hr1 & Hl1 & He1 & Htx1 & Hq1 & Hs).
    rewrite Hs. cbn [produce]. rewrite Hr1, Ha. cbn.
    apply Z.eqb_neq in Hne. rewrite Hne. cbn. exists w1. auto.
Qed.

End SendLoop.

(** The send loop at work: two queue-full answers, then an accepted
    attempt. *)
Lemma produce_send_loop_witness :
  exists w',
    produce (Some (bytes "x")) 1 None 0 RD_KAFKA_MSG_F_COPY
            [queue_full; queue_full; accepted] initial_world = Done tt w' /\
    tx_err_q (stats w') = 2.
Proof.
  destruct (produce_send_loop (Some (bytes "x")) 1 None 0 RD_KAFKA_MSG_F_COPY)
    as (_ & Hretry & _).
  destruct (Hretry [queue_full; queue_full] accepted [] initial_world)
    as (w' & Hd & Hq).
  - reflexivity.
  - repeat constructor.
  - reflexivity.
  - reflexivity.
  - exists w'. split; [exact Hd|]. rewrite Hq. reflexivity.
Defined.

(** ** Record framer *)

Section Framer.
Variable cs : bool.
Variables KEY_DELIM TEE NULL : Z.
Variable cfg : config.

Local Abbreviation frame := (frame_line cs KEY_DELIM TEE NULL cfg).
Local Abbreviation body := (loop_body cs KEY_DELIM TEE NULL cfg).
Local Abbreviation rlen := (record_len cs cfg).
Local Abbreviation split := (key_split cs KEY_DELIM cfg).
Local Abbreviation tee := (flag_set (flags cfg) TEE).

Lemma shave_delim_le buf0 n : (shave_delim cs cfg buf0 n <= n)%nat.
Proof. unfold shave_delim. destruct (_ =? _); lia. Qed.

(** The loop body reaches the send exactly when the shaved record is not
    empty. *)
Lemma frame_line_eq chunk :
  frame chunk (length chunk) =
  if (rlen chunk =? 0)%nat then None
  else Some (choose_ownership TEE cfg
               (extract_key KEY_DELIM NULL cfg chunk 0 0 (rlen chunk))).
Proof.
  unfold frame_line, record_len.
  pose proof (shave_delim_le chunk (length chunk)) as Hle.
  destruct (length chunk =? 0)%nat eqn:E; [|reflexivity].
  apply Nat.eqb_eq in E. rewrite E in *.
  replace (shave_delim cs cfg chunk 0) with O by lia. reflexivity.
Qed.

Lemma extract_key_msgflags chunk :
  v_msgflags (extract_key KEY_DELIM NULL cfg chunk 0 0 (rlen chunk))
  = if split chunk then RD_KAFKA_MSG_F_COPY else 0.
Proof.
  unfold extract_key, key_split.
  destruct (flag_set (flags cfg) KEY_DELIM); [|reflexivity].
  destruct (memchr chunk 0 (key_delim cfg) (rlen chunk)) as [t|]; cbn.
  - destruct (flag_set (flags cfg) NULL); reflexivity.
  - reflexivity.
Qed.

Lemma extract_key_no_split chunk :
  split chunk = false ->
  extract_key KEY_DELIM NULL cfg chunk 0 0 (rlen chunk)
  = mkVars 0 (Some O) (rlen chunk) None O.
Proof.
  unfold extract_key, key_split.
  destruct (flag_set (flags cfg) KEY_DELIM); [|reflexivity].
  destruct (memchr chunk 0 (key_delim cfg) (rlen chunk)) as [t|]; cbn;
    [discriminate|reflexivity].
Qed.

(** The flags the send gets, by cases. *)
Lemma frame_line_msgflags chunk v :
  frame chunk (length chunk) = Some v ->
  v_msgflags v =
    if negb (split chunk) && (1024 <? rlen chunk)%nat && negb tee
    then RD_KAFKA_MSG_F_FREE else RD_KAFKA_MSG_F_COPY.
Proof.
  rewrite frame_line_eq. destruct (rlen chunk =? 0)%nat; [discriminate|].
  intros [= <-]. unfold choose_ownership. cbn [v_msgflags].
  rewrite extract_key_msgflags.
  destruct (split chunk) eqn:Hs; cbn [negb andb].
  - reflexivity.
  - rewrite (extract_key_no_split chunk Hs). cbn [v_len].
    change (flag_set 0 RD_KAFKA_MSG_F_COPY) with false. cbn [negb andb].
    destruct ((1024 <? rlen chunk)%nat && negb tee); reflexivity.
Qed.

(** An iteration that ends in [continue] does nothing. *)
Lemma loop_body_skip r chunk lb w :
  frame chunk (length chunk) = None -> body r chunk lb w = Done lb w.
Proof. intros H. unfold loop_body. rewrite H. reflexivity. Qed.

(** An iteration that returns has sent its record once, echoed the chunk in
    tee mode, and given up the line buffer exactly on a transfer. *)
Lemma loop_body_done r chunk lb w lb' w' v :
  frame chunk (length chunk) = Some v ->
  body r chunk lb w = Done lb' w' ->
  log w' = log w ++
    EvProduce (slice chunk (v_buf v) (v_len v)) (v_len v)
              (slice chunk (v_key v) (v_key_len v)) (v_key_len v)
              (v_msgflags v)
    :: (if tee then [EvTee chunk] else []) /\
  lb' = (if flag_set (v_msgflags v) RD_KAFKA_MSG_F_FREE
         then mkLinebuf None 0 else lb) /\
  exitcode w' = exitcode w.
Proof.
  intros Hv H. unfold loop_body in H. rewrite Hv in H. unfold bind at 1 in H.
  destruct (produce _ _ _ _ _ _ w) as [[] w1|?|?|?] eqn:Hp; try discriminate.
  apply produce_done_inv in Hp
    as (pre & a & post & _ & _ & _ & Hl & He & _).
  unfold bind at 1 in H.
  destruct tee.
  - destruct (r_tee_fails r); munfold; [discriminate|].
    cbn in H. destruct (u64_eq_i64 _ _); cbn in H; injection H as <- <-;
      cbn; rewrite Hl, <- app_assoc; auto.
  - munfold. cbn in H.
    destruct (u64_eq_i64 _ _); cbn in H; injection H as <- <-;
      cbn; rewrite ?Hl; auto.
Qed.

(** An iteration on a plain read returns. *)
Lemma loop_body_returns chunk lb w :
  run w = true -> exists lb' w', body plain_read chunk lb w = Done lb' w'.
Proof.
  intros Hr. unfold loop_body.
  destruct (frame chunk (length chunk)) as [v|]; [|exists lb, w; reflexivity].
  unfold bind at 1. cbn [plain_read r_attempts r_tee_fails].
  rewrite produce_accepted by exact Hr.
  destruct tee; unfold bind, get, modify, ret;
    cbn [stats set_stats emit incr_tx tx];
    destruct (u64_eq_i64 _ _); eexists _, _; reflexivity.
Qed.

(** The ownership policy by the length the loop body has in [len] at the
    send.  For every iteration of the loop body that returns with that
    length not 0, the record is sent once: with tee mode off and a length of
    1024, on the copy path, the line buffer being kept; with tee mode off,
    no key split and a length of 1025 or more, on the ownership-transfer
    path, the line buffer being given up; with tee mode on or a key split,
    on the copy path. *)
Lemma ownership_by_len r chunk lb w :
  (run w = true ->
   exists lb' w', body plain_read chunk lb w = Done lb' w') /\
  (forall lb' w',
     body r chunk lb w = Done lb' w' ->
     (0 < rlen chunk)%nat ->
     exists buf len key key_len msgflags,
       log w' = log w ++ EvProduce buf len key key_len msgflags
                         :: (if tee then [EvTee chunk] else []) /\
       (tee = false -> rlen chunk = 1024%nat ->
          copy_path msgflags /\ lb' = lb) /\
       (tee = false -> split chunk = false -> (1025 <= rlen chunk)%nat ->
          transfer_path msgflags /\ lb' = mkLinebuf None 0 /\
          buf = Some (record_of cs cfg chunk) /\ len = rlen chunk) /\
       (tee = true -> copy_path msgflags /\ lb' = lb) /\
       (split chunk = true -> copy_path msgflags /\ lb' = lb)).
Proof.
  split; [apply loop_body_returns|].
  intros lb' w' Hb Hpos.
  destruct (frame chunk (length chunk)) as [v|] eqn:Hv.
  2:{ rewrite frame_line_eq in Hv.
      destruct (rlen chunk =? 0)%nat eqn:E; [|discriminate].
      apply Nat.eqb_eq in E. lia. }
  destruct (loop_body_done r chunk lb w lb' w' v Hv Hb) as (Hl & Hlb & _).
  pose proof (frame_line_msgflags chunk v Hv) as Hm.
  eexists _, _, _, _, _. split; [exact Hl|].
  rewrite Hlb, Hm. repeat apply conj.
  - intros Ht Hn. rewrite Hn, andb_false_r. cbn. repeat split.
  - intros Ht Hs Hn. rewrite Ht, Hs.
    assert ((1024 <? rlen chunk)%nat = true) as -> by (apply Nat.ltb_lt; lia).
    cbn. repeat split.
    + rewrite frame_line_eq in Hv.
      destruct (rlen chunk =? 0)%nat; [discriminate|]. injection Hv as <-.
      rewrite (extract_key_no_split chunk Hs). cbn. rewrite drop_0.
      reflexivity.
    + rewrite frame_line_eq in Hv.
      destruct (rlen chunk =? 0)%nat; [discriminate|]. injection Hv as <-.
      rewrite (extract_key_no_split chunk Hs). reflexivity.
  - intros Ht. rewrite Ht, andb_false_r. cbn. repeat split.
  - intros Hs. rewrite Hs. cbn. repeat split.
Qed.

(** *** Key extraction *)

Lemma find_byte_first c pre k post :
  byte_val k = c -> (forall b, b ∈ pre -> byte_val b <> c) ->
  find_byte c (pre ++ k :: post) = Some (length pre).
Proof.
  intros Hk. induction pre as [|b pre IH]; intros Hpre; cbn.
  - apply Z.eqb_eq in Hk. rewrite Hk. reflexivity.
  - assert ((byte_val b =? c) = false) as ->
        by (apply Z.eqb_neq, Hpre; left).
    rewrite IH; [reflexivity|]. intros b' Hb'. apply Hpre. right; exact Hb'.
Qed.


Lemma find_byte_some c l i :
  find_byte c l = Some i ->
  exists pre k post, l = pre ++ k :: post /\ length pre = i /\
                     byte_val k = c /\ (forall b, b ∈ pre -> byte_val b <> c).
Proof.
  revert i; induction l as [|b l IH]; intros i H; cbn in H; [discriminate|].
  destruct (byte_val b =? c) eqn:E.
  - injection H as <-. apply Z.eqb_eq in E.
    exists [], b, l. repeat split; auto. intros b' Hb'. inversion Hb'.
  - destruct (find_byte c l) as [j|] eqn:Hj; [|discriminate].
    injection H as <-.
    destruct (IH j eq_refl) as (pre & k & post & -> & Hlen & Hk & Hpre).
    exists (b :: pre), k, post. repeat split; cbn; auto.
    intros b' Hb'. apply Z.eqb_neq in E.
    inversion Hb'; subst; auto.
Qed.

Lemma record_len_le chunk : (rlen chunk <= length chunk)%nat.
Proof. apply shave_delim_le. Qed.

Lemma record_of_length chunk : length (record_of cs cfg chunk) = rlen chunk.
Proof.
  unfold record_of. rewrite length_take. pose proof (record_len_le chunk). lia.
Qed.

Lemma record_shaved chunk :
  record_of cs cfg chunk ++ shaved_of cs cfg chunk = chunk.
Proof. apply take_drop. Qed.

Lemma memchr_record chunk :
  memchr chunk 0 (key_delim cfg) (rlen chunk)
  = find_byte (key_delim cfg mod 256) (record_of cs cfg chunk).
Proof.
  unfold memchr, record_of. rewrite drop_0.
  destruct (find_byte _ _); reflexivity.
Qed.

(** The locals at the send when the key delimiter is found. *)
Lemma frame_line_split chunk pre k post :
  flag_set (flags cfg) KEY_DELIM = true ->
  record_of cs cfg chunk = pre ++ k :: post ->
  byte_val k = key_delim cfg mod 256 ->
  (forall b, b ∈ pre -> byte_val b <> key_delim cfg mod 256) ->
  exists v, frame chunk (length chunk) = Some v /\
    v_key_len v = length pre /\ v_len v = length post /\
    slice chunk (v_key v) (v_key_len v) = nullable NULL cfg pre /\
    slice chunk (v_buf v) (v_len v) = nullable NULL cfg post.
Proof.
  intros Hflag Hrec Hk Hpre.
  pose proof (record_of_length chunk) as Hlen.
  pose proof (record_shaved chunk) as Hchunk.
  rewrite Hrec in Hlen, Hchunk. rewrite length_app in Hlen. cbn in Hlen.
  rewrite frame_line_eq.
  destruct (rlen chunk =? 0)%nat eqn:E; [apply Nat.eqb_eq in E; lia|].
  eexists; split; [reflexivity|].
  unfold extract_key. rewrite Hflag, memchr_record, Hrec.
  rewrite (find_byte_first _ pre k post Hk Hpre).
  assert (Hkey : take (length pre) (drop 0 chunk) = pre).
  { rewrite drop_0, <- Hchunk, <- app_assoc. apply take_app_length. }
  assert (Hval : take (length post) (drop (0 + (length pre + 1)) chunk) = post).
  { rewrite <- Hchunk.
    replace (pre ++ k :: post) with ((pre ++ [k]) ++ post)
      by (rewrite <- app_assoc; reflexivity).
    rewrite <- app_assoc.
    replace (0 + (length pre + 1))%nat with (length (pre ++ [k]))
      by (rewrite length_app; cbn; lia).
    rewrite drop_app_length. apply take_app_length. }
  change (0 + (length pre + 1))%nat with (length pre + 1)%nat in Hval.
  unfold nullable.
  replace (rlen chunk - (length pre + 1))%nat with (length post) by lia.
  destruct (flag_set (flags cfg) NULL); cbn;
    destruct (length post =? 0)%nat eqn:Ep; destruct (length pre =? 0)%nat eqn:Ek;
    cbn; rewrite ?Hkey, ?Hval; repeat split.
Qed.

(** The locals at the send when no key split is applied. *)
Lemma frame_line_no_split chunk :
  split chunk = false -> (0 < rlen chunk)%nat ->
  exists v, frame chunk (length chunk) = Some v /\
    v_key v = None /\ v_key_len v = O /\ v_len v = rlen chunk /\
    slice chunk (v_buf v) (v_len v) = Some (record_of cs cfg chunk).
Proof.
  intros Hs Hpos. rewrite frame_line_eq.
  destruct (rlen chunk =? 0)%nat eqn:E; [apply Nat.eqb_eq in E; lia|].
  eexists; split; [reflexivity|].
  rewrite (extract_key_no_split chunk Hs). cbn. rewrite drop_0. auto.
Qed.


Lemma key_split_true chunk :
  split chunk = true ->
  flag_set (flags cfg) KEY_DELIM = true /\
  exists pre k post,
    record_of cs cfg chunk = pre ++ k :: post /\
    byte_val k = key_delim cfg mod 256 /\
    (forall b, b ∈ pre -> byte_val b <> key_delim cfg mod 256).
Proof.
  unfold key_split. rewrite memchr_record. intros H.
  apply andb_prop in H as [Hflag H]. split; [exact Hflag|].
  apply bool_decide_eq_true in H as [i Hi].
  destruct (find_byte_some _ _ _ Hi) as (pre & k & post & ? & ? & ? & ?).
  eauto 10.
Qed.

Lemma loop_body_sends r chunk lb w lb' w' v :
  frame chunk (length chunk) = Some v ->
  body r chunk lb w = Done lb' w' ->
  forall value key,
    slice chunk (v_buf v) (v_len v) = value -> v_len v = payload_len value ->
    slice chunk (v_key v) (v_key_len v) = key -> v_key_len v = payload_len key ->
    sends w w' value key.
Proof.
  intros Hv Hb value key Hval Hvl Hkey Hkl.
  destruct (loop_body_done r chunk lb w lb' w' v Hv Hb) as (Hl & _).
  rewrite Hval, Hkey, Hvl, Hkl in Hl. unfold sends. eauto.
Qed.

Lemma nullable_len half : payload_len (nullable NULL cfg half) = length half.
Proof.
  unfold nullable.
  destruct (flag_set (flags cfg) NULL); cbn; [|reflexivity].
  destruct (length half =? 0)%nat eqn:E; cbn; [|reflexivity].
  apply Nat.eqb_eq in E. congruence.
Qed.


Lemma find_byte_none_inv c l :
  find_byte c l = None -> forall b, b ∈ l -> byte_val b <> c.
Proof.
  induction l as [|x l IH]; intros H b Hb; [inversion Hb|].
  cbn [find_byte] in H. destruct (byte_val x =? c) eqn:E; [discriminate|].
  destruct (find_byte c l) eqn:Hf; [discriminate|].
  apply Z.eqb_neq in E. inversion Hb; subst; auto.
Qed.

(** A key split is applied exactly when the key delimiter is configured and
    the record holds it. *)
Lemma key_split_iff chunk :
  split chunk = true <-> holds_key KEY_DELIM cfg (record_of cs cfg chunk).
Proof.
  split.
  - intros H.
    destruct (key_split_true chunk H) as (Hf & pre & k & post & Hrec & Hk & _).
    split; [exact Hf|]. exists k. split; [|exact Hk].
    rewrite Hrec. set_solver.
  - intros [Hf (b & Hb & Hv)]. unfold key_split.
    rewrite Hf, memchr_record. cbn [andb]. apply bool_decide_eq_true.
    destruct (find_byte _ _) eqn:E; [eauto|].
    exfalso. exact (find_byte_none_inv _ _ E b Hb Hv).
Qed.

Lemma key_split_not chunk :
  ~ holds_key KEY_DELIM cfg (record_of cs cfg chunk) -> split chunk = false.
Proof.
  intros H. destruct (split chunk) eqn:E; [|reflexivity].
  exfalso. apply H, key_split_iff, E.
Qed.

(** *** Framing of the input stream *)

Lemma read_until_app d fp chunk rest :
  read_until d fp = (chunk, rest) -> chunk ++ rest = fp.
Proof.
  revert chunk rest; induction fp as [|b fp IH]; intros chunk rest H; cbn in H.
  - injection H as <- <-. reflexivity.
  - destruct (byte_val b =? d mod 256).
    + injection H as <- <-. reflexivity.
    + destruct (read_until d fp) as [c r]. injection H as <- <-.
      cbn. f_equal. apply IH. reflexivity.
Qed.

Lemma chunks_read_app evs1 evs2 :
  chunks_read (evs1 ++ evs2) = chunks_read evs1 ++ chunks_read evs2.
Proof.
  induction evs1 as [|e evs1 IH]; [reflexivity|].
  destruct e; cbn; rewrite IH; reflexivity.
Qed.

Lemma payloads_sent_app evs1 evs2 :
  payloads_sent (evs1 ++ evs2) = payloads_sent evs1 ++ payloads_sent evs2.
Proof.
  induction evs1 as [|e evs1 IH]; [reflexivity|].
  destruct e; cbn; rewrite IH; reflexivity.
Qed.

(** What is shaved off a chunk is nothing or the delimiter byte. *)
Lemma shaved_of_delim chunk :
  0 <= delim cfg < 256 ->
  shaved_of cs cfg chunk = [] \/
  exists d, shaved_of cs cfg chunk = [d] /\ byte_val d = delim cfg.
Proof.
  intros Hd. unfold shaved_of, record_len, shave_delim.
  destruct (_ =? _) eqn:E; [|left; apply drop_all].
  destruct chunk as [|b chunk _] using rev_ind; [left; reflexivity|].
  right. exists b. rewrite length_app in *. cbn [length] in *.
  replace (length chunk + 1 - 1)%nat with (length chunk) in * by lia.
  rewrite drop_app_length. split; [reflexivity|].
  rewrite nth_middle in E. apply Z.eqb_eq in E.
  unfold char_to_int in E.
  pose proof (byte_val_range b).
  destruct (cs && (128 <=? byte_val b)); lia.
Qed.

(** The shape of a chunk returned by [getdelim]: bytes other than the
    delimiter, then the delimiter or nothing. *)
Lemma read_until_shape d fp chunk rest :
  read_until d fp = (chunk, rest) -> delimited d chunk.
Proof.
  unfold delimited.
  revert chunk rest; induction fp as [|b fp IH]; intros chunk rest H; cbn in H.
  - injection H as <- <-. exists [], []. repeat split; auto.
    intros x Hx. inversion Hx.
  - destruct (byte_val b =? d mod 256) eqn:E.
    + injection H as <- <-. apply Z.eqb_eq in E.
      exists [], [b]. repeat split; eauto. intros x Hx. inversion Hx.
    + destruct (read_until d fp) as [c r]. injection H as <- <-.
      destruct (IH c r eq_refl) as (body & tail & -> & Hbody & Htail).
      exists (b :: body), tail. repeat split; auto.
      intros x Hx. apply Z.eqb_neq in E. inversion Hx; subst; auto.
Qed.

Lemma read_until_shorter d b fp chunk rest :
  read_until d (b :: fp) = (chunk, rest) -> (length rest <= length fp)%nat.
Proof.
  intros H. pose proof (read_until_app _ _ _ _ H) as Happ.
  apply (f_equal length) in Happ. rewrite length_app in Happ.
  cbn [read_until] in H.
  destruct (byte_val b =? d mod 256).
  - injection H as <- <-. lia.
  - destruct (read_until d fp) as [c r]. injection H as <- <-.
    cbn [length] in Happ. lia.
Qed.

(** The comparison of the shave step is exact when [char] is unsigned or
    the delimiter is a 7-bit value. *)
Lemma shave_comparison_exact x :
  cs = false \/ delim cfg < 128 -> 0 <= delim cfg < 256 ->
  (char_to_int cs (byte_val x) =? delim cfg) = (byte_val x =? delim cfg).
Proof.
  intros Hcs Hd. pose proof (byte_val_range x). unfold char_to_int.
  destruct cs; cbn [andb]; [|reflexivity].
  destruct (128 <=? byte_val x) eqn:E; [|reflexivity].
  apply Z.leb_le in E. destruct Hcs as [Hcs|Hlt]; [discriminate|].
  assert ((byte_val x - 256 =? delim cfg) = false) as ->
    by (apply Z.eqb_neq; lia).
  symmetry. apply Z.eqb_neq. lia.
Qed.

(** Then the record of a chunk holds no delimiter byte: the delimiter is
    what ends it, and it is shaved off. *)
Lemma record_of_no_delim chunk :
  cs = false \/ delim cfg < 128 -> 0 <= delim cfg < 256 ->
  delimited (delim cfg) chunk ->
  forall b, b ∈ record_of cs cfg chunk -> byte_val b <> delim cfg.
Proof.
  intros Hcs Hd (body & tail & -> & Hbody & Htail) b Hb.
  rewrite Z.mod_small in Hbody, Htail by lia.
  assert (Hin : b ∈ body); [|apply Hbody, Hin].
  destruct Htail as [->|(x & -> & Hx)].
  - rewrite app_nil_r in Hb. apply (subseteq_take _ _ _ Hb).
  - revert Hb. unfold record_of, record_len, shave_delim.
    rewrite length_app. cbn [length].
    replace (length body + 1 - 1)%nat with (length body) by lia.
    rewrite nth_middle, shave_comparison_exact by assumption.
    rewrite (proj2 (Z.eqb_eq _ _) Hx), take_app_length. auto.
Qed.

(** One run of the read loop that returns: the chunks read are the input in
    order up to what is left unread, and the payloads sent are the
    non-empty records of the chunks. *)
Lemma stream_loop_done reads fp lb w rest lb' w' :
  flag_set (flags cfg) KEY_DELIM = false ->
  stream_loop cs KEY_DELIM TEE NULL cfg reads fp lb w = Done (rest, lb') w' ->
  exists evs,
    log w' = log w ++ evs /\
    concat (chunks_read evs) ++ rest = fp /\
    payloads_sent evs
      = map Some (filter (fun rec => rec <> [])
                         (map (record_of cs cfg) (chunks_read evs))) /\
    (run w' = true -> rest = []) /\
    Forall (delimited (delim cfg)) (chunks_read evs).
Proof.
  intros Hflag. revert fp lb w.
  induction reads as [|r reads IH]; intros fp lb w H; cbn [stream_loop] in H;
    destruct (run w) eqn:Hr; cbn [negb] in H.
  1,3: (destruct fp as [|b fp]; cbn [getdelim] in H;
        [injection H as <- <- <-; exists []; rewrite app_nil_r;
         repeat split; auto|]).
  3,4: (injection H as <- <- <-; exists []; rewrite app_nil_r;
        repeat split; auto; congruence).
  - destruct (read_until _ _); discriminate.
  - destruct (read_until (delim cfg) (b :: fp)) as [chunk fp'] eqn:Hread.
    pose proof (read_until_shape _ _ _ _ Hread) as Hshape.
    apply read_until_app in Hread.
    unfold bind at 1 in H. unfold modify at 1 in H.
    set (w0 := emit _ w) in H.
    unfold bind at 1 in H.
    assert (Hsig : exists w1, (if r_signal r then term else ret tt) w0
                              = Done tt w1 /\ log w1 = log w0).
    { destruct (r_signal r); eexists; split; reflexivity. }
    destruct Hsig as (w1 & Hsig & Hl1). rewrite Hsig in H.
    unfold bind at 1 in H.
    destruct (loop_body _ _ _ _ _ r chunk _ w1) as [lb1 w2|?|?|?] eqn:Hb;
      try discriminate.
    destruct (IH _ _ _ H) as (evs & Hl & Hcat & Hsent & Hrest & Hall).
    destruct (frame chunk (length chunk)) as [v|] eqn:Hv.
    + destruct (loop_body_done r chunk _ w1 lb1 w2 v Hv Hb) as (Hl2 & _).
      assert (Hs : split chunk = false)
        by (unfold key_split; rewrite Hflag; reflexivity).
      assert (Hpos : (0 < rlen chunk)%nat).
      { rewrite frame_line_eq in Hv.
        destruct (rlen chunk =? 0)%nat eqn:E; [discriminate|].
        apply Nat.eqb_neq in E. lia. }
      destruct (frame_line_no_split chunk Hs Hpos)
        as (v' & Hv' & _ & _ & _ & Hval).
      rewrite Hv in Hv'. injection Hv' as <-.
      assert (Hne : record_of cs cfg chunk <> []).
      { intros E. pose proof (record_of_length chunk) as Hlen.
        rewrite E in Hlen. cbn in Hlen. lia. }
      exists (EvRead (bool_decide (sbuf lb = None)) chunk
              :: EvProduce (slice chunk (v_buf v) (v_len v)) (v_len v)
                           (slice chunk (v_key v) (v_key_len v)) (v_key_len v)
                           (v_msgflags v)
              :: (if tee then [EvTee chunk] else []) ++ evs).
      split; [|split; [|split; [|split]]].
      * rewrite Hl, Hl2, Hl1. subst w0. cbn [log emit].
        rewrite <- !app_assoc. cbn [app]. reflexivity.
      * cbn [chunks_read]. rewrite chunks_read_app.
        destruct tee; cbn [chunks_read app concat];
          rewrite <- app_assoc, Hcat; exact Hread.
      * cbn [chunks_read payloads_sent]. rewrite chunks_read_app, payloads_sent_app.
        rewrite Hval.
        destruct tee; cbn [chunks_read payloads_sent app map];
          rewrite filter_cons_True by exact Hne; cbn [map];
          rewrite Hsent; reflexivity.
      * exact Hrest.
      * cbn [chunks_read]. rewrite chunks_read_app.
        destruct tee; cbn [chunks_read app]; constructor; assumption.
    + rewrite (loop_body_skip r chunk _ w1 Hv) in Hb. injection Hb as <- <-.
      assert (E : record_of cs cfg chunk = []).
      { rewrite frame_line_eq in Hv.
        destruct (rlen chunk =? 0)%nat eqn:E; [|discriminate].
        apply Nat.eqb_eq in E. unfold record_of. rewrite E. apply take_0. }
      exists (EvRead (bool_decide (sbuf lb = None)) chunk :: evs).
      split; [|split; [|split; [|split]]].
      * rewrite Hl, Hl1. subst w0. cbn [log emit].
        rewrite <- app_assoc. reflexivity.
      * cbn [chunks_read concat]. rewrite <- app_assoc, Hcat. exact Hread.
      * cbn [chunks_read payloads_sent map]. rewrite E.
        rewrite filter_cons_False by (intros Hx; apply Hx; reflexivity).
        exact Hsent.
      * exact Hrest.
      * cbn [chunks_read]. constructor; assumption.
Qed.

(** An iteration on a plain read returns and leaves the run flag set as long
    as no message-count limit is configured. *)
Lemma loop_body_plain chunk lb w :
  msg_cnt cfg = 0 -> run w = true ->
  0 <= tx (stats w) -> tx (stats w) + 1 < UINT64_MOD ->
  exists lb' w', body plain_read chunk lb w = Done lb' w' /\ run w' = true /\
                 tx (stats w) <= tx (stats w') <= tx (stats w) + 1.
Proof.
  intros Hc Hr H0 H1. unfold loop_body.
  destruct (frame chunk (length chunk)) as [v|].
  2:{ exists lb, w. split; [reflexivity|split; [exact Hr|lia]]. }
  unfold bind at 1. cbn [plain_read r_attempts r_tee_fails].
  rewrite produce_accepted by exact Hr.
  destruct tee; unfold bind, get, modify, ret;
    cbn [stats set_stats emit incr_tx tx];
    rewrite Hc, u64_incr_no_limit by lia;
    eexists _, _; (split; [reflexivity|]); cbn;
    rewrite u64_incr_small by lia; (split; [exact Hr|lia]).
Qed.

(** Every input is read to its end when nothing interferes: each read is
    plain and there are as many of them as the input has bytes. *)
Lemma stream_loop_returns fp : forall n lb w,
  msg_cnt cfg = 0 -> (length fp <= n)%nat -> run w = true ->
  0 <= tx (stats w) -> tx (stats w) + Z.of_nat (length fp) < UINT64_MOD ->
  exists lb' w',
    stream_loop cs KEY_DELIM TEE NULL cfg (repeat plain_read n) fp lb w
    = Done ([], lb') w' /\ run w' = true.
Proof.
  intros n. revert fp.
  induction n as [|n IH]; intros fp lb w Hc Hlen Hr H0 H1.
  - destruct fp; [|cbn in Hlen; lia].
    exists lb, w. cbn [repeat stream_loop]. rewrite Hr. auto.
  - destruct fp as [|b fp].
    + exists lb, w. cbn [repeat stream_loop]. rewrite Hr. auto.
    + cbn [repeat stream_loop]. rewrite Hr. cbn [negb getdelim].
      destruct (read_until (delim cfg) (b :: fp)) as [chunk fp'] eqn:Hread.
      apply read_until_shorter in Hread. cbn [length] in Hlen, H1.
      unfold bind at 1. unfold modify at 1. unfold bind at 1.
      cbn [plain_read r_signal]. unfold ret at 1. unfold bind at 1.
      match goal with |- context [loop_body _ _ _ _ _ _ chunk ?lb1 ?w1] =>
        destruct (loop_body_plain chunk lb1 w1 Hc Hr H0 ltac:(cbn; lia))
          as (lb2 & w2 & Hb & Hr2 & Htx) end.
      fold plain_read. rewrite Hb.
      cbn [stats emit] in Htx.
      apply IH; auto; lia.
Qed.

(** Where the comparison of the shave step finds the delimiter, the record
    the loop body frames is the chunk with its trailing delimiter
    stripped. *)
Lemma record_of_strip chunk :
  shave_exact cs cfg -> 0 <= delim cfg < 256 ->
  record_of cs cfg chunk = strip_delim (delim cfg) chunk.
Proof.
  intros Hcs Hd. unfold record_of, record_len, shave_delim, strip_delim.
  destruct chunk as [|b chunk _] using rev_ind.
  - cbn [last]. apply take_nil.
  - rewrite last_snoc, length_app. cbn [length].
    replace (length chunk + 1 - 1)%nat with (length chunk) by lia.
    rewrite nth_middle, shave_comparison_exact by assumption.
    destruct (byte_val b =? delim cfg); [reflexivity|].
    apply take_ge. rewrite length_app. cbn [length]. lia.
Qed.

(** X16: the null flag, by the bytes of the record.  An iteration of the
    loop body on a plain read returns, and for every iteration on a chunk
    whose framed record is [rec]:
    - when [rec] is empty nothing is sent, whatever the flags;
    - when the key delimiter is not configured or [rec] does not hold it,
      the message sent has no key and the whole of [rec] as its value,
      whether the null flag is set or not;
    - when the key delimiter is configured and [rec] is [pre ++ k :: post]
      with [k] its first key delimiter, the key sent is [pre] and the value
      sent is [post], each of them a NULL pointer exactly when it is empty
      and the null flag is set;
    and where the shave step finds the delimiter, [rec] is the chunk
    with its trailing delimiter stripped. *)
Theorem null_encoding_bytes r chunk lb w :
  0 <= key_delim cfg < 256 ->
  let rec := record_of cs cfg chunk in
  let null := flag_set (flags cfg) NULL in
  (run w = true ->
   exists lb' w', body plain_read chunk lb w = Done lb' w') /\
  (rec = [] -> body r chunk lb w = Done lb w) /\
  (forall lb' w',
     body r chunk lb w = Done lb' w' ->
     (rec <> [] -> ~ holds_key KEY_DELIM cfg rec ->
      sends w w' (Some rec) None) /\
     (forall pre k post,
        flag_set (flags cfg) KEY_DELIM = true ->
        rec = pre ++ k :: post ->
        byte_val k = key_delim cfg ->
        (forall b, b ∈ pre -> byte_val b <> key_delim cfg) ->
        exists value key,
          sends w w' value key /\
          value = (if null && bool_decide (post = []) then None
                   else Some post) /\
          key = (if null && bool_decide (pre = []) then None
                 else Some pre))) /\
  (shave_exact cs cfg -> 0 <= delim cfg < 256 ->
   rec = strip_delim (delim cfg) chunk).
Proof.
  intros Hrange rec null. subst rec null.
  assert (Hmod : key_delim cfg mod 256 = key_delim cfg)
    by (apply Z.mod_small; lia).
  assert (Hnull : forall half,
            nullable NULL cfg half
            = if flag_set (flags cfg) NULL && bool_decide (half = [])
              then None else Some half).
  { intros half. unfold nullable.
    destruct (flag_set (flags cfg) NULL); [|reflexivity].
    destruct half; reflexivity. }
  split; [apply loop_body_returns|]. split; [|split].
  - intros E. apply loop_body_skip. rewrite frame_line_eq.
    rewrite <- record_of_length, E. reflexivity.
  - intros lb' w' Hb. split.
    + intros Hne Hno.
      assert (Hpos : (0 < rlen chunk)%nat).
      { rewrite <- record_of_length.
        destruct (record_of cs cfg chunk); [congruence|cbn; lia]. }
      destruct (frame_line_no_split chunk (key_split_not chunk Hno) Hpos)
        as (v & Hv & Hkey & Hkl & Hvl & Hval).
      eapply loop_body_sends; eauto.
      * cbn. rewrite record_of_length. exact Hvl.
      * rewrite Hkey. reflexivity.
    + intros pre k post Hflag Hrec Hk Hpre. rewrite <- Hmod in Hk, Hpre.
      destruct (frame_line_split chunk pre k post Hflag Hrec Hk Hpre)
        as (v & Hv & Hkl & Hvl & Hkey & Hval).
      exists (nullable NULL cfg post), (nullable NULL cfg pre).
      split; [|split; apply Hnull].
      eapply loop_body_sends; eauto; rewrite nullable_len; assumption.
  - apply record_of_strip.
Qed.

(** A chunk as [getdelim] cuts it is its stripped record followed by the
    delimiter or by nothing. *)
Lemma delimited_ends_record d chunk :
  0 <= d < 256 -> delimited d chunk ->
  ends_record d chunk (strip_delim d chunk).
Proof.
  intros Hd (body & tail & -> & Hbody & Htail).
  rewrite Z.mod_small in Hbody, Htail by lia.
  destruct Htail as [->|(b & -> & Hb)].
  - rewrite app_nil_r.
    assert (E : strip_delim d body = body).
    { unfold strip_delim. destruct (last body) as [x|] eqn:E; [|reflexivity].
      apply last_Some_elem_of, Hbody, Z.eqb_neq in E. rewrite E.
      reflexivity. }
    rewrite E. split; [exact Hbody|left; reflexivity].
  - assert (E : strip_delim d (body ++ [b]) = body).
    { unfold strip_delim. rewrite last_snoc, (proj2 (Z.eqb_eq _ _) Hb).
      rewrite length_app. cbn [length].
      replace (length body + 1 - 1)%nat with (length body) by lia.
      apply take_app_length. }
    rewrite E. split; [exact Hbody|right; eauto].
Qed.

(** X15: framing of the input stream without a key delimiter, where the
    shave step finds the delimiter ([char] unsigned, or a 7-bit
    delimiter).
    (1) For every run of the read loop that returns there are records, one
        for each chunk read, such that: no record holds a delimiter byte;
        each chunk is its record followed by the delimiter byte, or by
        nothing; the chunks in order, followed by the input left unread,
        are the input byte for byte (so the records, each followed by its
        delimiter, give back what was read); nothing is left unread when
        the loop stopped at the end of the input; and the payloads sent are
        these records in order, the empty ones left out.
    (2) Every input is framed to its end when nothing interferes (plain
        reads, no message-count limit). *)
Theorem framing_roundtrip_stripped :
  flag_set (flags cfg) KEY_DELIM = false ->
  0 <= delim cfg < 256 ->
  shave_exact cs cfg ->
  (forall reads fp lb w rest lb' w',
     stream_loop cs KEY_DELIM TEE NULL cfg reads fp lb w = Done (rest, lb') w' ->
     exists evs records,
       log w' = log w ++ evs /\
       Forall2 (ends_record (delim cfg)) (chunks_read evs) records /\
       concat (chunks_read evs) ++ rest = fp /\
       (run w' = true -> rest = []) /\
       payloads_sent evs
         = map Some (filter (fun rec => rec <> []) records)) /\
  (forall fp lb w,
     msg_cnt cfg = 0 -> run w = true -> 0 <= tx (stats w) ->
     tx (stats w) + Z.of_nat (length fp) < UINT64_MOD ->
     exists lb' w',
       stream_loop cs KEY_DELIM TEE NULL cfg (repeat plain_read (length fp))
                   fp lb w = Done ([], lb') w' /\ run w' = true).
Proof.
  intros Hflag Hd Hcs. split.
  - intros reads fp lb w rest lb' w' H.
    destruct (stream_loop_done reads fp lb w rest lb' w' Hflag H)
      as (evs & Hl & Hcat & Hsent & Hrest & Hshape).
    exists evs, (map (strip_delim (delim cfg)) (chunks_read evs)).
    split; [exact Hl|]. split; [|split; [exact Hcat|split; [exact Hrest|]]].
    + clear -Hshape Hd. induction Hshape as [|chunk l Hc _ IH]; cbn [map].
      * constructor.
      * constructor; [apply delimited_ends_record; assumption|exact IH].
    + rewrite Hsent. do 2 f_equal. apply map_ext. intros chunk.
      apply record_of_strip; assumption.
  - intros fp lb w Hc Hr H0 H1. apply stream_loop_returns; auto.
Qed.

(** X14: the ownership policy, where the shave step finds the delimiter
    ([char] unsigned, or a 7-bit delimiter).  Let [rec] be the chunk with
    its trailing delimiter stripped.  An iteration of the loop body on a
    plain read returns.  For every iteration of the loop body that returns,
    on a chunk whose [rec] is not empty, a message is sent once, and:
    - with tee mode off and [rec] of exactly 1024 bytes, on the copy path,
      the line buffer being kept;
    - with tee mode off, [rec] of 1025 bytes or more and no key split (the
      key delimiter is not configured, or [rec] does not hold it), on the
      ownership-transfer path: the whole of [rec] is handed over and the
      line buffer is given up ([sbuf = NULL], [size = 0]);
    - with tee mode on, on the copy path;
    - with a key split (the key delimiter is configured and [rec] holds
      it), on the copy path. *)
Theorem ownership_policy_stripped r chunk lb w :
  shave_exact cs cfg -> 0 <= delim cfg < 256 ->
  let rec := strip_delim (delim cfg) chunk in
  (run w = true ->
   exists lb' w', body plain_read chunk lb w = Done lb' w') /\
  (forall lb' w',
     body r chunk lb w = Done lb' w' ->
     rec <> [] ->
     exists buf len key key_len msgflags,
       log w' = log w ++ EvProduce buf len key key_len msgflags
                         :: (if tee then [EvTee chunk] else []) /\
       (tee = false -> length rec = 1024%nat ->
          copy_path msgflags /\ lb' = lb) /\
       (tee = false -> ~ holds_key KEY_DELIM cfg rec ->
        (1025 <= length rec)%nat ->
          transfer_path msgflags /\ lb' = mkLinebuf None 0 /\
          buf = Some rec /\ len = length rec) /\
       (tee = true -> copy_path msgflags /\ lb' = lb) /\
       (holds_key KEY_DELIM cfg rec -> copy_path msgflags /\ lb' = lb)).
Proof.
  intros Hcs Hd rec. subst rec.
  rewrite <- (record_of_strip chunk Hcs Hd).
  destruct (ownership_by_len r chunk lb w) as [Hret Hpol].
  split; [exact Hret|]. intros lb' w' Hb Hne.
  assert (Hpos : (0 < rlen chunk)%nat).
  { rewrite <- record_of_length.
    destruct (record_of cs cfg chunk); [congruence|cbn; lia]. }
  destruct (Hpol lb' w' Hb Hpos)
    as (buf & len & key & key_len & msgflags & Hl & H1 & H2 & H3 & H4).
  exists buf, len, key, key_len, msgflags. rewrite record_of_length.
  split; [exact Hl|]. split; [exact H1|]. split; [|split; [exact H3|]].
  - intros Ht Hno Hlen. apply H2; [exact Ht|apply key_split_not, Hno|exact Hlen].
  - intros Hk. apply H4, key_split_iff, Hk.
Qed.

End Framer.

(** The ownership policy at work: a record of 1025 bytes, tee mode off, no
    key delimiter. *)
Lemma ownership_policy_stripped_witness :
  let chunk := repeat "a"%byte 1025 ++ [x0a] in
  let lb := mkLinebuf (Some chunk) 1027 in
  let w' := final_world (loop_body true 2 8 16 lines_cfg plain_read chunk lb
                                   initial_world) in
  exists buf len key key_len msgflags,
    log w' = [EvProduce buf len key key_len msgflags] /\
    transfer_path msgflags /\ buf = Some (repeat "a"%byte 1025) /\
    len = 1025%nat.
Proof.
  intros chunk lb w'.
  destruct (ownership_policy_stripped true 2 8 16 lines_cfg plain_read chunk
              lb initial_world) as [_ Hpolicy].
  - right. cbn. lia.
  - cbn. lia.
  - destruct (Hpolicy (mkLinebuf None 0) w')
      as (buf & len & key & key_len & msgflags & Hl & _ & Ht & _).
    + vm_compute. reflexivity.
    + vm_compute. discriminate.
    + destruct Ht as (Ht & _ & Hbuf & Hlen).
      * reflexivity.
      * intros [Hf _]. vm_compute in Hf. discriminate Hf.
      * apply Nat.leb_le. vm_compute. reflexivity.
      * exists buf, len, key, key_len, msgflags.
        split; [exact Hl|]. split; [exact Ht|].
        rewrite Hbuf, Hlen. split; vm_compute; reflexivity.
Defined.

(** The framing at work: three records and an empty one, the last record
    without a delimiter. *)
Lemma framing_roundtrip_stripped_witness :
  let fp := bytes "ab" ++ [x0a; x0a] ++ bytes "cd" ++ [x0a] ++ bytes "ef" in
  let w' := final_world (stream_loop true 2 8 16 lines_cfg
                           (repeat plain_read 4) fp (mkLinebuf None 0)
                           initial_world) in
  exists records,
    Forall2 (ends_record 10) (chunks_read (log w')) records /\
    concat (chunks_read (log w')) = fp /\
    payloads_sent (log w')
    = map Some (filter (fun rec => rec <> []) records) /\
    payloads_sent (log w')
    = [Some (bytes "ab"); Some (bytes "cd"); Some (bytes "ef")].
Proof.
  intros fp w'.
  destruct (framing_roundtrip_stripped true 2 8 16 lines_cfg) as [Hdone _].
  - reflexivity.
  - cbn. lia.
  - right. cbn. lia.
  - destruct (Hdone (repeat plain_read 4) fp (mkLinebuf None 0) initial_world
                [] (mkLinebuf (Some (bytes "ef")) 4) w')
      as (evs & records & Hl & Hrec & Hcat & _ & Hsent).
    + vm_compute. reflexivity.
    + change (log initial_world ++ evs) with evs in Hl. rewrite Hl.
      rewrite app_nil_r in Hcat.
      exists records. split; [exact Hrec|]. split; [exact Hcat|].
      split; [exact Hsent|]. rewrite <- Hl. vm_compute. reflexivity.
Defined.


(** The null flag at work on the line [:value], with the key delimiter
    (the bit 2 of the flags) and the null flag (the bit 16) set: the empty
    key is sent as a NULL pointer. *)
Lemma null_encoding_bytes_witness :
  let cfg := mkConfig 18 10 58 (-1) false 0 in
  let chunk := bytes ":value" ++ [x0a] in
  let lb := mkLinebuf (Some chunk) 8 in
  let w' := final_world (loop_body true 2 8 16 cfg plain_read chunk lb
                                   initial_world) in
  sends initial_world w' (Some (bytes "value")) None.
Proof.
  intros cfg chunk lb w'.
  destruct (null_encoding_bytes true 2 8 16 cfg plain_read chunk lb
              initial_world) as (_ & _ & Hsent & _).
  - cbn. lia.
  - destruct (Hsent lb w') as [_ Hsplit].
    + vm_compute. reflexivity.
    + destruct (Hsplit [] ":"%byte (bytes "value"))
        as (value & key & Hs & -> & ->).
      * reflexivity.
      * vm_compute. reflexivity.
      * reflexivity.
      * intros b Hb. inversion Hb.
      * exact Hs.
Defined.

(** The threshold of the ownership policy, and tee mode (here the bit 8 of
    the flags). *)
Example copy_at_1024 :
  v_msgflags <$> frame_line true 2 8 16 lines_cfg
                   (repeat "a"%byte 1024 ++ [x0a]) 1025
  = Some RD_KAFKA_MSG_F_COPY.
Proof. vm_compute. reflexivity. Qed.

Example transfer_at_1025 :
  v_msgflags <$> frame_line true 2 8 16 lines_cfg
                   (repeat "a"%byte 1025 ++ [x0a]) 1026
  = Some RD_KAFKA_MSG_F_FREE.
Proof. vm_compute. reflexivity. Qed.

Example tee_copies_at_1025 :
  v_msgflags <$> frame_line true 2 8 16 (mkConfig 8 10 0 (-1) false 0)
                   (repeat "a"%byte 1025 ++ [x0a]) 1026
  = Some RD_KAFKA_MSG_F_COPY.
Proof. vm_compute. reflexivity. Qed.

(** After a transfer the next read allocates its buffer; after a copy it
    reuses the one it has. *)
Example transfer_gives_up_buffer :
  let long := repeat "a"%byte 1025 in
  log (final_world (stream_loop true 2 8 16 lines_cfg (repeat plain_read 2)
                      ((long ++ [x0a]) ++ (long ++ [x0a]))
                      (mkLinebuf None 0) initial_world))
  = [EvRead true (long ++ [x0a]);
     EvProduce (Some long) 1025 None 0 RD_KAFKA_MSG_F_FREE;
     EvRead true (long ++ [x0a]);
     EvProduce (Some long) 1025 None 0 RD_KAFKA_MSG_F_FREE].
Proof. vm_compute. reflexivity. Qed.

Example copy_keeps_buffer :
  log (final_world (stream_loop true 2 8 16 lines_cfg (repeat plain_read 2)
                      (bytes "ab" ++ [x0a] ++ bytes "cd" ++ [x0a])
                      (mkLinebuf None 0) initial_world))
  = [EvRead true (bytes "ab" ++ [x0a]);
     EvProduce (Some (bytes "ab")) 2 None 0 RD_KAFKA_MSG_F_COPY;
     EvRead false (bytes "cd" ++ [x0a]);
     EvProduce (Some (bytes "cd")) 2 None 0 RD_KAFKA_MSG_F_COPY].
Proof. vm_compute. reflexivity. Qed.

(** The shave step compares [(int)buf[len-1]] with [conf.delim], which
    [parse_delim] keeps in 0..255: where [char] is signed, a delimiter byte
    of 0x80 or more is never equal to it and stays at the end of the
    record. *)
Example high_delimiter_signed_char :
  record_of true (mkConfig 0 255 0 (-1) false 0) ["a"%byte; xff]
  = ["a"%byte; xff].
Proof. reflexivity. Qed.

Example high_delimiter_unsigned_char :
  record_of false (mkConfig 0 255 0 (-1) false 0) ["a"%byte; xff]
  = ["a"%byte].
Proof. reflexivity. Qed.

(** *** The shave step on a signed [char]

    With the delimiter [\xff] ([conf.delim = 255]) and a signed [char],
    [(int)sbuf[len-1]] is -1 for the delimiter byte and the comparison of
    the step "Shave off delimiter" fails: the delimiter stays in the
    record.  With an unsigned [char] it is stripped. *)

(** C1: a record of 1024 bytes followed by the delimiter [\xff], tee mode
    off, no key delimiter.  With a signed [char] the loop body sends 1025
    bytes, the delimiter included, on the ownership-transfer path and gives
    up the line buffer; with an unsigned [char] it sends the 1024 bytes on
    the copy path and keeps the buffer. *)
Lemma ownership_high_delimiter :
  let cfg := mkConfig 0 255 0 (-1) false 0 in
  let rec := repeat "a"%byte 1024 in
  let chunk := rec ++ [xff] in
  let lb := mkLinebuf (Some chunk) 1026 in
  strip_delim 255 chunk = rec /\
  (exists w',
     loop_body true 2 8 16 cfg plain_read chunk lb initial_world
     = Done (mkLinebuf None 0) w' /\
     log w' = [EvProduce (Some chunk) 1025 None 0 RD_KAFKA_MSG_F_FREE]) /\
  (exists w',
     loop_body false 2 8 16 cfg plain_read chunk lb initial_world
     = Done lb w' /\
     log w' = [EvProduce (Some rec) 1024 None 0 RD_KAFKA_MSG_F_COPY]).
Proof.
  intros cfg rec chunk lb.
  split; [vm_compute; reflexivity|].
  split; eexists; split; vm_compute; reflexivity.
Qed.

(** C2: the input [a \xff \xff b \xff] with the delimiter [\xff], no key
    delimiter.  With a signed [char] the records sent are [a \xff], [\xff]
    and [b \xff]: each followed by the delimiter they do not give back the
    input.  With an unsigned [char] the records sent are [a] and [b], the
    empty record between them being skipped. *)
Lemma framing_high_delimiter :
  let cfg := mkConfig 0 255 0 (-1) false 0 in
  let fp := ["a"%byte; xff; xff; "b"%byte; xff] in
  let sent cs :=
    payloads_sent
      (log (final_world (stream_loop cs 2 8 16 cfg (repeat plain_read 3) fp
                                     (mkLinebuf None 0) initial_world))) in
  let records := [["a"%byte; xff]; [xff]; ["b"%byte; xff]] in
  sent true = map Some records /\
  concat (map (fun rec => rec ++ [xff]) records) <> fp /\
  sent false = [Some ["a"%byte]; Some ["b"%byte]].
Proof.
  intros cfg fp sent records.
  split; [vm_compute; reflexivity|].
  split; [vm_compute; congruence|vm_compute; reflexivity].
Qed.

(** C10: a chunk that is the delimiter [\xff] alone, with the key delimiter
    [:] and the null flag set.  The record is empty once the delimiter is
    stripped; with a signed [char] the loop body sends it as a message of
    one byte, with an unsigned [char] it skips it. *)
Lemma null_high_delimiter :
  let cfg := mkConfig 18 255 58 (-1) false 0 in
  let lb := mkLinebuf (Some [xff]) 2 in
  strip_delim 255 [xff] = [] /\
  (exists w',
     loop_body true 2 8 16 cfg plain_read [xff] lb initial_world
     = Done lb w' /\
     log w' = [EvProduce (Some [xff]) 1 None 0 RD_KAFKA_MSG_F_COPY]) /\
  loop_body false 2 8 16 cfg plain_read [xff] lb initial_world
  = Done lb initial_world.
Proof.
  intros cfg lb.
  split; [reflexivity|].
  split; [eexists; split; vm_compute; reflexivity|reflexivity].
Qed.

(** ** Whole-file mode *)

Section FileMode.
Variable cs : bool.
Variables KEY_DELIM TEE NULL LINE : Z.
Variable cfg : config.

Local Abbreviation run_producer :=
  (producer_run cs KEY_DELIM TEE NULL LINE cfg).

Lemma produce_file_done f w r w' :
  produce_file f w = Done r w' ->
  (r =? -1) = file_fails f /\
  exitcode w' = exitcode w /\
  exists evs, log w' = log w ++ evs /\
              payloads_sent evs = match file_payload f with
                                  | Some contents => [Some contents]
                                  | None => []
                                  end.
Proof.
  unfold produce_file, file_fails, file_payload.
  destruct (f_state f) as [| |contents ok].
  1,2: (intros [= <- <-]; repeat split; exists []; rewrite app_nil_r; auto).
  destruct (length contents =? 0)%nat eqn:E.
  - intros [= <- <-]. destruct ok; repeat split; exists [];
      rewrite app_nil_r; auto.
  - destruct ok; cbn [negb andb].
    + unfold bind. intros H.
      destruct (produce _ _ _ _ _ _ w) as [[] w1|?|?|?] eqn:Hp;
        try discriminate.
      injection H as <- <-.
      apply produce_done_inv in Hp as (_ & _ & _ & _ & _ & _ & Hl & He & _).
      repeat split; [|exact He|eexists; split; [exact Hl|reflexivity]].
      apply Z.eqb_neq. lia.
    + intros [= <- <-]. repeat split. exists []. rewrite app_nil_r. auto.
Qed.

Lemma produce_files_done paths good w good' w' :
  produce_files paths good w = Done good' w' ->
  good' = good + Z.of_nat (length (filter (fun f => file_fails f = false) paths)) /\
  exitcode w' = exitcode w /\
  exists evs, log w' = log w ++ evs /\
              payloads_sent evs = map Some (omap file_payload paths).
Proof.
  revert good w; induction paths as [|f paths IH]; intros good w H;
    cbn [produce_files] in H.
  - injection H as <- <-. repeat split; [cbn; lia|].
    exists []. rewrite app_nil_r. auto.
  - unfold bind in H.
    destruct (produce_file f w) as [r w1|?|?|?] eqn:Hf; try discriminate.
    apply produce_file_done in Hf as (Hr & He1 & evs1 & Hl1 & Hs1).
    apply IH in H as (Hg & He & evs & Hl & Hs).
    split; [|split; [congruence|]].
    + rewrite Hg, Hr.
      destruct (file_fails f) eqn:Hff; cbn [negb].
      * rewrite filter_cons_False by congruence. reflexivity.
      * rewrite filter_cons_True by assumption. cbn [length]. lia.
    + exists (evs1 ++ evs). split.
      * rewrite Hl, Hl1, app_assoc. reflexivity.
      * rewrite payloads_sent_app, Hs1, Hs. cbn [omap list_omap].
        destruct (file_payload f); reflexivity.
Qed.

Lemma no_good_file paths :
  (Z.of_nat (length (filter (fun f => file_fails f = false) paths)) =? 0)
  = forallb file_fails paths.
Proof.
  induction paths as [|f paths IH]; [reflexivity|]. cbn [forallb].
  destruct (file_fails f) eqn:Hff; cbn [andb].
  - rewrite filter_cons_False by congruence. exact IH.
  - rewrite filter_cons_True by assumption. cbn [length].
    apply Z.eqb_neq. lia.
Qed.

Lemma drain_loop_frame oracle w :
  let w' := final_world (drain_loop oracle w) in
  exitcode w' = exitcode w /\ log w' = log w /\
  tx_err_q (stats w') = tx_err_q (stats w).
Proof.
  revert w; induction oracle as [|d oracle IH]; intros w; cbn [drain_loop];
    destruct (run w); cbn; auto.
  destruct (d_outq_len d =? 0); cbn; auto.
  unfold bind.
  pose proof (rd_kafka_poll_frame (d_poll d) w) as Hf.
  destruct (rd_kafka_poll (d_poll d) w) as [[] w1|?|?|?]; cbn in *;
    destruct Hf as (He & Hl & _ & _ & _ & _ & Hq & _); auto.
  destruct (IH w1) as (He' & Hl' & Hq'). repeat split; congruence.
Qed.

(** The loop over the file list returns when every send is accepted at
    once. *)
Lemma produce_files_returns paths : forall good w,
  run w = true -> Forall (fun f => f_attempts f = [accepted]) paths ->
  exists good' w', produce_files paths good w = Done good' w' /\ run w' = true.
Proof.
  induction paths as [|f paths IH]; intros good w Hr Hacc.
  - exists good, w. auto.
  - apply Forall_cons in Hacc as [Hf Hacc].
    cbn [produce_files]. unfold bind at 1.
    assert (Hfile : exists r w1, produce_file f w = Done r w1 /\ run w1 = true).
    { unfold produce_file. destruct (f_state f) as [| |contents ok].
      1,2: (exists (-1), w; auto).
      destruct (length contents =? 0)%nat; [exists 0, w; auto|].
      destruct ok; cbn [negb]; [|exists (-1), w; auto].
      unfold bind. rewrite Hf, produce_accepted by exact Hr.
      eexists _, _. split; [reflexivity|exact Hr]. }
    destruct Hfile as (r & w1 & Hfile & Hr1). rewrite Hfile.
    apply IH; assumption.
Qed.

(** C8, as the code has it: of two listed files the first is read and sent
    and the second cannot be opened; the run logs the count of failed files
    and the process exits with status 0. *)
Lemma partial_file_failure_exits_zero :
  let w := producer_run true 2 8 16 32 (mkConfig 0 10 0 (-1) false 0)
             [] false []
             [mkFileEnv (FFile ["x"%byte] true) [mkAttempt None [AsDelivery 0]];
              mkFileEnv FOpenFails []]
             [mkDrain 0 []] initial_world in
  exit_status w = Some 0 /\
  log (final_world w)
  = [EvProduce (Some ["x"%byte]) 1 None 0 RD_KAFKA_MSG_F_COPY;
     EvInfoFailedFiles 1 2].
Proof. split; reflexivity. Qed.

(** C8 (amended): whole-file mode.  A run over a non-empty file list
    returns to [main] when every send is accepted at once and the out-queue
    is empty at the end.  For every such run that starts with exit code 0
    and returns to [main]:
    - failing files are skipped and the run continues: the messages sent
      are the contents of the files that are read and not empty, in the
      order of the list;
    - the exit code is 1 exactly when every listed file fails, or a send hit
      a full queue, or a delivery failed; in particular, when some but not
      all files fail and nothing else goes wrong, the exit code is 0, as
      when no file fails. *)
Theorem file_mode_exit_code fp read_error reads paths w :
  paths <> [] ->
  flag_set (flags cfg) LINE = false ->
  (run w = true -> Forall (fun f => f_attempts f = [accepted]) paths ->
   exists w',
     run_producer fp read_error reads paths [mkDrain 0 []] w = Done tt w') /\
  (forall drain w',
     exitcode w = 0 ->
     run_producer fp read_error reads paths drain w = Done tt w' ->
     (exists evs, log w' = log w ++ evs /\
                  payloads_sent evs = map Some (omap file_payload paths)) /\
     exitcode w' =
       (if forallb file_fails paths
           || negb (tx_err_q (stats w') =? 0)
           || negb (tx_err_dr (stats w') =? 0)
        then 1 else 0)).
Proof.
  intros Hne Hflag.
  assert (Hcnt : (0 <? Z.of_nat (length paths)) = true).
  { apply Z.ltb_lt. destruct paths; [congruence|cbn [length]; lia]. }
  split.
  { intros Hr Hacc. unfold producer_run.
    rewrite Hcnt, Hflag. cbn [negb andb].
    destruct (produce_files_returns paths 0 w Hr Hacc)
      as (good & w1 & Hp & Hr1).
    unfold bind at 1. unfold bind at 1. rewrite Hp.
    assert (Hstep : exists w2,
              (if good =? 0 then modify (set_exitcode 1)
               else if good <? Z.of_nat (length paths)
                    then modify (emit (EvInfoFailedFiles
                                         (Z.of_nat (length paths) - good)
                                         (Z.of_nat (length paths))))
                    else ret tt) w1 = Done tt w2).
    { destruct (good =? 0); [eexists; reflexivity|].
      destruct (good <? _); eexists; reflexivity. }
    destruct Hstep as (w2 & ->).
    unfold bind, modify, get. cbn [drain_loop set_run run negb d_outq_len].
    cbn [Z.eqb]. destruct (negb _ || negb _); eexists; reflexivity. }
  intros drain w' He0 H. unfold producer_run in H.
  rewrite Hcnt, Hflag in H. cbn [negb andb] in H.
  unfold bind at 1 in H. unfold bind at 1 in H.
  destruct (produce_files paths 0 w) as [good w1|?|?|?] eqn:Hp;
    try discriminate.
  apply produce_files_done in Hp as (Hg & He1 & evs & Hl1 & Hs1).
  rewrite Z.add_0_l in Hg.
  assert (Hall : (good =? 0) = forallb file_fails paths)
    by (rewrite Hg; apply no_good_file).
  set (w2 := if good =? 0 then set_exitcode 1 w1
             else if good <? Z.of_nat (length paths)
                  then emit (EvInfoFailedFiles (Z.of_nat (length paths) - good)
                                               (Z.of_nat (length paths))) w1
                  else w1).
  assert (Hstep : (if good =? 0 then modify (set_exitcode 1)
                   else if good <? Z.of_nat (length paths)
                        then modify (emit (EvInfoFailedFiles
                                             (Z.of_nat (length paths) - good)
                                             (Z.of_nat (length paths))))
                        else ret tt) w1 = Done tt w2).
  { subst w2. destruct (good =? 0); [reflexivity|].
    destruct (good <? _); reflexivity. }
  rewrite Hstep in H.
  assert (Hw2 : exitcode w2 = (if forallb file_fails paths then 1 else 0) /\
                exists evs', log w2 = log w ++ evs' /\
                  payloads_sent evs' = map Some (omap file_payload paths)).
  { subst w2. rewrite <- Hall. destruct (good =? 0).
    - split; [reflexivity|]. exists evs. auto.
    - destruct (good <? _); cbn [exitcode log emit].
      + split; [congruence|]. exists (evs ++ [EvInfoFailedFiles
                 (Z.of_nat (length paths) - good) (Z.of_nat (length paths))]).
        rewrite Hl1, <- app_assoc, payloads_sent_app, Hs1.
        cbn [payloads_sent]. rewrite app_nil_r. auto.
      + split; [congruence|]. exists evs. auto. }
  destruct Hw2 as (He2 & evs' & Hl2 & Hs2).
  unfold bind at 1 in H. unfold modify at 1 in H.
  unfold bind at 1 in H.
  pose proof (drain_loop_frame drain (set_run true w2)) as Hd.
  destruct (drain_loop drain (set_run true w2)) as [[] w3|?|?|?];
    try discriminate.
  cbn in Hd. destruct Hd as (He3 & Hl3 & _).
  unfold bind, get in H.
  destruct (negb (tx_err_q (stats w3) =? 0) || negb (tx_err_dr (stats w3) =? 0))
    eqn:Herr; munfold; injection H as <-; cbn [log exitcode stats set_exitcode].
  - split; [exists evs'; split; congruence|].
    rewrite <- orb_assoc, Herr, orb_true_r. reflexivity.
  - split; [exists evs'; split; congruence|].
    rewrite <- orb_assoc, Herr, orb_false_r, He3, He2. reflexivity.
Qed.

End FileMode.

(** Whole-file mode at work: of two files the second cannot be opened. *)
Lemma file_mode_exit_code_witness :
  let paths := [mkFileEnv (FFile (bytes "x") true) [accepted];
                mkFileEnv FOpenFails []] in
  let w' := final_world (producer_run true 2 8 16 32 lines_cfg [] false []
                           paths [mkDrain 0 []] initial_world) in
  exitcode w' = 0 /\ payloads_sent (log w') = [Some (bytes "x")].
Proof.
  intros paths w'.
  destruct (file_mode_exit_code true 2 8 16 32 lines_cfg [] false [] paths
              initial_world) as [_ Hcode].
  - discriminate.
  - reflexivity.
  - destruct (Hcode [mkDrain 0 []] w') as [(evs & Hl & Hsent) He].
    + reflexivity.
    + vm_compute. reflexivity.
    + split; [rewrite He; reflexivity|].
      change (log initial_world ++ evs) with evs in Hl. rewrite Hl, Hsent.
      reflexivity.
Defined.

(** ** Consume callback *)

Lemma for_each_cons {A} (f : A -> M unit) x l w :
  for_each f (x :: l) w = bind (f x) (fun _ => for_each f l) w.
Proof. reflexivity. Qed.

Lemma for_each_app {A} (f : A -> M unit) l1 l2 w w1 :
  for_each f l1 w = Done tt w1 ->
  for_each f (l1 ++ l2) w = for_each f l2 w1.
Proof.
  revert w; induction l1 as [|x l1 IH]; intros w H.
  - injection H as <-. reflexivity.
  - cbn [app]. rewrite for_each_cons in *. unfold bind in *.
    destruct (f x w) as [[] w'|?|?|?]; try discriminate. apply IH, H.
Qed.

Section Callback.
Variable cfg : config.

Local Abbreviation callback := (consume_cb cfg).

(** Once the run flag is cleared the callback does nothing. *)
Lemma consume_cb_stopped m w : run w = false -> callback m w = Done tt w.
Proof. intros Hr. unfold consume_cb, bind, get. rewrite Hr. reflexivity. Qed.

Lemma for_each_stopped msgs w :
  run w = false -> for_each callback msgs w = Done tt w.
Proof.
  intros Hr. induction msgs as [|m msgs IH]; [reflexivity|].
  rewrite for_each_cons. unfold bind. rewrite consume_cb_stopped by exact Hr.
  exact IH.
Qed.

(** An ordinary message is rendered, its offset stored, and counted; the
    run flag is cleared when the count meets the limit. *)
Lemma consume_cb_data m w :
  run w = true -> is_data m = true ->
  callback m w =
  Done tt
    (let w1 := set_stats (incr_rx (stats w))
                 (emit (EvOffsetStore (m_partition m) (m_offset m))
                    (emit (EvOutput m) w)) in
     if u64_eq_i64 (u64_incr (rx (stats w))) (msg_cnt cfg)
     then set_run false w1 else w1).
Proof.
  intros Hr Hd. unfold is_data in Hd.
  unfold consume_cb, bind, get, modify, ret. rewrite Hr, Hd. cbn.
  destruct (u64_eq_i64 _ _); reflexivity.
Qed.

(** With exit-at-EOF off a marker only has its offset stored. *)
Lemma consume_cb_eof_plain m w :
  run w = true -> is_eof m = true -> exit_eof cfg = false ->
  callback m w = Done tt (emit (eof_store m) w).
Proof.
  intros Hr He Hx. unfold is_eof in He.
  assert (Hd : (m_err m =? 0) = false).
  { apply Z.eqb_eq in He. rewrite He. reflexivity. }
  unfold consume_cb, bind, get, modify, ret. rewrite Hr, Hd, He, Hx.
  reflexivity.
Qed.

(** With exit-at-EOF on, a marker for a partition already observed only has
    its offset stored. *)
Lemma consume_cb_eof_seen m w arr v :
  run w = true -> is_eof m = true -> exit_eof cfg = true ->
  part_eof w = Some arr -> 0 <= m_partition m ->
  arr !! Z.to_nat (m_partition m) = Some v -> v <> 0 ->
  callback m w = Done tt (emit (eof_store m) w).
Proof.
  intros Hr He Hx Ha Hp Hl Hv. unfold is_eof in He.
  assert (Hd : (m_err m =? 0) = false).
  { apply Z.eqb_eq in He. rewrite He. reflexivity. }
  unfold consume_cb, bind, get, modify, ret, part_eof_get.
  rewrite Hr, Hd, He, Hx. cbn.
  rewrite Ha. assert ((m_partition m <? 0) = false) as -> by lia.
  rewrite Hl. apply Z.eqb_neq in Hv. rewrite Hv. reflexivity.
Qed.

(** With exit-at-EOF on, the first marker of a partition stops the
    partition, marks it, counts it, and clears the run flag when the count
    meets the threshold. *)
Lemma consume_cb_eof_new m w arr :
  run w = true -> is_eof m = true -> exit_eof cfg = true ->
  part_eof w = Some arr -> 0 <= m_partition m < Z.of_nat (length arr) ->
  arr !! Z.to_nat (m_partition m) = Some 0 ->
  callback m w =
  Done tt
    (let w1 := set_part_eof_cnt (part_eof_cnt w + 1)
                 (set_part_eof (Some (<[Z.to_nat (m_partition m) := 1]> arr))
                    (emit (EvConsumeStop (m_partition m))
                       (emit (eof_store m) w))) in
     if part_eof_thres w <=? part_eof_cnt w + 1 then set_run false w1 else w1).
Proof.
  intros Hr He Hx Ha Hp Hl. unfold is_eof in He.
  assert (Hd : (m_err m =? 0) = false).
  { apply Z.eqb_eq in He. rewrite He. reflexivity. }
  unfold consume_cb, bind, get, modify, ret, part_eof_get, part_eof_set.
  assert (H1 : (m_partition m <? 0) = false) by lia.
  assert (H2 : (Z.of_nat (length arr) <=? m_partition m) = false) by lia.
  rewrite Hr, Hd, He, Hx. cbn.
  rewrite Ha, H1, Hl. cbn. rewrite ?Ha, ?H1, ?H2. cbn.
  destruct (part_eof_thres w <=? part_eof_cnt w + 1); reflexivity.
Qed.

End Callback.

(** ** End-of-partition coordination *)

Lemma eof_partitions_cons m msgs :
  eof_partitions (m :: msgs) =
  if is_eof m then {[m_partition m]} ∪ eof_partitions msgs
  else eof_partitions msgs.
Proof.
  unfold eof_partitions. destruct (is_eof m) eqn:E.
  - rewrite filter_cons_True by exact E. reflexivity.
  - rewrite filter_cons_False by congruence. reflexivity.
Qed.

Lemma is_data_not_eof m : is_data m = true -> is_eof m = false.
Proof.
  unfold is_data, is_eof. intros H. apply Z.eqb_eq in H. rewrite H.
  reflexivity.
Qed.

Section Coordinator.
Variable cfg : config.
Variable n : nat.
Hypothesis exit_eof_on : exit_eof cfg = true.

Local Abbreviation callback := (consume_cb cfg).
Local Abbreviation dom := (eof_domain cfg n).
Local Abbreviation thres := (eof_threshold cfg n).

Lemma elem_of_eof_domain p :
  p ∈ dom <-> 0 <= p < Z.of_nat n /\ wanted cfg p.
Proof.
  unfold eof_domain, wanted.
  destruct (partition cfg =? RD_KAFKA_PARTITION_UA) eqn:E.
  - apply Z.eqb_eq in E. rewrite elem_of_list_to_set, elem_of_seqZ.
    split; [intros H; split; [lia|auto]|intros [H _]; lia].
  - apply Z.eqb_neq in E.
    rewrite elem_of_intersection, elem_of_singleton, elem_of_list_to_set,
      elem_of_seqZ.
    split; [intros [-> H]; split; [lia|auto]|].
    intros [H [Hu| ->]]; [contradiction|]. split; [reflexivity|lia].
Qed.

Lemma size_eof_domain : Z.of_nat (card dom) <= thres.
Proof.
  unfold eof_domain, eof_threshold.
  destruct (partition cfg =? RD_KAFKA_PARTITION_UA); cbn [negb].
  - rewrite size_list_to_set by apply NoDup_seqZ. rewrite length_seqZ. lia.
  - assert (Hsub : {[partition cfg]} ∩ list_to_set (seqZ 0 (Z.of_nat n))
                   ⊆ ({[partition cfg]} : gset Z)) by set_solver.
    apply subseteq_size in Hsub. rewrite size_singleton in Hsub. lia.
Qed.

(** When the count has reached the threshold every partition of the domain
    is observed. *)
Lemma threshold_all_observed obs :
  obs ⊆ dom -> thres <= Z.of_nat (card obs) -> obs = dom.
Proof.
  intros Hsub Hle. apply set_subseteq_size_eq; [exact Hsub|].
  pose proof size_eof_domain. lia.
Qed.

Lemma coordinated_frame obs w w1 :
  coordinated n obs w -> part_eof w1 = part_eof w ->
  part_eof_cnt w1 = part_eof_cnt w -> coordinated n obs w1.
Proof.
  intros (arr & Ha & Hlen & Hl & Hc) H1 H2.
  exists arr. rewrite H1, H2. auto.
Qed.

(** The callback over a list of deliverable messages keeps the table and
    the counter in step with the set of partitions whose marker came, and
    the run flag is set exactly while the counter is below the
    threshold. *)
Lemma coordinator_run msgs : forall obs w,
  coordinated n obs w -> obs ⊆ dom ->
  part_eof_thres w = thres ->
  run w = negb (part_eof_thres w <=? part_eof_cnt w) ->
  0 <= rx (stats w) ->
  rx (stats w) + Z.of_nat (length msgs) < UINT64_MOD ->
  Forall (deliverable cfg n) msgs ->
  exists w',
    for_each callback msgs w = Done tt w' /\
    coordinated n (obs ∪ eof_partitions msgs) w' /\
    obs ∪ eof_partitions msgs ⊆ dom /\
    part_eof_thres w' = thres /\
    run w' = negb (part_eof_thres w' <=? part_eof_cnt w').
Proof.
  induction msgs as [|m msgs IH]; intros obs w Hco Hsub Hth Hrun Hrx0 Hrx Hok.
  - exists w. split; [reflexivity|].
    replace (obs ∪ eof_partitions []) with obs by set_solver. auto.
  - apply Forall_cons in Hok as [Hm Hok]. cbn [length] in Hrx.
    rewrite for_each_cons. unfold bind.
    assert (Hin : is_eof m = true -> m_partition m ∈ dom).
    { intros He. destruct Hm as [[Hd _]|(_ & Hp & Hw)].
      - rewrite (is_data_not_eof m Hd) in He. discriminate.
      - apply elem_of_eof_domain. auto. }
    destruct (run w) eqn:Hr.
    + (* the loop is running *)
      destruct Hm as [[Hd no_limit]|(He & Hp & Hw)].
      * (* an ordinary message *)
        rewrite (consume_cb_data cfg m w Hr Hd). cbv zeta.
        rewrite no_limit, u64_incr_no_limit by lia.
        rewrite eof_partitions_cons, (is_data_not_eof m Hd).
        apply IH;
          [eapply coordinated_frame; [exact Hco|reflexivity|reflexivity]
          |exact Hsub
          |exact Hth
          |cbn; rewrite Hr; exact Hrun
          |cbn; rewrite u64_incr_small by lia; lia
          |cbn; rewrite u64_incr_small by lia; lia
          |exact Hok].
      * (* a marker *)
        rewrite eof_partitions_cons, He.
        destruct Hco as (arr & Ha & Hlen & Hl & Hc).
        assert (Hi : (Z.to_nat (m_partition m) < n)%nat) by lia.
        pose proof (Hl _ Hi) as Hlk. rewrite Z2Nat.id in Hlk by lia.
        destruct (bool_decide (m_partition m ∈ obs)) eqn:Hobs.
        -- (* already observed *)
           apply bool_decide_eq_true in Hobs.
           rewrite (consume_cb_eof_seen cfg m w arr 1 Hr He exit_eof_on Ha
                      ltac:(lia) Hlk ltac:(lia)).
           replace (obs ∪ ({[m_partition m]} ∪ eof_partitions msgs))
             with (obs ∪ eof_partitions msgs) by set_solver.
           apply IH;
             [exists arr; auto
             |exact Hsub
             |exact Hth
             |cbn; rewrite Hr; exact Hrun
             |exact Hrx0
             |cbn; lia
             |exact Hok].
        -- (* first marker of the partition *)
           apply bool_decide_eq_false in Hobs.
           rewrite (consume_cb_eof_new cfg m w arr Hr He exit_eof_on Ha
                      ltac:(lia) Hlk). cbv zeta.
           replace (obs ∪ ({[m_partition m]} ∪ eof_partitions msgs))
             with (({[m_partition m]} ∪ obs) ∪ eof_partitions msgs)
             by set_solver.
           assert (Hsize : Z.of_nat (card ({[m_partition m]} ∪ obs))
                           = part_eof_cnt w + 1).
           { rewrite size_union by set_solver. rewrite size_singleton. lia. }
           assert (Hco' : forall w1,
                     part_eof w1 = Some (<[Z.to_nat (m_partition m) := 1]> arr) ->
                     part_eof_cnt w1 = part_eof_cnt w + 1 ->
                     coordinated n ({[m_partition m]} ∪ obs) w1).
           { intros w1 H1 H2. eexists. split; [exact H1|].
             split; [rewrite length_insert; exact Hlen|].
             split; [|rewrite H2; symmetry; exact Hsize].
             intros i Hi'.
             destruct (decide (i = Z.to_nat (m_partition m))) as [->|Hne].
             - rewrite list_lookup_insert_eq by lia.
               rewrite bool_decide_eq_true_2; [reflexivity|].
               rewrite Z2Nat.id by lia. set_solver.
             - rewrite list_lookup_insert_ne by congruence.
               rewrite (Hl i Hi'). f_equal.
               assert (Z.of_nat i <> m_partition m) by lia.
               rewrite (bool_decide_ext (Z.of_nat i ∈ obs)
                          (Z.of_nat i ∈ {[m_partition m]} ∪ obs))
                 by set_solver.
               reflexivity. }
           assert (Hsub' : {[m_partition m]} ∪ obs ⊆ dom)
             by (specialize (Hin He); set_solver).
           destruct (part_eof_thres w <=? part_eof_cnt w + 1) eqn:Ht;
             (apply IH;
              [apply Hco'; reflexivity
              |exact Hsub'
              |exact Hth
              |cbn; rewrite Ht, ?Hr; reflexivity
              |exact Hrx0
              |cbn; lia
              |exact Hok]).
    + (* the run flag is cleared: nothing happens any more *)
      rewrite (consume_cb_stopped cfg m w Hr).
      assert (Hall : obs = dom).
      { apply threshold_all_observed; [exact Hsub|].
        destruct Hco as (arr & Ha & Hlen & Hl & Hc).
        rewrite <- Hc, <- Hth. symmetry in Hrun.
        apply negb_false_iff in Hrun. lia. }
      rewrite eof_partitions_cons.
      destruct (is_eof m) eqn:He.
      * replace (obs ∪ ({[m_partition m]} ∪ eof_partitions msgs))
          with (obs ∪ eof_partitions msgs)
          by (specialize (Hin eq_refl); set_solver).
        apply IH; auto; [rewrite Hr; exact Hrun|lia].
      * apply IH; auto; [rewrite Hr; exact Hrun|lia].
Qed.

Lemma eof_domain_range : dom ⊆ list_to_set (seqZ 0 (Z.of_nat n)).
Proof.
  unfold eof_domain. destruct (partition cfg =? _); set_solver.
Qed.

Lemma card_le_partition_cnt obs : obs ⊆ dom -> (card obs <= n)%nat.
Proof.
  intros Hsub.
  assert (H : obs ⊆ list_to_set (seqZ 0 (Z.of_nat n)))
    by (pose proof eof_domain_range; set_solver).
  apply subseteq_size in H.
  rewrite size_list_to_set in H by apply NoDup_seqZ.
  rewrite length_seqZ in H. lia.
Qed.

Lemma eof_partitions_app l1 l2 :
  eof_partitions (l1 ++ l2) = eof_partitions l1 ∪ eof_partitions l2.
Proof.
  unfold eof_partitions. rewrite filter_app, fmap_app.
  apply list_to_set_app_L.
Qed.

Lemma elem_of_eof_partitions m msgs :
  m ∈ msgs -> is_eof m = true -> m_partition m ∈ eof_partitions msgs.
Proof.
  intros Hin He. unfold eof_partitions.
  apply elem_of_list_to_set, list_elem_of_fmap. exists m. split; [reflexivity|].
  apply list_elem_of_filter. auto.
Qed.

(** The table as [setup_eof] leaves it, then the callback over a list of
    deliverable messages. *)
Lemma observe_spec w0 msgs :
  (0 < n)%nat -> run w0 = true -> part_eof_cnt w0 = 0 -> rx (stats w0) = 0 ->
  Z.of_nat (length msgs) < UINT64_MOD ->
  Forall (deliverable cfg n) msgs ->
  exists w w',
    setup_eof cfg n w0 = Done tt w /\ part_eof_thres w = thres /\
    consume_callback_queue cfg msgs w = Done tt w' /\
    observe cfg n msgs w0 = Done tt w' /\
    coordinated n (eof_partitions msgs) w' /\
    eof_partitions msgs ⊆ dom /\
    part_eof_thres w' = thres /\
    run w' = negb (part_eof_thres w' <=? part_eof_cnt w').
Proof.
  intros Hn Hr Hc Hrx Hlen Hok.
  set (w := set_part_eof_thres thres
              (set_part_eof (Some (replicate n 0)) w0)).
  assert (Hsetup : setup_eof cfg n w0 = Done tt w).
  { subst w. unfold setup_eof, eof_threshold, bind, modify.
    rewrite exit_eof_on. destruct (negb _); reflexivity. }
  assert (Hco : coordinated n ∅ w).
  { exists (replicate n 0). repeat split.
    - apply length_replicate.
    - intros i Hi. rewrite lookup_replicate_2 by exact Hi. reflexivity.
    - cbn. rewrite Hc, size_empty. reflexivity. }
  assert (Hpos : 0 < thres).
  { unfold eof_threshold. destruct (negb _); lia. }
  destruct (coordinator_run msgs ∅ w Hco) as (w' & Hq & Hco' & Hsub & Hth & Hrun).
  - set_solver.
  - reflexivity.
  - cbn. rewrite Hr, Hc. symmetry. apply negb_true_iff, Z.leb_gt. exact Hpos.
  - cbn. lia.
  - cbn. lia.
  - exact Hok.
  - replace (∅ ∪ eof_partitions msgs) with (eof_partitions msgs) in *
      by set_solver.
    exists w, w'. repeat split; auto.
    unfold observe, bind. rewrite Hsetup. exact Hq.
Qed.

End Coordinator.

(** C4: the count of partitions at end.  The table is set up for [n]
    partitions and the callback is handed any list of deliverable messages
    (end-of-partition markers of wanted partitions of the topic and, when
    no message-count limit is configured, ordinary messages).  Then the
    callback returns for every message, and
    - the count is the number of distinct partitions for which a marker
      came;
    - it is at most the partition count;
    - it never decreases along the list;
    - one more marker for a partition already observed changes neither the
      table nor the count. *)
Theorem eof_count_distinct cfg n w0 msgs :
  exit_eof cfg = true -> (0 < n)%nat ->
  run w0 = true -> part_eof_cnt w0 = 0 -> rx (stats w0) = 0 ->
  Z.of_nat (length msgs) < UINT64_MOD ->
  Forall (deliverable cfg n) msgs ->
  let after := fun l => final_world (observe cfg n l w0) in
  (exists w', observe cfg n msgs w0 = Done tt w') /\
  part_eof_cnt (after msgs) = Z.of_nat (card (eof_partitions msgs)) /\
  part_eof_cnt (after msgs) <= Z.of_nat n /\
  (forall j k, (j <= k)%nat ->
     part_eof_cnt (after (take j msgs)) <= part_eof_cnt (after (take k msgs))) /\
  (forall m, m ∈ msgs -> is_eof m = true ->
     exists w'', consume_cb cfg m (after msgs) = Done tt w'' /\
                 part_eof w'' = part_eof (after msgs) /\
                 part_eof_cnt w'' = part_eof_cnt (after msgs)).
Proof.
  intros Hx Hn Hr Hc Hrx Hlen Hok after.
  assert (Hafter : forall l,
            Z.of_nat (length l) < UINT64_MOD -> Forall (deliverable cfg n) l ->
            exists w', observe cfg n l w0 = Done tt w' /\ after l = w' /\
              coordinated n (eof_partitions l) w' /\
              eof_partitions l ⊆ eof_domain cfg n).
  { intros l Hl1 Hl2.
    destruct (observe_spec cfg n Hx w0 l Hn Hr Hc Hrx Hl1 Hl2)
      as (w & w' & _ & _ & _ & Ho & Hco & Hsub & _).
    exists w'. subst after. cbn beta. rewrite Ho. auto. }
  assert (Htake : forall j, exists w',
            after (take j msgs) = w' /\
            part_eof_cnt w' = Z.of_nat (card (eof_partitions (take j msgs)))).
  { intros j. destruct (Hafter (take j msgs)) as (w' & _ & Ha & Hco & _).
    - rewrite length_take. lia.
    - apply Forall_take, Hok.
    - destruct Hco as (arr & _ & _ & _ & Hcnt). eauto. }
  destruct (Hafter msgs Hlen Hok) as (w' & Ho & Ha & Hco & Hsub).
  pose proof Hco as (arr & Harr & Hlenarr & Hlk & Hcnt).
  rewrite Ha. repeat apply conj.
  - eauto.
  - exact Hcnt.
  - rewrite Hcnt.
    assert (card (eof_partitions msgs) <= n)%nat
      by (eapply card_le_partition_cnt; eauto).
    lia.
  - intros j k Hjk.
    destruct (Htake j) as (wj & -> & ->), (Htake k) as (wk & -> & ->).
    apply inj_le, subseteq_size.
    replace (take k msgs) with (take j msgs ++ drop j (take k msgs)).
    + rewrite eof_partitions_app. set_solver.
    + rewrite <- (take_drop j (take k msgs)) at 2.
      rewrite take_take. f_equal. f_equal. lia.
  - intros m Hin He.
    destruct (run w') eqn:Hrun.
    + pose proof (elem_of_eof_partitions m msgs Hin He) as Hp.
      assert (Hrange : 0 <= m_partition m < Z.of_nat n).
      { apply Hsub in Hp. eapply elem_of_eof_domain in Hp; eauto. tauto. }
      assert (Hi : (Z.to_nat (m_partition m) < n)%nat) by lia.
      pose proof (Hlk _ Hi) as Hseen. rewrite Z2Nat.id in Hseen by lia.
      rewrite bool_decide_eq_true_2 in Hseen by exact Hp.
      rewrite (consume_cb_eof_seen cfg m w' arr 1 Hrun He Hx Harr
                 ltac:(lia) Hseen ltac:(lia)).
      eauto.
    + rewrite (consume_cb_stopped cfg m w' Hrun). eauto.
Qed.

(** C5: the threshold.  With exit-at-EOF on, [setup_eof] sets the threshold
    to 1 when a partition was requested and to the partition count
    otherwise.  Then, whatever deliverable messages the callback is handed
    and in whatever order, it returns for each, the threshold stays, and
    the run flag is cleared exactly when the count of partitions at end has
    reached the threshold, that is, exactly when markers came for that many
    distinct partitions. *)
Theorem eof_threshold_stops cfg n w0 msgs :
  exit_eof cfg = true -> (0 < n)%nat ->
  run w0 = true -> part_eof_cnt w0 = 0 -> rx (stats w0) = 0 ->
  Z.of_nat (length msgs) < UINT64_MOD ->
  Forall (deliverable cfg n) msgs ->
  exists w w',
    setup_eof cfg n w0 = Done tt w /\
    part_eof_thres w =
      (if negb (partition cfg =? RD_KAFKA_PARTITION_UA) then 1
       else Z.of_nat n) /\
    consume_callback_queue cfg msgs w = Done tt w' /\
    part_eof_thres w' = part_eof_thres w /\
    (run w' = false <-> part_eof_thres w' <= part_eof_cnt w') /\
    (run w' = false <->
       part_eof_thres w <= Z.of_nat (card (eof_partitions msgs))).
Proof.
  intros Hx Hn Hr Hc Hrx Hlen Hok.
  destruct (observe_spec cfg n Hx w0 msgs Hn Hr Hc Hrx Hlen Hok)
    as (w & w' & Hs & Hth & Hq & _ & Hco & _ & Hth' & Hrun).
  destruct Hco as (arr & _ & _ & _ & Hcnt).
  exists w, w'.
  split; [exact Hs|]. split; [exact Hth|]. split; [exact Hq|].
  split; [congruence|].
  rewrite Hrun, negb_false_iff, Z.leb_le. split; [tauto|].
  rewrite Hth', Hth, Hcnt. tauto.
Qed.

(** ** Message-count limit of the consumer *)

Lemma rendered_app evs1 evs2 :
  rendered (evs1 ++ evs2) = rendered evs1 ++ rendered evs2.
Proof.
  induction evs1 as [|e evs1 IH]; [reflexivity|].
  destruct e; cbn; rewrite IH; reflexivity.
Qed.

(** Of the events of a list of messages, the rendered ones are those of the
    ordinary messages. *)
Lemma rendered_trace msgs :
  rendered (concat (trace_of <$> msgs))
  = filter (fun m => is_data m = true) msgs.
Proof.
  induction msgs as [|m msgs IH]; [reflexivity|].
  cbn [fmap list_fmap concat]. rewrite rendered_app, IH. unfold trace_of.
  destruct (is_data m) eqn:E.
  - rewrite filter_cons_True by exact E. reflexivity.
  - rewrite filter_cons_False by congruence. reflexivity.
Qed.

(** The [j]-th ordinary message of a list (counting from 0) and what comes
    before and after it. *)
Lemma split_nth_data msgs : forall j,
  (j < length (filter (fun m => is_data m = true) msgs))%nat ->
  exists pre m post,
    msgs = pre ++ m :: post /\ is_data m = true /\
    length (filter (fun m => is_data m = true) pre) = j.
Proof.
  induction msgs as [|m msgs IH]; intros j Hj; [cbn in Hj; lia|].
  destruct (is_data m) eqn:E.
  - rewrite filter_cons_True in Hj by exact E. cbn [length] in Hj.
    destruct j as [|j].
    + exists [], m, msgs. auto.
    + destruct (IH j ltac:(lia)) as (pre & m' & post & -> & Hm' & Hpre).
      exists (m :: pre), m', post. repeat split; auto.
      rewrite filter_cons_True by exact E. cbn [length]. lia.
  - rewrite filter_cons_False in Hj by congruence.
    destruct (IH j Hj) as (pre & m' & post & -> & Hm' & Hpre).
    exists (m :: pre), m', post. repeat split; auto.
    rewrite filter_cons_False by congruence. exact Hpre.
Qed.

Section CountLimit.
Variable cfg : config.
Hypothesis limit : 0 < msg_cnt cfg < 2 ^ 63.

Local Abbreviation callback := (consume_cb cfg).
Local Abbreviation data := (filter (fun m => is_data m = true)).
Local Abbreviation plain := (plain_message cfg).

Lemma below_limit x :
  0 <= x -> x + 1 < msg_cnt cfg ->
  u64_eq_i64 (u64_incr x) (msg_cnt cfg) = false.
Proof.
  intros H0 H1. unfold u64_eq_i64, u64_incr, UINT64_MOD.
  assert (2 ^ 63 < 2 ^ 64) by reflexivity.
  rewrite !Z.mod_small by lia. apply Z.eqb_neq. lia.
Qed.

Lemma at_limit x :
  0 <= x -> x + 1 = msg_cnt cfg ->
  u64_eq_i64 (u64_incr x) (msg_cnt cfg) = true /\ u64_incr x = msg_cnt cfg.
Proof.
  intros H0 H1. unfold u64_eq_i64, u64_incr, UINT64_MOD.
  assert (2 ^ 63 < 2 ^ 64) by reflexivity.
  rewrite !Z.mod_small by lia. split; [apply Z.eqb_eq|]; lia.
Qed.

(** Below the limit every message of a batch is processed. *)
Lemma batch_below_limit msgs : forall w,
  run w = true -> 0 <= rx (stats w) ->
  rx (stats w) + Z.of_nat (length (data msgs)) < msg_cnt cfg ->
  Forall plain msgs ->
  exists w',
    for_each callback msgs w = Done tt w' /\ run w' = true /\
    rx (stats w') = rx (stats w) + Z.of_nat (length (data msgs)) /\
    log w' = log w ++ concat (trace_of <$> msgs).
Proof.
  induction msgs as [|m msgs IH]; intros w Hr H0 Hlt Hok.
  - exists w. cbn. rewrite app_nil_r. repeat split; auto. lia.
  - apply Forall_cons in Hok as [Hm Hok].
    rewrite for_each_cons. unfold bind.
    cbn [fmap list_fmap concat]. unfold trace_of at 1.
    destruct (is_data m) eqn:Hd.
    + rewrite filter_cons_True in * by exact Hd. cbn [length] in *.
      rewrite (consume_cb_data cfg m w Hr Hd). cbv zeta.
      rewrite below_limit by lia.
      match goal with |- context [for_each _ msgs ?w1] =>
        destruct (IH w1) as (w' & Hq & Hr' & Hrx & Hl) end;
        [exact Hr
        |cbn; rewrite u64_incr_small by (unfold UINT64_MOD; lia); lia
        |cbn; rewrite u64_incr_small by (unfold UINT64_MOD; lia); lia
        |exact Hok|].
      exists w'. split; [exact Hq|]. split; [exact Hr'|].
      cbn in Hrx, Hl. rewrite u64_incr_small in Hrx by (unfold UINT64_MOD; lia).
      split; [lia|]. rewrite Hl, <- !app_assoc. reflexivity.
    + rewrite filter_cons_False in * by congruence.
      destruct Hm as [Hm|[He exit_eof_off]]; [congruence|].
      rewrite (consume_cb_eof_plain cfg m w Hr He exit_eof_off).
      destruct (IH (emit (eof_store m) w)) as (w' & Hq & Hr' & Hrx & Hl);
        [exact Hr|exact H0|exact Hlt|exact Hok|].
      exists w'. split; [exact Hq|]. split; [exact Hr'|].
      split; [exact Hrx|]. cbn in Hl. rewrite Hl, <- !app_assoc. reflexivity.
Qed.

(** The ordinary message that meets the limit clears the run flag; what
    follows it in the batch is ignored. *)
Lemma batch_hits_limit pre m post w :
  run w = true -> 0 <= rx (stats w) ->
  rx (stats w) + Z.of_nat (length (data pre)) + 1 = msg_cnt cfg ->
  is_data m = true -> Forall plain pre ->
  exists w',
    for_each callback (pre ++ m :: post) w = Done tt w' /\ run w' = false /\
    rx (stats w') = msg_cnt cfg /\
    log w' = log w ++ concat (trace_of <$> (pre ++ [m])).
Proof.
  intros Hr H0 Heq Hd Hok.
  destruct (batch_below_limit pre w Hr H0 ltac:(lia) Hok)
    as (w1 & Hq & Hr1 & Hrx1 & Hl1).
  rewrite (for_each_app _ _ _ _ _ Hq), for_each_cons. unfold bind.
  rewrite (consume_cb_data cfg m w1 Hr1 Hd). cbv zeta.
  destruct (at_limit (rx (stats w1)) ltac:(lia) ltac:(lia)) as [Hlim Hval].
  rewrite Hlim. rewrite for_each_stopped by reflexivity.
  eexists. split; [reflexivity|]. split; [reflexivity|].
  split; [exact Hval|]. cbn [log set_run set_stats emit].
  rewrite Hl1, fmap_app, concat_app, <- !app_assoc. cbn [fmap list_fmap concat].
  rewrite app_nil_r. unfold trace_of. rewrite Hd. reflexivity.
Qed.

Lemma consume_loop_stopped rounds w :
  run w = false -> consume_loop cfg rounds w = Done tt w.
Proof. intros Hr. destruct rounds; cbn [consume_loop]; rewrite Hr; reflexivity. Qed.

(** The consume loop under a message-count limit. *)
Lemma consume_loop_limit rounds : forall w,
  run w = true -> 0 <= rx (stats w) -> rx (stats w) < msg_cnt cfg ->
  Forall (fun r => forallb quiet (c_poll r) = true) rounds ->
  Forall plain (concat (c_batch <$> rounds)) ->
  msg_cnt cfg
    <= rx (stats w) + Z.of_nat (length (data (concat (c_batch <$> rounds)))) ->
  exists w' pre m post,
    consume_loop cfg rounds w = Done tt w' /\
    concat (c_batch <$> rounds) = pre ++ m :: post /\
    is_data m = true /\
    rx (stats w) + Z.of_nat (length (data pre)) + 1 = msg_cnt cfg /\
    run w' = false /\ rx (stats w') = msg_cnt cfg /\
    log w' = log w ++ concat (trace_of <$> (pre ++ [m])).
Proof.
  induction rounds as [|r rounds IH]; intros w Hr H0 Hlt Hquiet Hok Hge.
  - cbn in Hge. lia.
  - cbn [fmap list_fmap concat] in *.
    apply Forall_cons in Hquiet as [Hq Hquiet].
    apply Forall_app in Hok as [Hokb Hok].
    rewrite filter_app, length_app in Hge.
    cbn [consume_loop]. rewrite Hr. cbn [negb].
    unfold bind at 1. unfold consume_callback_queue.
    destruct (Z_lt_le_dec (rx (stats w) + Z.of_nat (length (data (c_batch r))))
                          (msg_cnt cfg)) as [Hbelow|Hhit].
    + destruct (batch_below_limit (c_batch r) w Hr H0 Hbelow Hokb)
        as (w1 & Hb & Hr1 & Hrx1 & Hl1).
      rewrite Hb. unfold bind at 1.
      destruct (rd_kafka_poll_quiet (c_poll r) w1 Hq) as (w2 & Hp & Hr2 & Hf).
      rewrite Hp. destruct Hf as (_ & Hl2 & _ & _ & _ & _ & _ & Hrx2 & _).
      destruct (IH w2) as (w' & pre & m & post & Hloop & Hsplit & Hd & Hn
                           & Hr' & Hrx' & Hl');
        [congruence|lia|lia|exact Hquiet|exact Hok|lia|].
      exists w', (c_batch r ++ pre), m, post.
      split; [exact Hloop|]. split; [rewrite Hsplit, app_assoc; reflexivity|].
      split; [exact Hd|]. rewrite filter_app, length_app.
      split; [lia|]. split; [exact Hr'|]. split; [exact Hrx'|].
      rewrite Hl', Hl2, Hl1, <- !app_assoc, !fmap_app, !concat_app.
      reflexivity.
    + destruct (split_nth_data (c_batch r)
                  (Z.to_nat (msg_cnt cfg - rx (stats w) - 1)) ltac:(lia))
        as (pre & m & post & Hsplit & Hd & Hn).
      apply (f_equal Z.of_nat) in Hn. rewrite Z2Nat.id in Hn by lia.
      rewrite Hsplit in Hokb. apply Forall_app in Hokb as [Hokpre _].
      destruct (batch_hits_limit pre m post w Hr H0 ltac:(lia) Hd Hokpre)
        as (w1 & Hb & Hr1 & Hrx1 & Hl1).
      rewrite Hsplit, Hb. unfold bind at 1.
      destruct (rd_kafka_poll_quiet (c_poll r) w1 Hq) as (w2 & Hp & Hr2 & Hf).
      rewrite Hp. destruct Hf as (_ & Hl2 & _ & _ & _ & _ & _ & Hrx2 & _).
      rewrite consume_loop_stopped by congruence.
      exists w2, pre, m, (post ++ concat (c_batch <$> rounds)).
      split; [reflexivity|].
      split; [rewrite <- app_assoc; reflexivity|].
      split; [exact Hd|]. split; [lia|]. split; [congruence|].
      split; congruence.
Qed.

End CountLimit.

(** C7: the message-count limit.  With a limit [msg_cnt cfg] of N > 0
    messages:
    (1) whatever the mode, the ordinary message that brings the count to N
        is rendered, has its offset stored, and clears the run flag;
    (2) whatever the mode, once the run flag is cleared the callback does
        nothing for the messages that follow in the batch, and the loop
        asks for no further batch;
    (3) let the consume loop, started with the run flag set and no message
        counted, be served rounds whose polls are quiet and whose batches
        hold ordinary messages and (exit-at-EOF being off) end-of-partition
        markers, at least N ordinary messages in all.  Then the loop
        returns with the run flag cleared; the messages queued are
        [pre ++ m :: post] with [m] the N-th ordinary message; the trace is
        that of [pre] and [m] and nothing else: exactly the first N
        ordinary messages are rendered and have their offset stored, the
        markers among [pre] only have their offset stored and are not
        counted, and nothing of [post] is rendered or stored, whether it
        came in the batch of [m] or later. *)
Theorem message_count_limit cfg :
  0 < msg_cnt cfg < 2 ^ 63 ->
  (forall m w,
     run w = true -> is_data m = true ->
     0 <= rx (stats w) -> rx (stats w) + 1 = msg_cnt cfg ->
     exists w',
       consume_cb cfg m w = Done tt w' /\ run w' = false /\
       rx (stats w') = msg_cnt cfg /\
       log w' = log w ++ [EvOutput m;
                          EvOffsetStore (m_partition m) (m_offset m)]) /\
  (forall msgs rounds w,
     run w = false ->
     consume_callback_queue cfg msgs w = Done tt w /\
     consume_loop cfg rounds w = Done tt w) /\
  (forall rounds w,
     run w = true -> rx (stats w) = 0 ->
     Forall (fun r => forallb quiet (c_poll r) = true) rounds ->
     let queued := concat (c_batch <$> rounds) in
     let ordinary := filter (fun m => is_data m = true) in
     Forall (plain_message cfg) queued ->
     msg_cnt cfg <= Z.of_nat (length (ordinary queued)) ->
     exists w' pre m post evs,
       consume_loop cfg rounds w = Done tt w' /\
       queued = pre ++ m :: post /\ is_data m = true /\
       Z.of_nat (length (ordinary (pre ++ [m]))) = msg_cnt cfg /\
       run w' = false /\ rx (stats w') = msg_cnt cfg /\
       log w' = log w ++ evs /\ evs = concat (trace_of <$> (pre ++ [m])) /\
       rendered evs = ordinary (pre ++ [m]) /\
       rendered evs = take (Z.to_nat (msg_cnt cfg)) (ordinary queued)).
Proof.
  intros Hlim. split; [|split].
  - intros m w Hr Hd H0 Hn.
    rewrite (consume_cb_data cfg m w Hr Hd). cbv zeta.
    destruct (at_limit cfg Hlim (rx (stats w)) H0 Hn) as [-> Hval].
    eexists. split; [reflexivity|]. split; [reflexivity|].
    split; [exact Hval|]. cbn. rewrite <- app_assoc. reflexivity.
  - intros msgs rounds w Hr. split.
    + apply for_each_stopped, Hr.
    + apply consume_loop_stopped, Hr.
  - intros rounds w Hr Hrx Hquiet queued ordinary Hok Hge.
    subst queued ordinary. cbn beta in *.
    destruct (consume_loop_limit cfg Hlim rounds w Hr ltac:(lia) ltac:(lia)
                Hquiet Hok ltac:(lia))
      as (w' & pre & m & post & Hloop & Hsplit & Hd & Hn & Hr' & Hrx' & Hl').
    assert (Hcount : Z.of_nat (length (filter (fun m => is_data m = true)
                                               (pre ++ [m]))) = msg_cnt cfg).
    { rewrite filter_app, length_app.
      rewrite filter_cons_True by exact Hd. rewrite filter_nil.
      cbn [length]. lia. }
    exists w', pre, m, post, (concat (trace_of <$> (pre ++ [m]))).
    repeat (split; [assumption || reflexivity|]).
    split; [apply rendered_trace|].
    rewrite rendered_trace, Hsplit.
    replace (pre ++ m :: post) with ((pre ++ [m]) ++ post)
      by (rewrite <- app_assoc; reflexivity).
    rewrite (filter_app _ (pre ++ [m]) post).
    rewrite <- Hcount, Nat2Z.id. symmetry. apply take_app_length.
Qed.

(** ** The theorems of the consumer at work *)

(** Markers for the partitions 1, 0, 1 again and 2 of a topic of three
    partitions, with an ordinary message in between. *)
Lemma sample_markers_deliverable :
  Forall (deliverable exit_eof_cfg 3)
    [eof_marker 1 5; data_msg 0 0 "a"; eof_marker 0 0; eof_marker 1 5;
     eof_marker 2 7].
Proof.
  repeat (apply Forall_cons; split;
          [first [left; split; reflexivity
                 |right; split; [reflexivity|split; [cbn; lia|left; reflexivity]]]
          |]).
  apply Forall_nil. exact I.
Qed.

(** The count of partitions at end for these markers. *)
Lemma eof_count_distinct_witness :
  part_eof_cnt
    (final_world
       (observe exit_eof_cfg 3
          [eof_marker 1 5; data_msg 0 0 "a"; eof_marker 0 0; eof_marker 1 5;
           eof_marker 2 7] initial_world)) = 3.
Proof.
  destruct (eof_count_distinct exit_eof_cfg 3 initial_world
              [eof_marker 1 5; data_msg 0 0 "a"; eof_marker 0 0;
               eof_marker 1 5; eof_marker 2 7])
    as (_ & Hcnt & _).
  - reflexivity.
  - lia.
  - reflexivity.
  - reflexivity.
  - reflexivity.
  - reflexivity.
  - exact sample_markers_deliverable.
  - rewrite Hcnt. vm_compute. reflexivity.
Defined.

(** The threshold is met by these markers. *)
Lemma eof_threshold_stops_witness :
  exists w w',
    setup_eof exit_eof_cfg 3 initial_world = Done tt w /\
    part_eof_thres w = 3 /\
    consume_callback_queue exit_eof_cfg
      [eof_marker 1 5; data_msg 0 0 "a"; eof_marker 0 0; eof_marker 1 5;
       eof_marker 2 7] w = Done tt w' /\
    run w' = false.
Proof.
  destruct (eof_threshold_stops exit_eof_cfg 3 initial_world
              [eof_marker 1 5; data_msg 0 0 "a"; eof_marker 0 0;
               eof_marker 1 5; eof_marker 2 7])
    as (w & w' & Hs & Hth & Hq & _ & _ & Hiff).
  - reflexivity.
  - lia.
  - reflexivity.
  - reflexivity.
  - reflexivity.
  - reflexivity.
  - exact sample_markers_deliverable.
  - exists w, w'. split; [exact Hs|]. split; [exact Hth|]. split; [exact Hq|].
    apply Hiff. rewrite Hth. vm_compute. discriminate.
Defined.

(** A limit of two messages met in the middle of the first batch. *)
Lemma message_count_limit_witness :
  let rounds :=
    [mkRound [data_msg 0 0 "a"; eof_marker 1 0; data_msg 0 1 "b";
              data_msg 0 2 "c"] [];
     mkRound [data_msg 0 3 "d"] []] in
  exists w',
    consume_loop two_messages_cfg rounds initial_world = Done tt w' /\
    rendered (log w') = [data_msg 0 0 "a"; data_msg 0 1 "b"] /\
    run w' = false.
Proof.
  intros rounds.
  destruct (message_count_limit two_messages_cfg) as (_ & _ & H);
    [split; reflexivity|].
  specialize (H rounds initial_world). cbv zeta in H.
  destruct H as (w' & pre & m & post & evs & Hloop & _ & _ & _ & Hr & _ & Hl
                 & _ & _ & Hren).
  - reflexivity.
  - reflexivity.
  - repeat constructor.
  - repeat (apply Forall_cons; split;
            [first [left; reflexivity|right; split; reflexivity]|]).
    apply Forall_nil. exact I.
  - vm_compute. discriminate.
  - exists w'. split; [exact Hloop|]. split; [|exact Hr].
    change (log initial_world ++ evs) with evs in Hl. rewrite Hl, Hren.
    vm_compute. reflexivity.
Defined.

(** A topic of three partitions, no partition requested: the threshold is
    3; the loop keeps running after the markers of two partitions, also when
    one of them comes twice, and stops at the marker of the third, in
    whatever order they come. *)
Example three_partitions_two_at_end :
  run (final_world (observe exit_eof_cfg 3
                      [eof_marker 0 4; eof_marker 1 9; eof_marker 0 4]
                      initial_world)) = true.
Proof. vm_compute. reflexivity. Qed.

Example three_partitions_all_at_end :
  run (final_world (observe exit_eof_cfg 3
                      [eof_marker 0 4; eof_marker 1 9; eof_marker 2 0]
                      initial_world)) = false /\
  run (final_world (observe exit_eof_cfg 3
                      [eof_marker 2 0; eof_marker 0 4; eof_marker 1 9]
                      initial_world)) = false.
Proof. split; vm_compute; reflexivity. Qed.

(** With a partition requested the threshold is 1. *)
Example requested_partition_at_end :
  let cfg := mkConfig 0 10 0 1 true 0 in
  let w := final_world (observe cfg 3 [eof_marker 1 9] initial_world) in
  part_eof_thres w = 1 /\ run w = false.
Proof. split; vm_compute; reflexivity. Qed.

(** * Further properties *)

(** ** Delimiter specifications *)

Lemma land_255_mod (x : Z) : Z.land x 255 = x mod 256.
Proof. change 255 with (Z.ones 8). rewrite Z.land_ones by lia. reflexivity. Qed.

Lemma ascii_val_range (c : ascii) : 0 <= ascii_val c < 256.
Proof.
  unfold ascii_val. pose proof (N_ascii_bounded c) as H. lia.
Qed.

Lemma hex_digit_range c d : hex_digit c = Some d -> 0 <= d <= 15.
Proof.
  unfold hex_digit. intros H.
  repeat match type of H with
         | (if ?b then _ else _) = _ => destruct b eqn:?
         end; inversion H; subst; lia.
Qed.

Lemma hex_digit_not_space c d : hex_digit c = Some d -> isspace c = false.
Proof.
  unfold hex_digit, isspace. intros H.
  repeat match type of H with
         | (if ?b then _ else _) = _ => destruct b eqn:?
         end; inversion H; subst; lia.
Qed.

Lemma hex_digit_not_x c d :
  hex_digit c = Some d -> (ascii_val c =? 120) || (ascii_val c =? 88) = false.
Proof.
  unfold hex_digit. intros H.
  repeat match type of H with
         | (if ?b then _ else _) = _ => destruct b eqn:?
         end; inversion H; subst; lia.
Qed.

(** A text of hexadecimal digits has no sign and no prefix to skip. *)
Lemma strtoul16_all_hex ds :
  all_hex ds = true ->
  strtoul16 ds = match hex_accum ds 0 with None => ULONG_MAX | Some v => v end.
Proof.
  destruct ds as [|c ds]; [reflexivity|]. cbn [all_hex]. intros H.
  apply andb_prop in H as [Hc Hds]. apply bool_decide_eq_true in Hc as [d Hd].
  unfold strtoul16. cbn [skip_space]. rewrite (hex_digit_not_space c d Hd).
  assert (Hsign : c <> "-"%char /\ c <> "+"%char).
  { split; intros ->; vm_compute in Hd; discriminate. }
  destruct Hsign as [Hm Hp].
  assert (Hx : skip_0x (String c ds) = String c ds).
  { unfold skip_0x. destruct ds as [|x [|e ds]].
    1,2: destruct c as [[] [] [] [] [] [] [] []]; reflexivity.
    cbn [all_hex] in Hds. apply andb_prop in Hds as [Hxd _].
    apply bool_decide_eq_true in Hxd as [dx Hdx].
    rewrite (hex_digit_not_x x dx Hdx). cbn [andb].
    destruct c as [[] [] [] [] [] [] [] []]; reflexivity. }
  destruct c as [[] [] [] [] [] [] [] []]; try congruence; rewrite Hx;
    reflexivity.
Qed.

Lemma hex_number_nonneg ds : all_hex ds = true -> 0 <= hex_number ds.
Proof.
  induction ds as [|c ds IH]; [reflexivity|]. cbn [all_hex hex_number].
  intros H. apply andb_prop in H as [Hc Hds].
  apply bool_decide_eq_true in Hc as [d Hd]. rewrite Hd. cbn [default from_option id].
  pose proof (hex_digit_range c d Hd). specialize (IH Hds).
  pose proof (Z.pow_pos_nonneg 16 (Z.of_nat (String.length ds))
                ltac:(lia) ltac:(lia)).
  assert (0 <= d * 16 ^ Z.of_nat (String.length ds))
    by (apply Z.mul_nonneg_nonneg; lia).
  lia.
Qed.

(** The accumulation of [strtoul] writes the number digit by digit and
    gives up as soon as it exceeds an [unsigned long]. *)
Lemma hex_accum_all_hex ds : forall acc,
  all_hex ds = true -> 0 <= acc <= ULONG_MAX ->
  hex_accum ds acc =
  (let v := acc * 16 ^ Z.of_nat (String.length ds) + hex_number ds in
   if v <=? ULONG_MAX then Some v else None).
Proof.
  induction ds as [|c ds IH]; intros acc H Hacc; cbv zeta.
  - cbn [hex_accum hex_number String.length]. rewrite Z.pow_0_r, Z.mul_1_r, Z.add_0_r.
    destruct (acc <=? ULONG_MAX) eqn:E; [reflexivity|lia].
  - cbn [all_hex] in H. apply andb_prop in H as [Hc Hds].
    apply bool_decide_eq_true in Hc as [d Hd].
    cbn [hex_accum hex_number String.length]. rewrite Hd. cbn [default from_option id].
    pose proof (hex_digit_range c d Hd) as Hr.
    pose proof (hex_number_nonneg ds Hds) as Hn.
    set (k := Z.of_nat (String.length ds)).
    assert (Hk : 1 <= 16 ^ k) by (pose proof (Z.pow_pos_nonneg 16 k); lia).
    replace (Z.of_nat (S (String.length ds))) with (k + 1) by lia.
    rewrite Z.pow_add_r, Z.pow_1_r by lia.
    replace (acc * (16 ^ k * 16) + (d * 16 ^ k + hex_number ds))
      with ((acc * 16 + d) * 16 ^ k + hex_number ds) by ring.
    destruct (ULONG_MAX <? acc * 16 + d) eqn:E.
    + assert (ULONG_MAX < (acc * 16 + d) * 16 ^ k + hex_number ds) by nia.
      destruct (_ <=? ULONG_MAX) eqn:E2; [lia|reflexivity].
    + rewrite IH by (auto; lia). reflexivity.
Qed.

(** X1: the hexadecimal form.  A specification [\x] followed by hexadecimal
    digits only (any number of them, none included) gives the low byte of
    the number written; a number that does not fit 64 bits gives 255. *)
Theorem parse_delim_hex_number cs ds :
  all_hex ds = true ->
  parse_delim cs ("\x" ++ ds) =
  if hex_number ds <=? ULONG_MAX then hex_number ds mod 256 else 255.
Proof.
  intros H. change ("\x" ++ ds)%string with (String "\" (String "x" ds)).
  unfold parse_delim.
  change (has_prefix "\x" (String "\" (String "x" ds))) with true.
  change (drop_chars (String.length "\x") (String "\" (String "x" ds))) with ds.
  cbv iota.
  rewrite strtoul16_all_hex, hex_accum_all_hex by (auto; unfold ULONG_MAX; lia).
  cbv zeta. rewrite Z.mul_0_l, Z.add_0_l.
  destruct (hex_number ds <=? ULONG_MAX); [apply land_255_mod|reflexivity].
Qed.

(** Two digits, and seventeen. *)
Lemma parse_delim_hex_number_witness :
  parse_delim true "\x7C" = 124 /\
  parse_delim true "\x10000000000000041" = 255.
Proof.
  split.
  - apply (parse_delim_hex_number true "7C"). reflexivity.
  - apply (parse_delim_hex_number true "10000000000000041"). reflexivity.
Defined.

Lemma hex_spec_table cs upper :
  forallb (fun n => parse_delim cs (hex_spec upper n) =? n) (seqZ 0 256) = true.
Proof. destruct cs, upper; vm_compute; reflexivity. Qed.

(** X2: every byte value can be given in the form [\xNN], with the digits
    in either case: the parser gives back the value that was written. *)
Theorem parse_delim_hex_roundtrip cs upper n :
  0 <= n < 256 -> parse_delim cs (hex_spec upper n) = n.
Proof.
  intros Hn. pose proof (hex_spec_table cs upper) as H.
  rewrite forallb_forall in H. apply Z.eqb_eq, H.
  apply list_elem_of_In, elem_of_seqZ. lia.
Qed.

Lemma parse_delim_hex_roundtrip_witness :
  hex_spec false 171 = "\xab"%string /\ parse_delim true "\xab" = 171.
Proof.
  split; [reflexivity|].
  apply (parse_delim_hex_roundtrip true false 171). lia.
Defined.

(** X3: outside the three escapes the first character is the delimiter.
    A specification that does not start with [\x] and is neither [\n] nor
    [\t] gives the code of its first character, whatever follows it and
    whether [char] is signed or not.  So an escape the parser does not know,
    such as [\r] or [\0], gives the backslash. *)
Theorem parse_delim_first_character cs c rest :
  (forall ds, String c rest <> ("\x" ++ ds)%string) ->
  String c rest <> "\n"%string -> String c rest <> "\t"%string ->
  parse_delim cs (String c rest) = ascii_val c.
Proof.
  intros Hx Hn Ht. unfold parse_delim.
  assert (Hp : has_prefix "\x" (String c rest) = false).
  { destruct (has_prefix "\x" (String c rest)) eqn:E; [|reflexivity].
    exfalso. cbn [has_prefix] in E.
    destruct (Ascii.eqb_spec "\"%char c) as [<-|]; [|discriminate].
    destruct rest as [|x rest]; [discriminate|].
    destruct (Ascii.eqb_spec "x"%char x) as [<-|]; [|discriminate].
    apply (Hx rest). reflexivity. }
  rewrite Hp.
  apply String.eqb_neq in Hn, Ht. rewrite Hn, Ht. cbn [deref].
  rewrite land_255_mod. pose proof (ascii_val_range c) as Hr.
  unfold char_to_int. destruct (cs && (128 <=? ascii_val c)).
  - replace (ascii_val c - 256) with (ascii_val c + (-1) * 256) by ring.
    rewrite Z_mod_plus_full. apply Z.mod_small. lia.
  - apply Z.mod_small. lia.
Qed.

Lemma parse_delim_first_character_witness :
  parse_delim true "\r" = 92 /\ parse_delim true "ab" = 97.
Proof.
  split.
  - apply (parse_delim_first_character true "\"%char "r").
    + intros ds. discriminate.
    + discriminate.
    + discriminate.
  - apply (parse_delim_first_character true "a"%char "b").
    + intros ds. discriminate.
    + discriminate.
    + discriminate.
Defined.

(** ** Events served by a poll *)

Lemma u64_add_0 x : 0 <= x < UINT64_MOD -> u64_add x 0 = x.
Proof. intros H. unfold u64_add. rewrite Z.add_0_r. apply Z.mod_small, H. Qed.

Lemma u64_add_incr x n : u64_add (u64_incr x) n = u64_add x (S n).
Proof.
  unfold u64_add, u64_incr. rewrite Zplus_mod_idemp_l. f_equal. lia.
Qed.

Lemma u64_incr_range x : 0 <= u64_incr x < UINT64_MOD.
Proof. unfold u64_incr. apply Z.mod_pos_bound. reflexivity. Qed.

(** X4: delivery reports.  For every poll that returns, each successful
    delivery report has advanced the counter of delivered messages by one
    and each failed one the counter of delivery failures (64-bit counters,
    wrapping); the run flag is what it was unless a signal was among the
    events, which clears it; no event was the all-brokers-down error; and
    nothing else has changed. *)
Theorem poll_delivery_accounting evs w w' :
  0 <= tx_delivered (stats w) < UINT64_MOD ->
  0 <= tx_err_dr (stats w) < UINT64_MOD ->
  rd_kafka_poll evs w = Done tt w' ->
  tx_delivered (stats w')
  = u64_add (tx_delivered (stats w))
            (length (filter (fun e => delivery_ok e = true) evs)) /\
  tx_err_dr (stats w')
  = u64_add (tx_err_dr (stats w))
            (length (filter (fun e => delivery_failed e = true) evs)) /\
  run w' = run w && negb (existsb is_signal evs) /\
  existsb brokers_down evs = false /\
  poll_frame w w'.
Proof.
  intros Hd He H.
  pose proof (rd_kafka_poll_frame evs w) as Hf. rewrite H in Hf.
  cbn [final_world] in Hf.
  cut (tx_delivered (stats w')
       = u64_add (tx_delivered (stats w))
                 (length (filter (fun e => delivery_ok e = true) evs)) /\
       tx_err_dr (stats w')
       = u64_add (tx_err_dr (stats w))
                 (length (filter (fun e => delivery_failed e = true) evs)) /\
       run w' = run w && negb (existsb is_signal evs) /\
       existsb brokers_down evs = false); [tauto|].
  clear Hf. revert w Hd He H.
  induction evs as [|e evs IH]; intros w Hd He H.
  - injection H as <-. rewrite filter_nil. cbn [length existsb negb].
    rewrite !u64_add_0, andb_true_r by assumption. auto.
  - rewrite poll_cons in H. unfold bind in H.
    destruct e as [err|err|]; cbn [serve] in H.
    + unfold dr_msg_cb in H. cbn [existsb is_signal brokers_down orb].
      destruct (err =? 0) eqn:E; cbn [negb] in H; unfold modify in H;
        apply IH in H; cbn [stats set_stats incr_tx_delivered incr_tx_err_dr
                              tx_delivered tx_err_dr run set_run] in *;
        try (apply u64_incr_range); try assumption;
        destruct H as (H1 & H2 & H3 & H4).
      * rewrite filter_cons_True by (cbn; exact E).
        rewrite filter_cons_False by (cbn; rewrite E; discriminate).
        cbn [length]. rewrite <- u64_add_incr. auto.
      * rewrite filter_cons_False by (cbn; rewrite E; discriminate).
        rewrite filter_cons_True by (cbn; rewrite E; reflexivity).
        cbn [length]. rewrite <- u64_add_incr. auto.
    + unfold error_cb in H. cbn [existsb is_signal brokers_down orb].
      destruct (err =? RD_KAFKA_RESP_ERR__ALL_BROKERS_DOWN) eqn:E;
        [discriminate|].
      unfold ret in H. apply IH in H; [|assumption..]. exact H.
    + unfold term, modify in H. apply IH in H; [|assumption..].
      cbn [run set_run stats] in H. destruct H as (H1 & H2 & H3 & H4).
      rewrite !filter_cons_False by (cbn; discriminate).
      cbn [existsb is_signal brokers_down orb negb].
      rewrite andb_false_r. auto.
Qed.

(** Two reports of success, one of failure, then a signal. *)
Lemma poll_delivery_accounting_witness :
  let w' := final_world (rd_kafka_poll [AsDelivery 0; AsDelivery (-192);
                                        AsDelivery 0; AsSignal] initial_world) in
  tx_delivered (stats w') = 2 /\ tx_err_dr (stats w') = 1 /\ run w' = false.
Proof.
  intros w'.
  destruct (poll_delivery_accounting
              [AsDelivery 0; AsDelivery (-192); AsDelivery 0; AsSignal]
              initial_world w') as (H1 & H2 & H3 & _).
  - split; reflexivity.
  - split; reflexivity.
  - reflexivity.
  - rewrite H1, H2, H3. repeat split; reflexivity.
Defined.

Lemma rd_kafka_poll_up evs : forall w,
  existsb brokers_down evs = false -> exists w', rd_kafka_poll evs w = Done tt w'.
Proof.
  induction evs as [|e evs IH]; intros w H; [exists w; reflexivity|].
  cbn [existsb] in H. apply orb_false_elim in H as [He H].
  rewrite poll_cons. unfold bind.
  destruct e as [err|err|]; cbn [serve brokers_down] in *.
  - unfold dr_msg_cb, modify. destruct (negb (err =? 0)); apply IH, H.
  - unfold error_cb. rewrite He. apply IH, H.
  - apply IH, H.
Qed.

(** X5: the error callback.  A poll returns exactly when none of its events
    is the all-brokers-down error.  At the first event that is, the process
    exits with status 1: the events before it have been served and those
    after it are not.  Any other error report changes nothing. *)
Theorem poll_brokers_down evs w :
  (existsb brokers_down evs = false ->
   exists w', rd_kafka_poll evs w = Done tt w') /\
  (forall pre e post,
     evs = pre ++ e :: post ->
     existsb brokers_down pre = false -> brokers_down e = true ->
     exists w1, rd_kafka_poll pre w = Done tt w1 /\
                rd_kafka_poll evs w = Exited 1 w1) /\
  (forall err, err <> RD_KAFKA_RESP_ERR__ALL_BROKERS_DOWN ->
     rd_kafka_poll (AsError err :: evs) w = rd_kafka_poll evs w).
Proof.
  split; [apply rd_kafka_poll_up|split].
  - intros pre e post -> Hpre He.
    destruct (rd_kafka_poll_up pre w Hpre) as (w1 & Hw1).
    exists w1. split; [exact Hw1|].
    unfold rd_kafka_poll in *. rewrite (for_each_app _ _ _ _ _ Hw1).
    rewrite for_each_cons. unfold bind.
    destruct e as [err|err|]; cbn [brokers_down] in He; try discriminate.
    cbn [serve]. unfold error_cb. rewrite He. reflexivity.
  - intros err Hne. rewrite poll_cons. unfold bind. cbn [serve].
    unfold error_cb. apply Z.eqb_neq in Hne. rewrite Hne. reflexivity.
Qed.

Lemma poll_brokers_down_witness :
  rd_kafka_poll [AsDelivery 0; AsError RD_KAFKA_RESP_ERR__ALL_BROKERS_DOWN;
                 AsDelivery 0] initial_world
  = Exited 1 (set_stats (mkStats 0 0 0 1 0) initial_world).
Proof.
  destruct (poll_brokers_down
              [AsDelivery 0; AsError RD_KAFKA_RESP_ERR__ALL_BROKERS_DOWN;
               AsDelivery 0] initial_world) as (_ & H & _).
  destruct (H [AsDelivery 0] (AsError RD_KAFKA_RESP_ERR__ALL_BROKERS_DOWN)
              [AsDelivery 0]) as (w1 & H1 & H2).
  - reflexivity.
  - reflexivity.
  - reflexivity.
  - rewrite H2. f_equal. injection H1 as <-. reflexivity.
Defined.

(** ** The read loop of the producer, continued *)

Lemma teed_app evs1 evs2 : teed (evs1 ++ evs2) = teed evs1 ++ teed evs2.
Proof.
  induction evs1 as [|e evs1 IH]; [reflexivity|].
  destruct e; cbn; rewrite IH; reflexivity.
Qed.

Lemma teed_cons e evs : teed (e :: evs) = teed [e] ++ teed evs.
Proof. exact (teed_app [e] evs). Qed.

Lemma chunks_read_cons e evs :
  chunks_read (e :: evs) = chunks_read [e] ++ chunks_read evs.
Proof. exact (chunks_read_app [e] evs). Qed.

Lemma payloads_sent_cons e evs :
  payloads_sent (e :: evs) = payloads_sent [e] ++ payloads_sent evs.
Proof. exact (payloads_sent_app [e] evs). Qed.

Section Stream.
Variable cs : bool.
Variables KEY_DELIM TEE NULL : Z.
Variable cfg : config.

Local Abbreviation frame := (frame_line cs KEY_DELIM TEE NULL cfg).
Local Abbreviation body := (loop_body cs KEY_DELIM TEE NULL cfg).
Local Abbreviation loop := (stream_loop cs KEY_DELIM TEE NULL cfg).
Local Abbreviation rlen := (record_len cs cfg).
Local Abbreviation tee := (flag_set (flags cfg) TEE).
Local Abbreviation sent := (sendable cs cfg).

Lemma frame_line_sendable chunk :
  frame chunk (length chunk) = None <-> sent chunk = false.
Proof.
  rewrite frame_line_eq. unfold sendable.
  destruct (rlen chunk =? 0)%nat; cbn; split; congruence.
Qed.

(** One iteration of the read loop. *)
Lemma stream_loop_step r reads b fp lb w :
  run w = true ->
  loop (r :: reads) (b :: fp) lb w =
  bind (loop_body cs KEY_DELIM TEE NULL cfg r
          (fst (read_until (delim cfg) (b :: fp)))
          (mkLinebuf (Some (fst (read_until (delim cfg) (b :: fp))))
             (Nat.max (size lb)
                (S (length (fst (read_until (delim cfg) (b :: fp))))))))
       (fun lb' => loop reads (snd (read_until (delim cfg) (b :: fp))) lb')
       ((if r_signal r then set_run false else id)
          (emit (EvRead (bool_decide (sbuf lb = None))
                        (fst (read_until (delim cfg) (b :: fp)))) w)).
Proof.
  intros Hr. cbn [stream_loop]. rewrite Hr. cbn [negb getdelim].
  destruct (read_until (delim cfg) (b :: fp)) as [chunk fp'].
  cbn [fst snd]. unfold bind, modify, term, ret.
  destruct (r_signal r); reflexivity.
Qed.

Lemma stream_loop_stopped reads fp lb w :
  run w = false -> loop reads fp lb w = Done (fp, lb) w.
Proof. intros Hr. destruct reads; cbn [stream_loop]; rewrite Hr; reflexivity. Qed.

Lemma stream_loop_eof reads lb w : loop reads [] lb w = Done ([], lb) w.
Proof. destruct reads; cbn [stream_loop]; destruct (run w); reflexivity. Qed.

(** An iteration that returns: either the record was empty and nothing
    happened, or the run flag was set and the record was sent once and
    counted once, the chunk echoed in tee mode, and the run flag cleared if
    the count of messages sent met the limit. *)
Lemma loop_body_counts r chunk lb w lb' w' :
  body r chunk lb w = Done lb' w' ->
  (sent chunk = false /\ w' = w /\ lb' = lb) \/
  (sent chunk = true /\ run w = true /\
   exitcode w' = exitcode w /\
   tx (stats w') = u64_incr (tx (stats w)) /\
   (u64_eq_i64 (tx (stats w')) (msg_cnt cfg) = true -> run w' = false) /\
   exists e, log w' = log w ++ e :: (if tee then [EvTee chunk] else []) /\
             length (payloads_sent [e]) = 1%nat /\ chunks_read [e] = [] /\
             teed [e] = []).
Proof.
  intros H. destruct (frame chunk (length chunk)) as [v|] eqn:Hv.
  2:{ left. rewrite (loop_body_skip _ _ _ _ _ r chunk lb w Hv) in H.
      injection H as <- <-. split; [|auto]. apply frame_line_sendable, Hv. }
  right.
  assert (Hs : sent chunk = true).
  { destruct (sent chunk) eqn:E; [reflexivity|].
    apply frame_line_sendable in E. congruence. }
  split; [exact Hs|].
  assert (Hr : run w = true).
  { destruct (run w) eqn:Hr; [reflexivity|]. exfalso.
    unfold loop_body in H. rewrite Hv in H. unfold bind at 1 in H.
    rewrite produce_not_running in H by exact Hr. discriminate. }
  split; [exact Hr|].
  destruct (loop_body_done _ _ _ _ _ r chunk lb w lb' w' v Hv H) as (Hl & _ & He).
  split; [exact He|].
  unfold loop_body in H. rewrite Hv in H. unfold bind at 1 in H.
  destruct (produce _ _ _ _ _ _ w) as [[] w1|?|?|?] eqn:Hp; try discriminate.
  apply produce_done_inv in Hp as (_ & _ & _ & _ & _ & _ & _ & _ & Htx & _).
  assert (Hcnt : tx (stats w') = tx (stats w1) /\
                 (u64_eq_i64 (tx (stats w')) (msg_cnt cfg) = true ->
                  run w' = false)).
  { unfold bind at 1 in H.
    destruct tee.
    - destruct (r_tee_fails r); munfold; [discriminate|].
      cbn in H. destruct (u64_eq_i64 _ _) eqn:E; cbn in H;
        injection H as <- <-; cbn; split; auto; congruence.
    - munfold. cbn in H. destruct (u64_eq_i64 _ _) eqn:E; cbn in H;
        injection H as <- <-; cbn; split; auto; congruence. }
  destruct Hcnt as (Htx' & Hlim).
  split; [congruence|]. split; [exact Hlim|].
  eexists. split; [exact Hl|]. repeat split.
Qed.

(** One run of the read loop that returns, for any configuration: what was
    read, what was sent and echoed, and the counter of messages sent. *)
Lemma stream_loop_trace reads : forall fp lb w rest lb' w',
  loop reads fp lb w = Done (rest, lb') w' ->
  exists evs,
    log w' = log w ++ evs /\
    concat (chunks_read evs) ++ rest = fp /\
    exitcode w' = exitcode w /\
    teed evs = (if tee then filter (fun c => sent c = true) (chunks_read evs)
                else []) /\
    length (payloads_sent evs)
    = length (filter (fun c => sent c = true) (chunks_read evs)) /\
    tx (stats w') = Nat.iter (length (payloads_sent evs)) u64_incr (tx (stats w)) /\
    (run w' = true -> rest = []).
Proof.
  induction reads as [|r reads IH]; intros fp lb w rest lb' w' H.
  - cbn [stream_loop] in H. destruct (run w) eqn:Hr; cbn [negb] in H.
    + destruct fp as [|b fp]; cbn [getdelim] in H;
        [|destruct (read_until _ _); discriminate].
      injection H as <- <- <-. exists []. rewrite app_nil_r.
      destruct tee; repeat split; auto.
    + injection H as <- <- <-. exists []. rewrite app_nil_r.
      destruct tee; repeat split; auto; congruence.
  - destruct (run w) eqn:Hr.
    2:{ rewrite stream_loop_stopped in H by exact Hr.
        injection H as <- <- <-. exists []. rewrite app_nil_r.
        destruct tee; repeat split; auto; congruence. }
    destruct fp as [|b fp].
    { rewrite stream_loop_eof in H. injection H as <- <- <-.
      exists []. rewrite app_nil_r. destruct tee; repeat split; auto. }
    rewrite stream_loop_step in H by exact Hr.
    destruct (read_until (delim cfg) (b :: fp)) as [chunk fp'] eqn:Hread.
    apply read_until_app in Hread. cbn [fst snd] in H.
    set (fresh := bool_decide (sbuf lb = None)) in *.
    set (w1 := (if r_signal r then set_run false else id) _) in H.
    assert (Hw1 : log w1 = log w ++ [EvRead fresh chunk] /\
                  exitcode w1 = exitcode w /\ stats w1 = stats w).
    { subst w1. destruct (r_signal r); repeat split. }
    destruct Hw1 as (Hl1 & He1 & Hs1).
    unfold bind at 1 in H.
    destruct (loop_body _ _ _ _ _ r chunk _ w1) as [lb1 w2|?|?|?] eqn:Hb;
      try discriminate.
    destruct (IH _ _ _ _ _ _ H) as (evs & Hl & Hcat & He & Ht & Hn & Htx & Hrest).
    apply loop_body_counts in Hb
      as [(Hs & -> & ->)|(Hs & _ & He2 & Htx2 & _ & e & Hl2 & Hp & Hc & Hte)].
    + exists (EvRead fresh chunk :: evs).
      cbn [chunks_read teed payloads_sent concat].
      rewrite filter_cons_False by congruence.
      repeat split; try assumption.
      * rewrite Hl, Hl1, <- app_assoc. reflexivity.
      * rewrite <- app_assoc, Hcat. exact Hread.
      * congruence.
      * rewrite Htx, Hs1. reflexivity.
    + exists (EvRead fresh chunk :: e :: (if tee then [EvTee chunk] else []) ++ evs).
      assert (Hcr : chunks_read (e :: (if tee then [EvTee chunk] else []) ++ evs)
                    = chunks_read evs).
      { rewrite chunks_read_cons, chunks_read_app, Hc.
        destruct tee; reflexivity. }
      assert (Hps : payloads_sent (e :: (if tee then [EvTee chunk] else []) ++ evs)
                    = payloads_sent [e] ++ payloads_sent evs).
      { rewrite payloads_sent_cons, payloads_sent_app.
        destruct tee; reflexivity. }
      assert (Htd : teed (e :: (if tee then [EvTee chunk] else []) ++ evs)
                    = (if tee then [chunk] else []) ++ teed evs).
      { rewrite teed_cons, teed_app, Hte.
        destruct tee; reflexivity. }
      change (chunks_read (EvRead fresh chunk :: ?l))
        with (chunk :: chunks_read l).
      change (teed (EvRead fresh chunk :: ?l)) with (teed l).
      change (payloads_sent (EvRead fresh chunk :: ?l)) with (payloads_sent l).
      rewrite Hcr, Hps, Htd. cbn [concat].
      rewrite filter_cons_True by exact Hs.
      repeat split.
      * rewrite Hl, Hl2, Hl1, <- !app_assoc. reflexivity.
      * rewrite <- app_assoc, Hcat. exact Hread.
      * congruence.
      * rewrite Ht. destruct tee; reflexivity.
      * rewrite length_app, Hp, Hn. reflexivity.
      * rewrite length_app, Hp, Htx, Htx2, Hs1. cbn [Nat.add length].
        rewrite Nat.iter_succ_r. reflexivity.
      * exact Hrest.
Qed.

(** X6: tee mode.  For every run of the read loop that returns, the chunks
    echoed on standard output are, in order, the chunks whose record was
    sent, each as it was read (delimiter included): empty records are not
    echoed, and nothing is echoed with tee mode off.  When the write of the
    echo fails the process exits with status 1, the message having been
    sent already. *)
Theorem tee_echo :
  (forall reads fp lb w rest lb' w',
     loop reads fp lb w = Done (rest, lb') w' ->
     exists evs,
       log w' = log w ++ evs /\
       concat (chunks_read evs) ++ rest = fp /\
       teed evs = (if tee then filter (fun c => sent c = true) (chunks_read evs)
                   else [])) /\
  (forall r chunk lb w,
     tee = true -> r_tee_fails r = true -> r_attempts r = [accepted] ->
     run w = true -> sent chunk = true ->
     exists w' buf len key key_len msgflags,
       body r chunk lb w = Exited 1 w' /\
       log w' = log w ++ [EvProduce buf len key key_len msgflags]).
Proof.
  split.
  - intros reads fp lb w rest lb' w' H.
    destruct (stream_loop_trace reads fp lb w rest lb' w' H)
      as (evs & Hl & Hcat & _ & Ht & _).
    exists evs. auto.
  - intros r chunk lb w Ht Hf Ha Hr Hs.
    destruct (frame chunk (length chunk)) as [v|] eqn:Hv.
    2:{ apply frame_line_sendable in Hv. congruence. }
    unfold loop_body. rewrite Hv, Ha. unfold bind at 1.
    rewrite produce_accepted by exact Hr.
    unfold bind at 1. rewrite Ht, Hf. unfold FATAL.
    eexists _, _, _, _, _, _. split; reflexivity.
Qed.

(** X7: a signal during a read.  When a termination signal arrives while
    the loop waits for the next chunk, the chunk that is then read is not
    sent: if its record is not empty the process exits with status 1 (the
    send finds the run flag cleared), and if it is empty the loop ends and
    returns, leaving the rest of the input unread. *)
Theorem signal_during_read r reads b fp lb w :
  r_signal r = true -> run w = true ->
  let chunk := fst (read_until (delim cfg) (b :: fp)) in
  let rest := snd (read_until (delim cfg) (b :: fp)) in
  let w1 := set_run false
              (emit (EvRead (bool_decide (sbuf lb = None)) chunk) w) in
  loop (r :: reads) (b :: fp) lb w =
  if sent chunk then Exited 1 w1
  else Done (rest, mkLinebuf (Some chunk)
                     (Nat.max (size lb) (S (length chunk)))) w1.
Proof.
  intros Hsig Hr chunk rest w1.
  rewrite stream_loop_step by exact Hr. rewrite Hsig.
  fold chunk rest w1. unfold bind.
  destruct (sent chunk) eqn:Hs.
  - destruct (frame chunk (length chunk)) as [v|] eqn:Hv.
    2:{ apply frame_line_sendable in Hv. congruence. }
    unfold loop_body. rewrite Hv. unfold bind at 1.
    rewrite produce_not_running by reflexivity. reflexivity.
  - apply frame_line_sendable in Hs.
    rewrite (loop_body_skip _ _ _ _ _ r chunk _ w1 Hs).
    apply stream_loop_stopped. reflexivity.
Qed.

(** *** The message-count limit of the producer *)

(** An iteration on a plain read: the run flag is cleared exactly when a
    record was sent and the count met the limit. *)
Lemma loop_body_plain_run chunk lb w :
  run w = true ->
  exists lb' w',
    body plain_read chunk lb w = Done lb' w' /\
    run w' = negb (sent chunk
                   && u64_eq_i64 (u64_incr (tx (stats w))) (msg_cnt cfg)).
Proof.
  intros Hr. unfold loop_body.
  destruct (frame chunk (length chunk)) as [v|] eqn:Hv.
  2:{ apply frame_line_sendable in Hv. rewrite Hv.
      exists lb, w. split; [reflexivity|exact Hr]. }
  assert (Hs : sent chunk = true).
  { destruct (sent chunk) eqn:E; [reflexivity|].
    apply frame_line_sendable in E. congruence. }
  rewrite Hs. cbn [andb].
  unfold bind at 1. cbn [plain_read r_attempts r_tee_fails].
  rewrite produce_accepted by exact Hr.
  destruct tee; unfold bind, get, modify, ret;
    cbn [stats set_stats emit incr_tx tx];
    destruct (u64_eq_i64 _ _); eexists _, _; (split; [reflexivity|]); cbn;
    auto.
Qed.

Section Limit.
Hypothesis limit : 0 < msg_cnt cfg < 2 ^ 63.

Lemma u64_eq_limit x :
  0 <= x < UINT64_MOD -> u64_eq_i64 x (msg_cnt cfg) = (x =? msg_cnt cfg).
Proof.
  intros Hx. unfold u64_eq_i64. rewrite Z.mod_small; [reflexivity|].
  unfold UINT64_MOD. lia.
Qed.

Lemma stream_loop_limit reads : forall fp lb w rest lb' w',
  0 <= tx (stats w) <= msg_cnt cfg ->
  (tx (stats w) = msg_cnt cfg -> run w = false) ->
  loop reads fp lb w = Done (rest, lb') w' ->
  exists evs,
    log w' = log w ++ evs /\
    tx (stats w') = tx (stats w) + Z.of_nat (length (payloads_sent evs)) /\
    tx (stats w') <= msg_cnt cfg /\
    (tx (stats w') = msg_cnt cfg -> run w' = false) /\
    (run w = false -> evs = []) /\
    (tx (stats w) < tx (stats w') -> tx (stats w') = msg_cnt cfg ->
     exists cs0 c, chunks_read evs = cs0 ++ [c] /\ sent c = true).
Proof.
  assert (Hnil : forall w, 0 <= tx (stats w) <= msg_cnt cfg ->
            (tx (stats w) = msg_cnt cfg -> run w = false) ->
            exists evs : list event,
              log w = log w ++ evs /\
              tx (stats w) = tx (stats w) + Z.of_nat (length (payloads_sent evs)) /\
              tx (stats w) <= msg_cnt cfg /\
              (tx (stats w) = msg_cnt cfg -> run w = false) /\
              (run w = false -> evs = []) /\
              (tx (stats w) < tx (stats w) -> tx (stats w) = msg_cnt cfg ->
               exists cs0 c, chunks_read evs = cs0 ++ [c] /\ sent c = true)).
  { intros w H0 H1. exists []. rewrite app_nil_r. cbn.
    repeat split; auto; lia. }
  induction reads as [|r reads IH]; intros fp lb w rest lb' w' H0 H1 H.
  - destruct (bool_dec (run w) true) as [Hr|Hr].
    + cbn [stream_loop] in H. rewrite Hr in H. cbn [negb] in H.
      destruct fp as [|b fp]; cbn [getdelim] in H;
        [|destruct (read_until _ _); discriminate].
      injection H as <- <- <-. apply Hnil; auto.
    + apply not_true_is_false in Hr.
      rewrite stream_loop_stopped in H by exact Hr.
      injection H as <- <- <-. apply Hnil; auto.
  - destruct (bool_dec (run w) true) as [Hr|Hr].
    2:{ apply not_true_is_false in Hr.
        rewrite stream_loop_stopped in H by exact Hr.
        injection H as <- <- <-. apply Hnil; auto. }
    destruct fp as [|b fp].
    { rewrite stream_loop_eof in H. injection H as <- <- <-.
      apply Hnil; auto. }
    assert (Hlt : tx (stats w) < msg_cnt cfg).
    { destruct (Z.eq_dec (tx (stats w)) (msg_cnt cfg)) as [E|E]; [|lia].
      specialize (H1 E). congruence. }
    rewrite stream_loop_step in H by exact Hr.
    set (chunk := fst (read_until (delim cfg) (b :: fp))) in *.
    set (fresh := bool_decide (sbuf lb = None)) in *.
    set (w1 := (if r_signal r then set_run false else id) _) in H.
    assert (Hw1 : log w1 = log w ++ [EvRead fresh chunk] /\ stats w1 = stats w).
    { subst w1. destruct (r_signal r); repeat split. }
    destruct Hw1 as (Hl1 & Hs1).
    unfold bind at 1 in H.
    destruct (loop_body _ _ _ _ _ r chunk _ w1) as [lb1 w2|?|?|?] eqn:Hb;
      try discriminate.
    apply loop_body_counts in Hb
      as [(Hs & -> & ->)|(Hs & _ & _ & Htx2 & Hlim & e & Hl2 & Hp & Hc & Hte)].
    + assert (Hr1 : 0 <= tx (stats w1) <= msg_cnt cfg) by (rewrite Hs1; lia).
      assert (Hstop1 : tx (stats w1) = msg_cnt cfg -> run w1 = false)
        by (rewrite Hs1; lia).
      destruct (IH _ _ _ _ _ _ Hr1 Hstop1 H)
        as (evs & Hl & Htx & Hle & Hstop & _ & Hlast).
      exists (EvRead fresh chunk :: evs). rewrite Hs1 in *.
      cbn [chunks_read payloads_sent].
      repeat split; try assumption.
      * rewrite Hl, Hl1, <- app_assoc. reflexivity.
      * congruence.
      * intros Hlt' HN. destruct (Hlast Hlt' HN) as (cs0 & c & -> & Hc).
        exists (chunk :: cs0), c. auto.
    + rewrite Hs1 in Htx2.
      assert (Htx2' : tx (stats w2) = tx (stats w) + 1).
      { rewrite Htx2. apply u64_incr_small; unfold UINT64_MOD; lia. }
      assert (Hstop2 : tx (stats w2) = msg_cnt cfg -> run w2 = false).
      { intros E. apply Hlim. rewrite u64_eq_limit by (unfold UINT64_MOD; lia).
        apply Z.eqb_eq, E. }
      assert (Hr2 : 0 <= tx (stats w2) <= msg_cnt cfg) by lia.
      destruct (IH _ _ _ _ _ _ Hr2 Hstop2 H)
        as (evs & Hl & Htx & Hle & Hstop & Hnone & Hlast).
      exists (EvRead fresh chunk :: e :: (if tee then [EvTee chunk] else []) ++ evs).
      assert (Hcr : chunks_read (e :: (if tee then [EvTee chunk] else []) ++ evs)
                    = chunks_read evs).
      { rewrite chunks_read_cons, chunks_read_app, Hc.
        destruct tee; reflexivity. }
      assert (Hps : payloads_sent (e :: (if tee then [EvTee chunk] else []) ++ evs)
                    = payloads_sent [e] ++ payloads_sent evs).
      { rewrite payloads_sent_cons, payloads_sent_app.
        destruct tee; reflexivity. }
      change (chunks_read (EvRead fresh chunk :: ?l))
        with (chunk :: chunks_read l).
      change (payloads_sent (EvRead fresh chunk :: ?l)) with (payloads_sent l).
      rewrite Hcr, Hps, length_app, Hp.
      repeat split; try assumption.
      * rewrite Hl, Hl2, Hl1, <- !app_assoc. reflexivity.
      * lia.
      * congruence.
      * intros _ HN.
        destruct (Z.eq_dec (tx (stats w2)) (msg_cnt cfg)) as [E|E].
        -- rewrite (Hnone (Hstop2 E)). exists [], chunk. auto.
        -- destruct (Hlast ltac:(lia) HN) as (cs0 & c & -> & Hc').
           exists (chunk :: cs0), c. auto.
Qed.

Lemma stream_loop_plain n : forall fp lb w,
  (length fp <= n)%nat -> run w = true -> 0 <= tx (stats w) < msg_cnt cfg ->
  exists rest lb' w',
    loop (repeat plain_read n) fp lb w = Done (rest, lb') w' /\
    (run w' = false -> tx (stats w') = msg_cnt cfg) /\
    (run w' = true -> rest = []).
Proof.
  induction n as [|n IH]; intros fp lb w Hlen Hr Htx.
  - destruct fp; [|cbn in Hlen; lia].
    exists [], lb, w. cbn [repeat]. rewrite stream_loop_eof.
    split; [reflexivity|]. split; [congruence|auto].
  - destruct fp as [|b fp].
    { exists [], lb, w. rewrite stream_loop_eof.
      split; [reflexivity|]. split; [congruence|auto]. }
    cbn [repeat]. rewrite stream_loop_step by exact Hr.
    pose proof (read_until_shorter (delim cfg) b fp) as Hshort.
    destruct (read_until (delim cfg) (b :: fp)) as [chunk fp'].
    specialize (Hshort chunk fp' eq_refl). cbn [fst snd length] in *.
    change (r_signal plain_read) with false. cbv iota. unfold id.
    set (w1 := emit _ w). set (lb1 := mkLinebuf _ _).
    destruct (loop_body_plain_run chunk lb1 w1 Hr) as (lb2 & w2 & Hb & Hrun).
    pose proof Hb as Hcnt. apply loop_body_counts in Hcnt.
    unfold bind. rewrite Hb.
    change (tx (stats w1)) with (tx (stats w)) in Hrun.
    rewrite u64_incr_small in Hrun by (unfold UINT64_MOD; lia).
    rewrite u64_eq_limit in Hrun by (unfold UINT64_MOD; lia).
    destruct Hcnt as [(Hs & -> & ->)|(Hs & _ & _ & Htx2 & _)].
    + apply IH; [lia|exact Hr|exact Htx].
    + change (tx (stats w1)) with (tx (stats w)) in Htx2.
      rewrite u64_incr_small in Htx2 by (unfold UINT64_MOD; lia).
      rewrite Hs in Hrun. cbn [andb] in Hrun.
      destruct (tx (stats w) + 1 =? msg_cnt cfg) eqn:E.
      * exists fp', lb2, w2. rewrite stream_loop_stopped by exact Hrun.
        split; [reflexivity|]. apply Z.eqb_eq in E.
        split; [intros _; congruence|]. cbn in Hrun. congruence.
      * apply Z.eqb_neq in E. apply IH; [lia|exact Hrun|lia].
Qed.

End Limit.

(** X8: the message-count limit of the producer.  With a limit of N > 0
    messages and no message sent yet:
    (1) every run of the read loop that returns has sent at most N
        messages, and the counter [stats.tx] is their number; when N were
        sent the run flag is cleared and the last chunk read is the one of
        the N-th message: nothing is read after it, and the input behind it
        is left unread;
    (2) when nothing interferes (plain reads) the loop returns, and it
        stops either at the end of the input or because N messages were
        sent. *)
Theorem producer_count_limit :
  0 < msg_cnt cfg < 2 ^ 63 ->
  (forall reads fp lb w rest lb' w',
     tx (stats w) = 0 ->
     loop reads fp lb w = Done (rest, lb') w' ->
     exists evs,
       log w' = log w ++ evs /\
       concat (chunks_read evs) ++ rest = fp /\
       tx (stats w') = Z.of_nat (length (payloads_sent evs)) /\
       Z.of_nat (length (payloads_sent evs)) <= msg_cnt cfg /\
       (Z.of_nat (length (payloads_sent evs)) = msg_cnt cfg ->
        run w' = false /\
        exists cs0 c, chunks_read evs = cs0 ++ [c] /\ sent c = true)) /\
  (forall fp lb w,
     run w = true -> tx (stats w) = 0 ->
     exists rest lb' w',
       loop (repeat plain_read (length fp)) fp lb w = Done (rest, lb') w' /\
       (run w' = false -> tx (stats w') = msg_cnt cfg) /\
       (run w' = true -> rest = [])).
Proof.
  intros Hlim. split.
  - intros reads fp lb w rest lb' w' H0 H.
    destruct (stream_loop_trace reads fp lb w rest lb' w' H)
      as (evs & Hl & Hcat & _).
    destruct (stream_loop_limit Hlim reads fp lb w rest lb' w'
                ltac:(lia) ltac:(lia) H)
      as (evs' & Hl' & Htx & Hle & Hstop & _ & Hlast).
    assert (evs' = evs) as -> by (rewrite Hl in Hl'; eapply app_inv_head, eq_sym, Hl').
    rewrite H0, Z.add_0_l in Htx.
    exists evs. rewrite <- Htx.
    split; [exact Hl|]. split; [exact Hcat|]. split; [reflexivity|].
    split; [exact Hle|].
    intros HN. split; [apply Hstop, HN|apply Hlast; lia].
  - intros fp lb w Hr H0.
    apply (stream_loop_plain Hlim); [lia|exact Hr|lia].
Qed.

End Stream.

(** Tee mode at work: an empty line is read but neither sent nor echoed. *)
Lemma tee_echo_witness :
  exists rest lb' w',
    stream_loop true 2 8 16 (mkConfig 8 10 0 (-1) false 0)
      [plain_read; plain_read; plain_read]
      (bytes "a" ++ [x0a; x0a] ++ bytes "b" ++ [x0a])
      (mkLinebuf None 0) initial_world = Done (rest, lb') w' /\
    teed (log w') = [bytes "a" ++ [x0a]; bytes "b" ++ [x0a]] /\
    length (chunks_read (log w')) = 3%nat.
Proof.
  destruct (tee_echo true 2 8 16 (mkConfig 8 10 0 (-1) false 0)) as [H _].
  eassert (E : stream_loop true 2 8 16 (mkConfig 8 10 0 (-1) false 0)
                 [plain_read; plain_read; plain_read]
                 (bytes "a" ++ [x0a; x0a] ++ bytes "b" ++ [x0a])
                 (mkLinebuf None 0) initial_world = Done (_, _) _)
    by (vm_compute; reflexivity).
  destruct (H _ _ _ _ _ _ _ E) as (evs & Hl & _ & Ht).
  eexists _, _, _. split; [exact E|].
  change (log initial_world ++ evs) with evs in Hl. rewrite <- Hl in Ht.
  split; [rewrite Ht|]; vm_compute; reflexivity.
Defined.

(** A signal during the read of a line. *)
Lemma signal_during_read_witness :
  stream_loop true 2 8 16 lines_cfg [mkReadEnv true [accepted] false]
    ["a"%byte; x0a] (mkLinebuf None 0) initial_world
  = Exited 1 (set_run false
                (emit (EvRead true ["a"%byte; x0a]) initial_world)).
Proof.
  exact (signal_during_read true 2 8 16 lines_cfg
           (mkReadEnv true [accepted] false) [] "a"%byte [x0a]
           (mkLinebuf None 0) initial_world eq_refl eq_refl).
Defined.

(** A limit of two messages and three lines of input: the third line is
    left unread. *)
Lemma producer_count_limit_witness :
  exists lb' w',
    stream_loop true 2 8 16 (mkConfig 0 10 0 (-1) false 2)
      [plain_read; plain_read; plain_read]
      (bytes "a" ++ [x0a] ++ bytes "b" ++ [x0a] ++ bytes "c" ++ [x0a])
      (mkLinebuf None 0) initial_world = Done (bytes "c" ++ [x0a], lb') w' /\
    run w' = false /\ tx (stats w') = 2.
Proof.
  destruct (producer_count_limit true 2 8 16 (mkConfig 0 10 0 (-1) false 2))
    as [Hsafe _]; [split; reflexivity|].
  eassert (E : stream_loop true 2 8 16 (mkConfig 0 10 0 (-1) false 2)
                 [plain_read; plain_read; plain_read]
                 (bytes "a" ++ [x0a] ++ bytes "b" ++ [x0a] ++ bytes "c" ++ [x0a])
                 (mkLinebuf None 0) initial_world = Done (_, _) _)
    by (vm_compute; reflexivity).
  destruct (Hsafe _ _ _ initial_world _ _ _ eq_refl E) as (evs & Hl & _ & Htx & _ & Hstop).
  eexists _, _. split; [exact E|].
  change (log initial_world ++ evs) with evs in Hl.
  assert (Hn : Z.of_nat (length (payloads_sent evs)) = 2)
    by (rewrite <- Hl; vm_compute; reflexivity).
  split; [apply Hstop, Hn|]. rewrite Htx. exact Hn.
Defined.

(** ** Stream mode as a whole *)

Section StreamMode.
Variable cs : bool.
Variables KEY_DELIM TEE NULL LINE : Z.
Variable cfg : config.

Local Abbreviation loop := (stream_loop cs KEY_DELIM TEE NULL cfg).
Local Abbreviation run_producer :=
  (producer_run cs KEY_DELIM TEE NULL LINE cfg).

(** With plain reads, as many as the input has bytes, the read loop
    returns, whatever the configuration. *)
Lemma stream_loop_plain_total n : forall fp lb w,
  (length fp <= n)%nat ->
  exists rest lb' w', loop (repeat plain_read n) fp lb w = Done (rest, lb') w'.
Proof.
  induction n as [|n IH]; intros fp lb w Hlen.
  - destruct fp; [|cbn in Hlen; lia].
    exists [], lb, w. cbn [repeat]. apply stream_loop_eof.
  - destruct fp as [|b fp]; [exists [], lb, w; apply stream_loop_eof|].
    destruct (run w) eqn:Hr.
    2:{ eexists _, _, _. apply stream_loop_stopped, Hr. }
    cbn [repeat]. rewrite stream_loop_step by exact Hr.
    pose proof (read_until_shorter (delim cfg) b fp) as Hshort.
    destruct (read_until (delim cfg) (b :: fp)) as [chunk fp'].
    specialize (Hshort chunk fp' eq_refl). cbn [fst snd length] in *.
    change (r_signal plain_read) with false. cbv iota. unfold id.
    set (w1 := emit _ w). set (lb1 := mkLinebuf _ _).
    destruct (loop_body_plain_run cs KEY_DELIM TEE NULL cfg chunk lb1 w1 Hr)
      as (lb2 & w2 & Hb & _).
    unfold bind. rewrite Hb. apply IH. lia.
Qed.

(** The stream branch of [producer_run]. *)
Lemma producer_run_stream fp read_error reads paths drain w :
  paths = [] \/ flag_set (flags cfg) LINE = true ->
  run_producer fp read_error reads paths drain w =
  (_ <- loop reads fp (mkLinebuf None 0) ;;
   running <- get run ;;
   (if running && read_error then FATAL else ret tt) ;;
   modify (set_run true) ;;
   drain_loop drain ;;
   s <- get stats ;;
   if negb (tx_err_q s =? 0) || negb (tx_err_dr s =? 0)
   then modify (set_exitcode 1) else ret tt) w.
Proof.
  intros Hmode. unfold producer_run.
  assert ((0 <? Z.of_nat (length paths))
          && negb (flag_set (flags cfg) LINE) = false) as ->.
  { destruct Hmode as [->| ->]; [reflexivity|apply andb_false_r]. }
  unfold bind.
  destruct (loop reads fp _ w) as [[rest lb'] w1|?|?|?]; reflexivity.
Qed.

(** X9: the exit code of stream mode ([producer_run] reading delimited
    records: no file list, or line mode).
    (1) For every run that returns to [main], the exit code is 1 when the
        counter of queue-full answers or the counter of failed deliveries
        is not zero, and otherwise what it was: one send that had to be
        retried on a full queue gives the exit code 1 although the message
        was sent.
    (2) When the read loop ends with the run flag still set, at an input
        that ended in a read error, the process exits with status 1.
    (3) When nothing interferes (plain reads, no read error, the out-queue
        empty) the run returns to [main]. *)
Theorem stream_mode_exit_code fp read_error reads paths drain w :
  paths = [] \/ flag_set (flags cfg) LINE = true ->
  (forall w',
     run_producer fp read_error reads paths drain w = Done tt w' ->
     exitcode w' =
       (if (tx_err_q (stats w') =? 0) && (tx_err_dr (stats w') =? 0)
        then exitcode w else 1)) /\
  (forall rest lb' w1,
     loop reads fp (mkLinebuf None 0) w = Done (rest, lb') w1 ->
     run w1 = true -> read_error = true ->
     run_producer fp read_error reads paths drain w = Exited 1 w1) /\
  (exists w',
     run_producer fp false (repeat plain_read (length fp)) paths
                  [mkDrain 0 []] w = Done tt w').
Proof.
  intros Hmode. split; [|split].
  - intros w' H. rewrite producer_run_stream in H by exact Hmode.
    unfold bind at 1 in H.
    destruct (loop reads fp _ w) as [[rest lb'] w1|?|?|?] eqn:Hloop;
      try discriminate.
    apply stream_loop_trace in Hloop as (evs & _ & _ & He1 & _).
    unfold bind at 1 in H. unfold get at 1 in H. unfold bind at 1 in H.
    destruct (run w1 && read_error); [discriminate|].
    unfold ret at 1 in H. unfold bind at 1 in H. unfold modify at 1 in H.
    unfold bind at 1 in H.
    pose proof (drain_loop_frame drain (set_run true w1)) as Hd.
    destruct (drain_loop drain (set_run true w1)) as [[] w3|?|?|?];
      try discriminate.
    cbn in Hd. destruct Hd as (He3 & _).
    unfold bind, get in H.
    destruct (tx_err_q (stats w3) =? 0) eqn:Eq,
             (tx_err_dr (stats w3) =? 0) eqn:Ed; cbn [negb orb] in H;
      munfold; injection H as <-; cbn [exitcode stats set_exitcode];
      rewrite ?Eq, ?Ed; cbn [andb]; congruence.
  - intros rest lb' w1 Hloop Hr ->.
    rewrite producer_run_stream by exact Hmode.
    unfold bind at 1. rewrite Hloop. unfold bind, get. rewrite Hr.
    reflexivity.
  - rewrite producer_run_stream by exact Hmode.
    destruct (stream_loop_plain_total (length fp) fp (mkLinebuf None 0) w
                ltac:(lia)) as (rest & lb' & w1 & Hloop).
    unfold bind at 1. rewrite Hloop. unfold bind, get, ret, modify.
    rewrite andb_false_r. cbn [drain_loop set_run run negb d_outq_len].
    cbn [Z.eqb]. destruct (negb _ || negb _); eexists; reflexivity.
Qed.

End StreamMode.

(** One line, sent at the second attempt after a queue-full answer: the
    message is sent and the exit code is 1. *)
Lemma stream_mode_exit_code_witness :
  exists w',
    producer_run true 2 8 16 32 lines_cfg ["a"%byte; x0a] false
      [mkReadEnv false [queue_full; accepted] false] [] [mkDrain 0 []]
      initial_world = Done tt w' /\
    payloads_sent (log w') = [Some ["a"%byte]] /\ exitcode w' = 1.
Proof.
  eassert (E : producer_run true 2 8 16 32 lines_cfg ["a"%byte; x0a] false
                 [mkReadEnv false [queue_full; accepted] false] []
                 [mkDrain 0 []] initial_world = Done tt _)
    by (vm_compute; reflexivity).
  destruct (stream_mode_exit_code true 2 8 16 32 lines_cfg ["a"%byte; x0a]
              false [mkReadEnv false [queue_full; accepted] false] []
              [mkDrain 0 []] initial_world) as (Hcode & _).
  - left. reflexivity.
  - eexists. split; [exact E|]. split; [reflexivity|].
    rewrite (Hcode _ E). reflexivity.
Defined.

(** ** The consumer, continued *)

Section ConsumerMore.
Variable cfg : config.

Local Abbreviation callback := (consume_cb cfg).

(** A message with an error other than the end of a partition. *)
Lemma consume_cb_error m w :
  run w = true -> m_err m <> 0 ->
  m_err m <> RD_KAFKA_RESP_ERR__PARTITION_EOF ->
  callback m w = Exited 1 w.
Proof.
  intros Hr H0 He. apply Z.eqb_neq in H0, He.
  unfold consume_cb, bind, get. rewrite Hr, H0, He. reflexivity.
Qed.

(** X10: errors of the consumer.  A message that carries an error other than
    the end of a partition makes the process exit with status 1 as soon as
    the callback gets it, provided the run flag is still set: the messages
    before it in the batch have been processed, the message itself and
    those after it are neither rendered nor stored.  Once the run flag is
    cleared such a message is dropped like any other. *)
Theorem consumer_error_is_fatal pre m post w w1 :
  consume_callback_queue cfg pre w = Done tt w1 ->
  m_err m <> 0 -> m_err m <> RD_KAFKA_RESP_ERR__PARTITION_EOF ->
  consume_callback_queue cfg (pre ++ m :: post) w
  = (if run w1 then Exited 1 w1 else Done tt w1) /\
  (forall evs rounds,
     run w = true -> run w1 = true ->
     consume_loop cfg (mkRound (pre ++ m :: post) evs :: rounds) w
     = Exited 1 w1).
Proof.
  intros Hpre H0 He.
  assert (Hq : consume_callback_queue cfg (pre ++ m :: post) w
               = (if run w1 then Exited 1 w1 else Done tt w1)).
  { unfold consume_callback_queue in *.
    rewrite (for_each_app _ _ _ _ _ Hpre), for_each_cons. unfold bind.
    destruct (run w1) eqn:Hr.
    - rewrite consume_cb_error by assumption. reflexivity.
    - rewrite consume_cb_stopped by exact Hr.
      apply for_each_stopped, Hr. }
  split; [exact Hq|].
  intros evs rounds Hr Hr1. cbn [consume_loop]. rewrite Hr. cbn [negb c_batch].
  unfold bind at 1. rewrite Hq, Hr1. reflexivity.
Qed.

(** *** Which partitions are started *)

Lemma start_consuming_all start_fails parts : forall w,
  partition cfg = RD_KAFKA_PARTITION_UA ->
  (forall p, p ∈ parts -> start_fails p = false) ->
  exists w',
    start_consuming cfg start_fails parts w = Done true w' /\
    log w' = log w ++ (EvConsumeStart <$> parts) /\
    part_eof w' = part_eof w /\ exitcode w' = exitcode w /\ run w' = run w.
Proof.
  intros w Hua. revert w.
  induction parts as [|p parts IH]; intros w Hok.
  - exists w. cbn. rewrite app_nil_r. auto.
  - cbn [start_consuming]. rewrite Hua. cbn [Z.eqb negb andb].
    rewrite (Hok p) by left. unfold bind, modify.
    destruct (IH (emit (EvConsumeStart p) w)) as (w' & Hs & Hl & Hrest).
    { intros q Hq. apply Hok. right. exact Hq. }
    exists w'. split; [exact Hs|]. split; [|exact Hrest].
    rewrite Hl. cbn [log emit fmap list_fmap]. rewrite <- app_assoc. reflexivity.
Qed.

Lemma start_consuming_one start_fails parts : forall w,
  partition cfg <> RD_KAFKA_PARTITION_UA ->
  start_consuming cfg start_fails parts w =
  if bool_decide (partition cfg ∈ parts) then
    if start_fails (partition cfg) then Exited 1 w
    else Done false (emit (EvConsumeStart (partition cfg)) w)
  else Done true w.
Proof.
  intros w Hua. apply Z.eqb_neq in Hua.
  induction parts as [|p parts IH].
  - rewrite bool_decide_eq_false_2 by (apply not_elem_of_nil). reflexivity.
  - cbn [start_consuming]. rewrite Hua. cbn [negb andb].
    destruct (partition cfg =? p) eqn:E; cbn [negb].
    + apply Z.eqb_eq in E. subst p.
      rewrite bool_decide_eq_true_2 by left.
      destruct (start_fails (partition cfg)); reflexivity.
    + apply Z.eqb_neq in E. rewrite IH.
      rewrite (bool_decide_ext (partition cfg ∈ p :: parts)
                               (partition cfg ∈ parts)); [reflexivity|].
      rewrite elem_of_cons. tauto.
Qed.

(** X11: the partitions the consumer is started on.  With no partition
    requested every partition of the topic is started, in the order of the
    metadata.  With a partition requested only that one is started, once;
    and when the topic does not have it the process exits with status 1
    having started and consumed nothing. *)
Theorem consumer_partition_selection start_fails parts w :
  (partition cfg = RD_KAFKA_PARTITION_UA ->
   (forall p, p ∈ parts -> start_fails p = false) ->
   exists w',
     start_consuming cfg start_fails parts w = Done true w' /\
     log w' = log w ++ (EvConsumeStart <$> parts)) /\
  (partition cfg <> RD_KAFKA_PARTITION_UA ->
   partition cfg ∈ parts -> start_fails (partition cfg) = false ->
   start_consuming cfg start_fails parts w
   = Done false (emit (EvConsumeStart (partition cfg)) w)) /\
  (forall md rounds drain,
     partition cfg <> RD_KAFKA_PARTITION_UA ->
     md_err md = 0 -> md_topic_cnt md <> 0 -> md_topic_err md = 0 ->
     md_partitions md <> [] ->
     partition cfg ∉ md_partitions md ->
     exists w1,
       consumer_run cfg md start_fails rounds drain w = Exited 1 w1 /\
       log w1 = log w /\ exitcode w1 = exitcode w).
Proof.
  split; [|split].
  - intros Hua Hok.
    destruct (start_consuming_all start_fails parts w Hua Hok)
      as (w' & Hs & Hl & _).
    eauto.
  - intros Hua Hin Hok. rewrite start_consuming_one by exact Hua.
    rewrite bool_decide_eq_true_2 by exact Hin. rewrite Hok. reflexivity.
  - intros md rounds drain Hua He Hc Ht Hp Hnot.
    unfold consumer_run. apply Z.eqb_neq in Hc. rewrite He, Hc, Ht.
    cbn [Z.eqb negb].
    assert ((length (md_partitions md) =? 0)%nat = false) as ->.
    { apply Nat.eqb_neq. destruct (md_partitions md); [congruence|discriminate]. }
    assert (Hsetup : exists w0, setup_eof cfg (length (md_partitions md)) w
                                = Done tt w0 /\ log w0 = log w /\
                                exitcode w0 = exitcode w).
    { unfold setup_eof, bind, modify.
      destruct (exit_eof cfg); [|eexists; split; [reflexivity|auto]].
      destruct (negb _); eexists; split; reflexivity || auto. }
    destruct Hsetup as (w0 & Hsetup & Hl0 & He0).
    unfold bind at 1. rewrite Hsetup.
    unfold bind at 1. rewrite start_consuming_one by exact Hua.
    rewrite bool_decide_eq_false_2 by exact Hnot.
    apply Z.eqb_neq in Hua. rewrite Hua. cbn [negb andb].
    exists w0. auto.
Qed.

End ConsumerMore.

(** An error in the middle of a batch. *)
Lemma consumer_error_is_fatal_witness :
  consume_callback_queue lines_cfg
    [data_msg 0 7 "a"; mkMessage (-185) 0 8 None None; data_msg 0 8 "b"]
    initial_world
  = Exited 1 (set_stats (mkStats 0 0 0 0 1)
                (emit (EvOffsetStore 0 7)
                   (emit (EvOutput (data_msg 0 7 "a")) initial_world))).
Proof.
  destruct (consumer_error_is_fatal lines_cfg [data_msg 0 7 "a"]
              (mkMessage (-185) 0 8 None None) [data_msg 0 8 "b"]
              initial_world
              (set_stats (mkStats 0 0 0 0 1)
                 (emit (EvOffsetStore 0 7)
                    (emit (EvOutput (data_msg 0 7 "a")) initial_world))))
    as [H _].
  - reflexivity.
  - discriminate.
  - discriminate.
  - exact H.
Defined.

(** Partition 5 requested of a topic with the partitions 0, 1, 2. *)
Lemma consumer_partition_selection_witness :
  exit_status (consumer_run (mkConfig 0 10 0 5 false 0)
                 (mkMetadata 0 1 0 [0; 1; 2]) (fun _ => false) [] []
                 initial_world) = Some 1.
Proof.
  destruct (consumer_partition_selection (mkConfig 0 10 0 5 false 0)
              (fun _ => false) [0; 1; 2] initial_world) as (_ & _ & H).
  destruct (H (mkMetadata 0 1 0 [0; 1; 2]) [] []) as (w1 & -> & _).
  - discriminate.
  - reflexivity.
  - discriminate.
  - reflexivity.
  - discriminate.
  - cbn [md_partitions]. rewrite !not_elem_of_cons. cbn [partition].
    repeat split; try lia. apply not_elem_of_nil.
  - reflexivity.
Defined.

(** *** Stopping the partitions *)

Lemma stopped_app evs1 evs2 :
  stopped (evs1 ++ evs2) = stopped evs1 ++ stopped evs2.
Proof.
  induction evs1 as [|e evs1 IH]; [reflexivity|].
  destruct e; cbn; rewrite IH; reflexivity.
Qed.

Lemma stop_count_app p evs1 evs2 :
  stop_count p (evs1 ++ evs2) = (stop_count p evs1 + stop_count p evs2)%nat.
Proof.
  unfold stop_count. rewrite stopped_app, filter_app, length_app. reflexivity.
Qed.

Lemma wanted_skipped cfg p : wanted cfg p <-> skipped cfg p = false.
Proof.
  unfold wanted, skipped.
  destruct (partition cfg =? RD_KAFKA_PARTITION_UA) eqn:E1,
           (partition cfg =? p) eqn:E2; cbn;
    rewrite ?Z.eqb_eq, ?Z.eqb_neq in *; split; intros; auto; try lia;
    try (destruct H; [lia|congruence]); try discriminate.
Qed.

Lemma filter_eq_notin (p : Z) l : p ∉ l -> filter (fun q => q = p) l = [].
Proof.
  induction l as [|x l IH]; intros H; [reflexivity|].
  apply not_elem_of_cons in H as [Hne H].
  rewrite filter_cons_False by congruence. apply IH, H.
Qed.

Section Stops.
Variable cfg : config.

Local Abbreviation callback := (consume_cb cfg).

(** The callback stops a partition exactly when it marks it. *)
Lemma consume_cb_stops m w w' :
  callback m w = Done tt w' ->
  exists evs,
    log w' = log w ++ evs /\
    (forall p, (stop_count p evs + Nat.b2n (marked w p))%nat
               = Nat.b2n (marked w' p)) /\
    exitcode w' = exitcode w.
Proof.
  intros H.
  assert (Hsame : forall w1 evs, part_eof w1 = part_eof w ->
            stopped evs = [] ->
            forall p, (stop_count p evs + Nat.b2n (marked w p))%nat
                      = Nat.b2n (marked w1 p)).
  { intros w1 evs Hp Hs p. unfold stop_count, marked. rewrite Hs, Hp.
    reflexivity. }
  destruct (run w) eqn:Hr.
  2:{ rewrite consume_cb_stopped in H by exact Hr. injection H as <-.
      exists []. rewrite app_nil_r. split; [reflexivity|].
      split; [|reflexivity]. apply Hsame; reflexivity. }
  destruct (m_err m =? 0) eqn:Hd.
  { rewrite (consume_cb_data cfg m w Hr Hd) in H. cbv zeta in H.
    exists [EvOutput m; EvOffsetStore (m_partition m) (m_offset m)].
    destruct (u64_eq_i64 _ _); injection H as <-; cbn [log emit set_stats set_run];
      rewrite <- app_assoc; (split; [reflexivity|]);
      (split; [|reflexivity]); apply Hsame; reflexivity. }
  destruct (m_err m =? RD_KAFKA_RESP_ERR__PARTITION_EOF) eqn:He.
  2:{ rewrite consume_cb_error in H; [discriminate|exact Hr|lia|lia]. }
  destruct (exit_eof cfg) eqn:Hx.
  2:{ rewrite (consume_cb_eof_plain cfg m w Hr He Hx) in H. injection H as <-.
      exists [eof_store m]. split; [reflexivity|].
      split; [|reflexivity]. apply Hsame; reflexivity. }
  destruct (part_eof w) as [arr|] eqn:Ha.
  2:{ unfold consume_cb, bind, get, modify, part_eof_get in H.
      rewrite Hr, Hd, He, Hx in H. cbn in H. rewrite Ha in H. discriminate. }
  destruct (m_partition m <? 0) eqn:Hneg.
  { unfold consume_cb, bind, get, modify, part_eof_get in H.
    rewrite Hr, Hd, He, Hx in H. cbn in H. rewrite Ha, Hneg in H.
    discriminate. }
  destruct (arr !! Z.to_nat (m_partition m)) as [v|] eqn:Hlk.
  2:{ unfold consume_cb, bind, get, modify, part_eof_get in H.
      rewrite Hr, Hd, He, Hx in H. cbn in H. rewrite Ha, Hneg, Hlk in H.
      discriminate. }
  destruct (Z.eq_dec v 0) as [->|Hv].
  - pose proof (lookup_lt_Some _ _ _ Hlk) as Hlt.
    rewrite (consume_cb_eof_new cfg m w arr Hr He Hx Ha ltac:(lia) Hlk) in H.
    cbv zeta in H.
    exists [eof_store m; EvConsumeStop (m_partition m)].
    assert (Hw' : log w' = log w ++ [eof_store m; EvConsumeStop (m_partition m)] /\
                  part_eof w' = Some (<[Z.to_nat (m_partition m) := 1]> arr) /\
                  exitcode w' = exitcode w).
    { destruct (part_eof_thres w <=? part_eof_cnt w + 1); injection H as <-;
        cbn; rewrite <- app_assoc; auto. }
    destruct Hw' as (Hl & Hp & Hex). split; [exact Hl|]. split; [|exact Hex].
    intros p. unfold stop_count, marked. rewrite Hp, Ha.
    cbn [stopped eof_store].
    destruct (Z.eq_dec p (m_partition m)) as [->|Hne].
    + rewrite filter_cons_True by reflexivity. rewrite filter_nil.
      rewrite Hneg, Hlk, list_lookup_insert_eq by lia. reflexivity.
    + rewrite filter_cons_False by congruence. rewrite filter_nil.
      destruct (p <? 0) eqn:Hp0; [reflexivity|].
      rewrite list_lookup_insert_ne by lia. reflexivity.
  - rewrite (consume_cb_eof_seen cfg m w arr v Hr He Hx Ha ltac:(lia) Hlk Hv) in H.
    injection H as <-. exists [eof_store m]. split; [reflexivity|].
    split; [|reflexivity]. apply Hsame; [exact Ha|reflexivity].
Qed.

Lemma consume_queue_stops msgs : forall w w',
  for_each callback msgs w = Done tt w' ->
  exists evs,
    log w' = log w ++ evs /\
    (forall p, (stop_count p evs + Nat.b2n (marked w p))%nat
               = Nat.b2n (marked w' p)) /\
    exitcode w' = exitcode w.
Proof.
  induction msgs as [|m msgs IH]; intros w w' H.
  - injection H as <-. exists []. rewrite app_nil_r. auto.
  - rewrite for_each_cons in H. unfold bind in H.
    destruct (callback m w) as [[] w1|?|?|?] eqn:Hm; try discriminate.
    apply consume_cb_stops in Hm as (evs1 & Hl1 & Hc1 & He1).
    apply IH in H as (evs2 & Hl2 & Hc2 & He2).
    exists (evs1 ++ evs2). split; [rewrite Hl2, Hl1, app_assoc; reflexivity|].
    split; [|congruence].
    intros p. rewrite stop_count_app, <- Hc2, <- Hc1. lia.
Qed.

Lemma poll_marked evs w w' :
  rd_kafka_poll evs w = Done tt w' ->
  log w' = log w /\ (forall p, marked w' p = marked w p) /\
  exitcode w' = exitcode w.
Proof.
  intros H. pose proof (rd_kafka_poll_frame evs w) as Hf. rewrite H in Hf.
  destruct Hf as (He & Hl & Hp & _). split; [exact Hl|]. split; [|exact He].
  intros p. unfold marked. cbn [final_world] in Hp. rewrite Hp. reflexivity.
Qed.

Lemma consume_loop_stops rounds : forall w w',
  consume_loop cfg rounds w = Done tt w' ->
  exists evs,
    log w' = log w ++ evs /\
    (forall p, (stop_count p evs + Nat.b2n (marked w p))%nat
               = Nat.b2n (marked w' p)) /\
    exitcode w' = exitcode w.
Proof.
  induction rounds as [|r rounds IH]; intros w w' H; cbn [consume_loop] in H;
    destruct (run w); cbn [negb] in H; try discriminate.
  1,3: (injection H as <-; exists []; rewrite app_nil_r; auto).
  unfold bind at 1 in H. unfold consume_callback_queue in H.
  destruct (for_each callback (c_batch r) w) as [[] w1|?|?|?] eqn:Hq;
    try discriminate.
  apply consume_queue_stops in Hq as (evs1 & Hl1 & Hc1 & He1).
  unfold bind at 1 in H.
  destruct (rd_kafka_poll (c_poll r) w1) as [[] w2|?|?|?] eqn:Hp;
    try discriminate.
  apply poll_marked in Hp as (Hl2 & Hm2 & He2).
  apply IH in H as (evs3 & Hl3 & Hc3 & He3).
  exists (evs1 ++ evs3).
  split; [rewrite Hl3, Hl2, Hl1, app_assoc; reflexivity|].
  split; [|congruence].
  intros p. rewrite stop_count_app, <- Hc3, Hm2, <- Hc1. lia.
Qed.

(** The loop that stops the partitions calls the stop once for a wanted
    partition that is marked and twice for one that is not. *)
Lemma stop_consuming_stops parts : forall w w',
  stop_consuming cfg parts w = Done tt w' ->
  exists evs,
    log w' = log w ++ evs /\ exitcode w' = exitcode w /\
    forall p,
      stop_count p evs
      = (length (filter (fun q => q = p)
                   (filter (fun q => skipped cfg q = false) parts))
         * (2 - Nat.b2n (marked w p)))%nat.
Proof.
  unfold stop_consuming.
  induction parts as [|q parts IH]; intros w w' H.
  - injection H as <-. exists []. rewrite app_nil_r. auto.
  - rewrite for_each_cons in H. unfold bind at 1 in H.
    fold (skipped cfg q) in H.
    destruct (skipped cfg q) eqn:Hskip.
    + unfold ret at 1 in H. apply IH in H as (evs & Hl & He & Hc).
      exists evs. split; [exact Hl|]. split; [exact He|].
      intros p. rewrite filter_cons_False by congruence. apply Hc.
    + assert (Hq : exists w1,
                for_each (fun p =>
                  if negb (partition cfg =? RD_KAFKA_PARTITION_UA)
                     && negb (partition cfg =? p)
                  then ret tt
                  else
                    eof <- get part_eof ;;
                    (match eof with
                     | None => modify (emit (EvConsumeStop p))
                     | Some _ =>
                         seen <- part_eof_get p ;;
                         if seen =? 0 then modify (emit (EvConsumeStop p))
                         else ret tt
                     end) ;;
                    modify (emit (EvConsumeStop p))) parts w1 = Done tt w' /\
                part_eof w1 = part_eof w /\ exitcode w1 = exitcode w /\
                log w1 = log w ++ (if marked w q then [EvConsumeStop q]
                                   else [EvConsumeStop q; EvConsumeStop q])).
      { unfold bind at 1 in H. unfold get at 1 in H. unfold marked.
        destruct (part_eof w) as [arr|] eqn:Ha.
        - unfold bind at 1 in H. unfold bind at 1 in H.
          unfold part_eof_get in H. rewrite Ha in H.
          destruct (q <? 0); [discriminate|].
          destruct (arr !! Z.to_nat q) as [v|]; [|discriminate].
          destruct (v =? 0); unfold modify, ret in H; cbn [negb];
            eexists; (split; [exact H|]); cbn; rewrite <- ?app_assoc; auto.
        - unfold bind, modify in H.
          eexists; (split; [exact H|]); cbn; rewrite <- ?app_assoc; auto. }
      destruct Hq as (w1 & Hrest & Hp1 & He1 & Hl1).
      apply IH in Hrest as (evs & Hl & He & Hc).
      exists ((if marked w q then [EvConsumeStop q]
               else [EvConsumeStop q; EvConsumeStop q]) ++ evs).
      split; [rewrite Hl, Hl1, app_assoc; reflexivity|].
      split; [congruence|].
      intros p. rewrite stop_count_app, Hc.
      rewrite (filter_cons_True (fun q => skipped cfg q = false)) by exact Hskip.
      assert (Hm : marked w1 p = marked w p)
        by (unfold marked; rewrite Hp1; reflexivity).
      rewrite Hm. unfold stop_count.
      destruct (Z.eq_dec q p) as [->|Hne].
      * rewrite (filter_cons_True (fun q => q = p)) by reflexivity.
        cbn [length].
        destruct (marked w p); cbn [stopped];
          rewrite !filter_cons_True by reflexivity; rewrite filter_nil;
          cbn [length Nat.b2n]; lia.
      * rewrite (filter_cons_False (fun q => q = p)) by exact Hne.
        destruct (marked w q); cbn [stopped];
          rewrite !filter_cons_False by exact Hne; rewrite filter_nil;
          cbn [length]; lia.
Qed.

Lemma start_consuming_frame start_fails parts : forall w at_end w',
  start_consuming cfg start_fails parts w = Done at_end w' ->
  exists evs,
    log w' = log w ++ evs /\ stopped evs = [] /\ part_eof w' = part_eof w /\
    exitcode w' = exitcode w.
Proof.
  induction parts as [|q parts IH]; intros w at_end w' H;
    cbn [start_consuming] in H.
  - injection H as <- <-. exists []. rewrite app_nil_r. auto.
  - destruct (negb _ && negb _); [apply IH in H; exact H|].
    destruct (start_fails q); [discriminate|].
    unfold bind, modify in H.
    destruct (negb (partition cfg =? RD_KAFKA_PARTITION_UA)).
    + injection H as <- <-. exists [EvConsumeStart q]. auto.
    + apply IH in H as (evs & Hl & Hs & Hp & He).
      exists (EvConsumeStart q :: evs). cbn [log emit] in Hl.
      rewrite <- app_assoc in Hl. auto.
Qed.

Lemma drain_loop_pos_frame oracle : forall w,
  let w' := final_world (drain_loop_pos oracle w) in
  exitcode w' = exitcode w /\ log w' = log w.
Proof.
  induction oracle as [|d oracle IH]; intros w; cbn [drain_loop_pos];
    destruct (run w); cbn; auto.
  destruct (0 <? d_outq_len d); cbn; auto.
  unfold bind.
  pose proof (rd_kafka_poll_frame (d_poll d) w) as Hf.
  destruct (rd_kafka_poll (d_poll d) w) as [[] w1|?|?|?]; cbn in *;
    destruct Hf as (He & Hl & _); auto.
  destruct (IH w1) as (He' & Hl'). split; congruence.
Qed.

Lemma setup_eof_unmarked n w :
  part_eof w = None ->
  exists w0, setup_eof cfg n w = Done tt w0 /\ log w0 = log w /\
             exitcode w0 = exitcode w /\ forall p, marked w0 p = false.
Proof.
  intros Hnone. unfold setup_eof, bind, modify.
  destruct (exit_eof cfg).
  - assert (Hz : forall p, marked (set_part_eof (Some (replicate n 0)) w) p
                           = false).
    { intros p. unfold marked. cbn [part_eof set_part_eof].
      destruct (p <? 0); [reflexivity|].
      destruct (replicate n 0 !! Z.to_nat p) as [v|] eqn:E; [|reflexivity].
      apply lookup_replicate in E as [-> _]. reflexivity. }
    destruct (negb _); eexists; (split; [reflexivity|]); cbn;
      (split; [reflexivity|]); (split; [reflexivity|]); exact Hz.
  - exists w. repeat split. intros p. unfold marked. rewrite Hnone. reflexivity.
Qed.

(** X12: every partition the consumer was started on is stopped twice.  For
    every run of [consumer_run] that returns to [main], from a state in
    which the end-of-partition table is not allocated yet, and for every
    wanted partition of the topic (the partitions of the metadata being
    distinct), the stop call [rd_kafka_consume_stop] was made exactly twice
    for it in the course of the run: once by the callback and once at the
    end when the partition reached its end with exit-at-EOF on, and twice
    at the end otherwise.  The exit code is left as it was. *)
Theorem consumer_stops_twice md start_fails rounds drain w w' :
  part_eof w = None -> NoDup (md_partitions md) ->
  consumer_run cfg md start_fails rounds drain w = Done tt w' ->
  exists evs,
    log w' = log w ++ evs /\ exitcode w' = exitcode w /\
    forall p, p ∈ md_partitions md -> wanted cfg p -> stop_count p evs = 2%nat.
Proof.
  intros Hnone Hnodup H. unfold consumer_run in H.
  destruct (negb (md_err md =? 0)); [discriminate|].
  destruct (md_topic_cnt md =? 0); [discriminate|].
  destruct (negb (md_topic_err md =? 0)); [discriminate|].
  destruct (length (md_partitions md) =? 0)%nat; [discriminate|].
  destruct (setup_eof_unmarked (length (md_partitions md)) w Hnone)
    as (w0 & Hsetup & Hl0 & He0 & Hm0).
  unfold bind at 1 in H. rewrite Hsetup in H.
  unfold bind at 1 in H.
  destruct (start_consuming cfg start_fails (md_partitions md) w0)
    as [at_end w1|?|?|?] eqn:Hstart; try discriminate.
  apply start_consuming_frame in Hstart as (evs1 & Hl1 & Hs1 & Hp1 & He1).
  unfold bind at 1 in H.
  destruct (negb (partition cfg =? RD_KAFKA_PARTITION_UA) && at_end);
    [discriminate|].
  unfold ret at 1 in H. unfold bind at 1 in H.
  destruct (consume_loop cfg rounds w1) as [[] w2|?|?|?] eqn:Hloop;
    try discriminate.
  apply consume_loop_stops in Hloop as (evs2 & Hl2 & Hc2 & He2).
  unfold bind at 1 in H.
  destruct (stop_consuming cfg (md_partitions md) w2) as [[] w3|?|?|?] eqn:Hstop;
    try discriminate.
  apply stop_consuming_stops in Hstop as (evs3 & Hl3 & He3 & Hc3).
  unfold bind at 1 in H. unfold modify at 1 in H.
  pose proof (drain_loop_pos_frame drain (set_run true w3)) as Hd.
  rewrite H in Hd. cbn in Hd. destruct Hd as (He4 & Hl4).
  exists (evs1 ++ evs2 ++ evs3).
  split; [rewrite Hl4, Hl3, Hl2, Hl1, Hl0, <- !app_assoc; reflexivity|].
  split; [congruence|].
  intros p Hin Hw.
  rewrite !stop_count_app, Hc3.
  assert (Hm1 : marked w1 p = false)
    by (unfold marked; rewrite Hp1; apply (Hm0 p)).
  specialize (Hc2 p). rewrite Hm1 in Hc2. cbn [Nat.b2n] in Hc2.
  assert (H1 : stop_count p evs1 = 0%nat)
    by (unfold stop_count; rewrite Hs1; reflexivity).
  assert (Hone : length (filter (fun q => q = p)
                           (filter (fun q => skipped cfg q = false)
                                   (md_partitions md))) = 1%nat).
  { apply wanted_skipped in Hw.
    assert (Hp : filter (fun q => q = p)
                   (filter (fun q => skipped cfg q = false) (md_partitions md))
                 = filter (fun q => q = p) (md_partitions md)).
    { clear -Hw. induction (md_partitions md) as [|q l IH]; [reflexivity|].
      destruct (Z.eq_dec q p) as [->|Hne].
      - rewrite (filter_cons_True (fun q => skipped cfg q = false)) by exact Hw.
        rewrite !(filter_cons_True (fun q => q = p)) by reflexivity.
        rewrite IH. reflexivity.
      - rewrite (filter_cons_False (fun q => q = p) q l) by exact Hne.
        destruct (skipped cfg q) eqn:E.
        + rewrite filter_cons_False by congruence. exact IH.
        + rewrite (filter_cons_True (fun q => skipped cfg q = false))
            by exact E.
          rewrite filter_cons_False by exact Hne. exact IH. }
    rewrite Hp. clear -Hin Hnodup.
    induction Hnodup as [|q l Hq Hl IH]; [inversion Hin|].
    apply elem_of_cons in Hin as [->|Hin].
    - rewrite filter_cons_True by reflexivity. cbn [length]. f_equal.
      rewrite filter_eq_notin by exact Hq. reflexivity.
    - rewrite filter_cons_False by (intros ->; contradiction).
      apply IH, Hin. }
  rewrite Hone. destruct (marked w2 p); cbn [Nat.b2n] in *; lia.
Qed.

End Stops.

(** Two partitions, exit-at-EOF on: partition 0 reaches its end first, then
    partition 1. *)
Lemma consumer_stops_twice_witness :
  exists w',
    consumer_run exit_eof_cfg (mkMetadata 0 1 0 [0; 1]) (fun _ => false)
      [mkRound [eof_marker 0 4; data_msg 1 7 "a"; eof_marker 1 8] []]
      [mkDrain 0 []] initial_world = Done tt w' /\
    stopped (log w') = [0; 1; 0; 1] /\
    stop_count 0 (log w') = 2%nat /\ stop_count 1 (log w') = 2%nat.
Proof.
  eassert (E : consumer_run exit_eof_cfg (mkMetadata 0 1 0 [0; 1])
                 (fun _ => false)
                 [mkRound [eof_marker 0 4; data_msg 1 7 "a"; eof_marker 1 8] []]
                 [mkDrain 0 []] initial_world = Done tt _)
    by (vm_compute; reflexivity).
  destruct (consumer_stops_twice exit_eof_cfg (mkMetadata 0 1 0 [0; 1])
              _ _ _ initial_world _ eq_refl
              ltac:(repeat constructor; set_solver) E) as (evs & Hl & _ & Hc).
  eexists. split; [exact E|]. split; [vm_compute; reflexivity|].
  change (log initial_world ++ evs) with evs in Hl. rewrite Hl.
  split; apply Hc; cbn; try (left; reflexivity); set_solver.
Defined.

(** *** Exit at the end of the topic *)

Section Received.
Variable cfg : config.

Local Abbreviation callback := (consume_cb cfg).

(** The callback counts at most one message. *)
Lemma consume_cb_rx m w w' :
  callback m w = Done tt w' ->
  (rx (stats w') = rx (stats w) \/ rx (stats w') = u64_incr (rx (stats w))).
Proof.
  intros H. unfold consume_cb, bind, get, modify, ret, part_eof_get,
    part_eof_set, FATAL in H.
  repeat (case_match; simplify_eq/=); auto.
Qed.

Lemma consume_queue_rx msgs : forall w w',
  for_each callback msgs w = Done tt w' ->
  0 <= rx (stats w) -> rx (stats w) + Z.of_nat (length msgs) < UINT64_MOD ->
  rx (stats w) <= rx (stats w') <= rx (stats w) + Z.of_nat (length msgs).
Proof.
  induction msgs as [|m msgs IH]; intros w w' H H0 H1.
  - injection H as <-. cbn. lia.
  - rewrite for_each_cons in H. unfold bind in H.
    destruct (callback m w) as [[] w1|?|?|?] eqn:Hm; try discriminate.
    apply consume_cb_rx in Hm. cbn [length] in H1.
    assert (rx (stats w) <= rx (stats w1) <= rx (stats w) + 1).
    { destruct Hm as [->| ->]; [lia|]. rewrite u64_incr_small by lia. lia. }
    assert (H3 : 0 <= rx (stats w1)) by lia.
    assert (H4 : rx (stats w1) + Z.of_nat (length msgs) < UINT64_MOD) by lia.
    specialize (IH w1 w' H H3 H4). cbn [length]. lia.
Qed.

Lemma stop_consuming_returns parts : forall w arr,
  part_eof w = Some arr ->
  (forall p, p ∈ parts -> 0 <= p < Z.of_nat (length arr)) ->
  exists w', stop_consuming cfg parts w = Done tt w'.
Proof.
  unfold stop_consuming.
  induction parts as [|q parts IH]; intros w arr Ha Hin.
  - exists w. reflexivity.
  - rewrite for_each_cons. unfold bind at 1.
    assert (Hq : 0 <= q < Z.of_nat (length arr)) by (apply Hin; left).
    assert (Hrest : forall p, p ∈ parts -> 0 <= p < Z.of_nat (length arr))
      by (intros p Hp; apply Hin; right; exact Hp).
    destruct (negb _ && negb _).
    + unfold ret at 1. eapply IH; eauto.
    + unfold bind at 1. unfold get at 1. rewrite Ha.
      unfold bind at 1. unfold bind at 1. unfold part_eof_get. rewrite Ha.
      assert ((q <? 0) = false) as -> by lia.
      destruct (lookup_lt_is_Some_2 arr (Z.to_nat q) ltac:(lia)) as [v ->].
      destruct (v =? 0); unfold modify, ret; eapply IH; eauto.
Qed.

End Received.

Section ExitAtEof.
Variable cfg : config.
Variable n : nat.
Hypothesis exit_eof_on : exit_eof cfg = true.
Hypothesis partition_ok :
  partition cfg = RD_KAFKA_PARTITION_UA \/ 0 <= partition cfg < Z.of_nat n.

Local Abbreviation callback := (consume_cb cfg).
Local Abbreviation dom := (eof_domain cfg n).
Local Abbreviation thres := (eof_threshold cfg n).

Lemma card_eof_domain : Z.of_nat (card dom) = thres.
Proof.
  unfold eof_domain, eof_threshold.
  destruct (partition cfg =? RD_KAFKA_PARTITION_UA) eqn:E; cbn [negb].
  - rewrite size_list_to_set by apply NoDup_seqZ. rewrite length_seqZ. lia.
  - apply Z.eqb_neq in E. destruct partition_ok as [?|Hr]; [contradiction|].
    assert (Heq : {[partition cfg]} ∩ list_to_set (seqZ 0 (Z.of_nat n))
                  = ({[partition cfg]} : gset Z)).
    { apply set_eq. intros x.
      rewrite elem_of_intersection, elem_of_singleton, elem_of_list_to_set,
        elem_of_seqZ.
      split; [tauto|]. intros ->. split; [reflexivity|lia]. }
    rewrite Heq, size_singleton. reflexivity.
Qed.

(** The consume loop comes to its end once the markers of all the wanted
    partitions are among the messages queued. *)
Lemma consume_loop_reaches_end rounds : forall obs w,
  coordinated n obs w -> obs ⊆ dom ->
  part_eof_thres w = thres ->
  run w = negb (part_eof_thres w <=? part_eof_cnt w) ->
  0 <= rx (stats w) ->
  rx (stats w) + Z.of_nat (length (concat (c_batch <$> rounds))) < UINT64_MOD ->
  Forall (fun r => forallb quiet (c_poll r) = true) rounds ->
  Forall (deliverable cfg n) (concat (c_batch <$> rounds)) ->
  dom ⊆ obs ∪ eof_partitions (concat (c_batch <$> rounds)) ->
  exists w',
    consume_loop cfg rounds w = Done tt w' /\ coordinated n dom w' /\
    run w' = false.
Proof.
  induction rounds as [|r rounds IH];
    intros obs w Hco Hsub Hth Hrun Hrx0 Hrx Hquiet Hok Hall.
  - assert (Hobs : obs = dom).
    { apply set_eq. intros x. split; [apply Hsub|].
      intros Hx. apply Hall in Hx. cbn in Hx. set_solver. }
    subst obs.
    assert (Hr : run w = false).
    { rewrite Hrun. apply negb_false_iff, Z.leb_le.
      destruct Hco as (arr & _ & _ & _ & Hc). rewrite Hc, Hth.
      pose proof card_eof_domain. lia. }
    exists w. cbn [consume_loop]. rewrite Hr. auto.
  - destruct (run w) eqn:Hr.
    2:{ exists w. cbn [consume_loop]. rewrite Hr. cbn [negb].
        split; [reflexivity|]. split; [|reflexivity].
        assert (Hobs : obs = dom).
        { eapply threshold_all_observed; eauto.
          destruct Hco as (arr & _ & _ & _ & Hc). rewrite <- Hc, <- Hth.
          symmetry in Hrun. apply negb_false_iff in Hrun. lia. }
        subst obs. exact Hco. }
    cbn [fmap list_fmap concat] in Hrx, Hok, Hall.
    rewrite length_app in Hrx. apply Forall_app in Hok as [Hok1 Hok2].
    apply Forall_cons in Hquiet as [Hq1 Hquiet].
    rewrite eof_partitions_app in Hall.
    destruct (coordinator_run cfg n exit_eof_on (c_batch r) obs w Hco Hsub Hth
                ltac:(rewrite Hr; exact Hrun) Hrx0 ltac:(lia) Hok1)
      as (w1 & Hq & Hco1 & Hsub1 & Hth1 & Hrun1).
    pose proof (consume_queue_rx cfg _ _ _ Hq Hrx0 ltac:(lia)) as Hrx1.
    destruct (rd_kafka_poll_quiet (c_poll r) w1 Hq1) as (w2 & Hp & Hr2 & Hf).
    destruct Hf as (_ & _ & Hpe & Hpc & Hpt & _ & _ & Hprx & _).
    destruct (IH (obs ∪ eof_partitions (c_batch r)) w2) as (w' & Hloop & Hres).
    + destruct Hco1 as (arr & Ha & Hlen & Hl & Hc).
      exists arr. rewrite Hpe, Hpc. auto.
    + exact Hsub1.
    + congruence.
    + rewrite Hr2, Hpt, Hpc. exact Hrun1.
    + lia.
    + lia.
    + exact Hquiet.
    + exact Hok2.
    + set_solver.
    + exists w'. split; [|exact Hres].
      cbn [consume_loop]. rewrite Hr. cbn [negb].
      unfold bind at 1. unfold consume_callback_queue. rewrite Hq.
      unfold bind at 1. rewrite Hp. exact Hloop.
Qed.

End ExitAtEof.

(** X13: exit at the end of the topic.  Let exit-at-EOF be on and no
    message-count limit be set, the topic have the partitions 0 .. n-1 (n >
    0), and either no partition be requested or one of these.  Let the
    consumer be started without failure and be served rounds whose polls
    are quiet and whose batches hold ordinary messages and end-of-partition
    markers of wanted partitions, among them the marker of every wanted
    partition.  Then [consumer_run] returns to [main]: the consume loop
    comes to its end, every wanted partition is marked as at its end, and
    the exit code is left as it was. *)
Theorem exit_at_eof_returns cfg n md start_fails rounds w :
  exit_eof cfg = true -> (0 < n)%nat ->
  partition cfg = RD_KAFKA_PARTITION_UA \/ 0 <= partition cfg < Z.of_nat n ->
  md_err md = 0 -> md_topic_cnt md <> 0 -> md_topic_err md = 0 ->
  md_partitions md = seqZ 0 (Z.of_nat n) ->
  (forall p, start_fails p = false) ->
  run w = true -> part_eof_cnt w = 0 -> rx (stats w) = 0 ->
  Z.of_nat (length (concat (c_batch <$> rounds))) < UINT64_MOD ->
  Forall (fun r => forallb quiet (c_poll r) = true) rounds ->
  Forall (deliverable cfg n) (concat (c_batch <$> rounds)) ->
  eof_domain cfg n ⊆ eof_partitions (concat (c_batch <$> rounds)) ->
  exists w',
    consumer_run cfg md start_fails rounds [mkDrain 0 []] w = Done tt w' /\
    coordinated n (eof_domain cfg n) w' /\
    exitcode w' = exitcode w.
Proof.
  intros Hx Hn Hpart He Hc Ht Hparts Hstart Hr Hcnt Hrx Hlen Hquiet Hok Hall.
  unfold consumer_run. apply Z.eqb_neq in Hc. rewrite He, Hc, Ht, Hparts.
  cbn [Z.eqb negb]. rewrite length_seqZ, Nat2Z.id.
  assert ((n =? 0)%nat = false) as -> by (apply Nat.eqb_neq; lia).
  (* the table *)
  set (w0 := set_part_eof_thres (eof_threshold cfg n)
               (set_part_eof (Some (replicate n 0)) w)).
  assert (Hsetup : setup_eof cfg n w = Done tt w0).
  { subst w0. unfold setup_eof, eof_threshold, bind, modify.
    rewrite Hx. destruct (negb _); reflexivity. }
  unfold bind at 1. rewrite Hsetup.
  (* the partitions are started *)
  assert (Hstarted : exists at_end w1,
            start_consuming cfg start_fails (seqZ 0 (Z.of_nat n)) w0
            = Done at_end w1 /\
            (negb (partition cfg =? RD_KAFKA_PARTITION_UA) && at_end = false) /\
            part_eof w1 = part_eof w0 /\ part_eof_cnt w1 = part_eof_cnt w0 /\
            part_eof_thres w1 = part_eof_thres w0 /\ run w1 = run w0 /\
            stats w1 = stats w0 /\ exitcode w1 = exitcode w0).
  { destruct (Z.eq_dec (partition cfg) RD_KAFKA_PARTITION_UA) as [Hua|Hua].
    - assert (Hgen : forall parts w0, exists w1,
                start_consuming cfg start_fails parts w0 = Done true w1 /\
                part_eof w1 = part_eof w0 /\ part_eof_cnt w1 = part_eof_cnt w0 /\
                part_eof_thres w1 = part_eof_thres w0 /\ run w1 = run w0 /\
                stats w1 = stats w0 /\ exitcode w1 = exitcode w0).
      { induction parts as [|p parts IH]; intros v; [exists v; auto 10|].
        cbn [start_consuming]. rewrite Hua, Hstart. cbn [Z.eqb negb andb].
        unfold bind, modify.
        destruct (IH (emit (EvConsumeStart p) v)) as (w1 & Hs & Hrest).
        exists w1. split; [exact Hs|exact Hrest]. }
      destruct (Hgen (seqZ 0 (Z.of_nat n)) w0) as (w1 & Hs & Hrest).
      exists true, w1. split; [exact Hs|]. split; [|exact Hrest].
      rewrite Hua. reflexivity.
    - rewrite start_consuming_one by exact Hua.
      destruct Hpart as [?|Hrange]; [contradiction|].
      rewrite bool_decide_eq_true_2 by (apply elem_of_seqZ; lia).
      rewrite Hstart. eexists _, _. split; [reflexivity|].
      rewrite andb_false_r. auto 10. }
  destruct Hstarted
    as (at_end & w1 & Hs & Hend & Hpe & Hpc & Hpt & Hr1 & Hst & Hex).
  unfold bind at 1. rewrite Hs.
  unfold bind at 1. rewrite Hend. unfold ret at 1.
  (* the consume loop *)
  assert (Hco : coordinated n ∅ w1).
  { exists (replicate n 0). rewrite Hpe, Hpc. repeat split.
    - apply length_replicate.
    - intros i Hi. rewrite lookup_replicate_2 by exact Hi. reflexivity.
    - cbn. rewrite Hcnt, size_empty. reflexivity. }
  assert (Hpos : 0 < eof_threshold cfg n).
  { unfold eof_threshold. destruct (negb _); lia. }
  destruct (consume_loop_reaches_end cfg n Hx Hpart rounds ∅ w1 Hco)
    as (w2 & Hloop & Hco2 & Hr2).
  { set_solver. }
  { rewrite Hpt. reflexivity. }
  { rewrite Hr1, Hpt, Hpc. cbn. rewrite Hr, Hcnt. symmetry.
    apply negb_true_iff, Z.leb_gt. exact Hpos. }
  { rewrite Hst. cbn. lia. }
  { rewrite Hst. cbn. lia. }
  { exact Hquiet. }
  { exact Hok. }
  { set_solver. }
  unfold bind at 1. rewrite Hloop.
  (* the partitions are stopped *)
  pose proof Hco2 as (arr & Ha & Harr & _).
  destruct (stop_consuming_returns cfg (seqZ 0 (Z.of_nat n)) w2 arr Ha)
    as (w3 & Hstop).
  { intros p Hp. apply elem_of_seqZ in Hp. lia. }
  pose proof Hstop as Hstop'.
  apply stop_consuming_stops in Hstop' as (evs3 & _ & He3 & _).
  assert (Hp3 : part_eof w3 = part_eof w2 /\ part_eof_cnt w3 = part_eof_cnt w2).
  { clear -Hstop. revert w2 Hstop. unfold stop_consuming.
    induction (seqZ 0 (Z.of_nat n)) as [|q parts IH]; intros w2 H.
    - injection H as <-. auto.
    - rewrite for_each_cons in H. unfold bind at 1 in H.
      destruct (negb _ && negb _); [apply IH in H; exact H|].
      unfold bind, get, modify, ret, part_eof_get in H.
      repeat (case_match; simplify_eq/=); apply IH in H; cbn in H;
        destruct H; split; congruence. }
  destruct Hp3 as (Hp3 & Hc3).
  unfold bind at 1. rewrite Hstop.
  unfold bind, modify. cbn [drain_loop_pos set_run run negb d_outq_len].
  cbn [Z.ltb Z.compare negb].
  eexists. split; [reflexivity|]. split.
  - destruct Hco2 as (arr2 & Ha2 & Hlen2 & Hl2 & Hn2).
    exists arr2. cbn. rewrite Hp3, Hc3. auto.
  - cbn. pose proof (consume_loop_stops cfg rounds w1 w2 Hloop)
      as (_ & _ & _ & He2).
    subst w0. cbn in Hex. congruence.
Qed.

(** Three partitions, all of them wanted: the markers come in two rounds. *)
Lemma exit_at_eof_returns_witness :
  exists w',
    consumer_run exit_eof_cfg (mkMetadata 0 1 0 [0; 1; 2]) (fun _ => false)
      [mkRound [eof_marker 2 0; data_msg 0 3 "a"] [AsError (-195)];
       mkRound [eof_marker 0 4; eof_marker 1 9] []]
      [mkDrain 0 []] initial_world = Done tt w' /\
    exitcode w' = 0.
Proof.
  destruct (exit_at_eof_returns exit_eof_cfg 3 (mkMetadata 0 1 0 [0; 1; 2])
              (fun _ => false)
              [mkRound [eof_marker 2 0; data_msg 0 3 "a"] [AsError (-195)];
               mkRound [eof_marker 0 4; eof_marker 1 9] []] initial_world)
    as (w' & H & _ & He).
  - reflexivity.
  - lia.
  - left. reflexivity.
  - reflexivity.
  - discriminate.
  - reflexivity.
  - reflexivity.
  - reflexivity.
  - reflexivity.
  - reflexivity.
  - reflexivity.
  - reflexivity.
  - repeat constructor.
  - cbn [fmap list_fmap concat c_batch app].
    repeat (apply Forall_cons; split;
            [first [left; split; reflexivity
                   |right; split;
                    [reflexivity|split; [cbn; lia|left; reflexivity]]]|]).
    constructor.
  - intros p Hp. apply elem_of_eof_domain in Hp as [Hp _].
    assert (p = 0 \/ p = 1 \/ p = 2) as [->|[->| ->]] by lia;
      apply elem_of_list_to_set; cbn; set_solver.
  - exists w'. split; [exact H|exact He].
Defined.

(** * The command line *)

(** ** Numbers on the command line *)

Lemma dec_accum_uint d : forall p,
  dec_accum (NilEmpty.string_of_uint d) (Z.pos p) = Z.pos (Pos.of_uint_acc d p).
Proof.
  induction d as [|d IH|d IH|d IH|d IH|d IH|d IH|d IH|d IH|d IH|d IH];
    intros p; cbn [NilEmpty.string_of_uint dec_accum Pos.of_uint_acc];
    [reflexivity|..];
    change (dec_digit _) with (Some 0) || change (dec_digit _) with (Some 1)
    || change (dec_digit _) with (Some 2) || change (dec_digit _) with (Some 3)
    || change (dec_digit _) with (Some 4) || change (dec_digit _) with (Some 5)
    || change (dec_digit _) with (Some 6) || change (dec_digit _) with (Some 7)
    || change (dec_digit _) with (Some 8) || change (dec_digit _) with (Some 9);
    cbv iota beta; rewrite <- IH; f_equal; lia.
Qed.

Lemma dec_accum_of_uint d :
  dec_accum (NilEmpty.string_of_uint d) 0 = Z.of_N (Pos.of_uint d).
Proof.
  induction d as [|d IH|d IH|d IH|d IH|d IH|d IH|d IH|d IH|d IH|d IH];
    cbn [NilEmpty.string_of_uint dec_accum Pos.of_uint]; [reflexivity|..];
    change (dec_digit _) with (Some 0) || change (dec_digit _) with (Some 1)
    || change (dec_digit _) with (Some 2) || change (dec_digit _) with (Some 3)
    || change (dec_digit _) with (Some 4) || change (dec_digit _) with (Some 5)
    || change (dec_digit _) with (Some 6) || change (dec_digit _) with (Some 7)
    || change (dec_digit _) with (Some 8) || change (dec_digit _) with (Some 9);
    cbv iota beta; [exact IH|..]; apply dec_accum_uint.
Qed.

Lemma dec_accum_string_of_uint d :
  dec_accum (NilZero.string_of_uint d) 0 = Z.of_N (Pos.of_uint d).
Proof. destruct d; try apply dec_accum_of_uint. reflexivity. Qed.

(** What [printf] writes for a number that is not negative starts with a
    digit. *)
Lemma string_of_uint_digit d :
  exists c s, NilZero.string_of_uint d = String c s /\ 48 <= ascii_val c <= 57.
Proof.
  destruct d; cbn; eexists _, _; (split; [reflexivity|]); vm_compute;
    split; discriminate.
Qed.

(** A text that starts with a digit has no white space and no sign to
    skip. *)
Lemma leading_number_digit c s :
  48 <= ascii_val c <= 57 ->
  leading_number (String c s) = dec_accum (String c s) 0.
Proof.
  intros Hr. unfold leading_number. cbn [skip_space].
  assert (isspace c = false) as -> by (unfold isspace; lia).
  destruct c as [[] [] [] [] [] [] [] []]; vm_compute in Hr;
    try (exfalso; destruct Hr as [H1 H2]; first [apply H1; reflexivity|apply H2; reflexivity]);
    reflexivity.
Qed.

(** [strtoll] reads back the number that [printf] wrote. *)
Lemma leading_number_dec n : leading_number (dec n) = n.
Proof.
  unfold dec. destruct n as [|p|p]; cbn [Z.to_int NilZero.string_of_int].
  - reflexivity.
  - destruct (string_of_uint_digit (Pos.to_uint p)) as (c & s & Hs & Hr).
    pose proof (dec_accum_string_of_uint (Pos.to_uint p)) as Hv.
    rewrite Hs in *. rewrite leading_number_digit, Hv by exact Hr.
    rewrite DecimalPos.Unsigned.of_to. reflexivity.
  - unfold leading_number. cbn [skip_space].
    change (isspace "-") with false. cbv iota.
    rewrite dec_accum_string_of_uint, DecimalPos.Unsigned.of_to. reflexivity.
Qed.

(** A text that starts with neither white space, nor a sign, nor a digit
    holds no number: it is read as 0. *)
Lemma leading_number_none c s :
  isspace c = false -> dec_digit c = None ->
  c <> "-"%char -> c <> "+"%char ->
  leading_number (String c s) = 0.
Proof.
  intros Hsp Hd Hm Hp. unfold leading_number. cbn [skip_space]. rewrite Hsp.
  destruct c as [[] [] [] [] [] [] [] []]; try congruence;
    cbn [dec_accum]; rewrite Hd; reflexivity.
Qed.

Lemma dec_first n : exists c s,
  dec n = String c s /\ (c = "-"%char \/ 48 <= ascii_val c <= 57).
Proof.
  unfold dec. destruct n as [|p|p]; cbn [Z.to_int NilZero.string_of_int].
  - eexists _, _. split; [reflexivity|]. right. vm_compute. split; discriminate.
  - destruct (string_of_uint_digit (Pos.to_uint p)) as (c & s & Hs & Hr).
    eauto.
  - eexists _, _. split; [reflexivity|]. left. reflexivity.
Qed.

(** X17: the argument of [-o].  The three words give the logical offsets of
    librdkafka; a number that is not negative is taken as the absolute
    offset; a negative number -n gives the offset n messages before the
    end, [RD_KAFKA_OFFSET_TAIL_BASE - n]; and a text that holds no number
    is taken as the offset 0, without complaint. *)
Theorem offset_option :
  parse_offset "end" = Some RD_KAFKA_OFFSET_END /\
  parse_offset "beginning" = Some RD_KAFKA_OFFSET_BEGINNING /\
  parse_offset "stored" = Some RD_KAFKA_OFFSET_STORED /\
  (forall n, 0 <= n <= LLONG_MAX -> parse_offset (dec n) = Some n) /\
  (forall n, 0 < n <= LLONG_MAX - 2000 ->
     parse_offset (dec (- n)) = Some (RD_KAFKA_OFFSET_TAIL_BASE - n)) /\
  (forall c s,
     isspace c = false -> dec_digit c = None ->
     c <> "-"%char -> c <> "+"%char ->
     String c s <> "end"%string -> String c s <> "beginning"%string ->
     String c s <> "stored"%string ->
     parse_offset (String c s) = Some 0).
Proof.
  assert (Hkw : forall n,
            String.eqb (dec n) "end" = false /\
            String.eqb (dec n) "beginning" = false /\
            String.eqb (dec n) "stored" = false).
  { intros n. destruct (dec_first n) as (c & s & -> & Hc).
    repeat split; apply String.eqb_neq; intros [= -> _];
      destruct Hc as [Hc|Hc]; try discriminate; vm_compute in Hc;
      destruct Hc as [H1 H2];
      first [apply H1; reflexivity|apply H2; reflexivity]. }
  split; [reflexivity|]. split; [reflexivity|]. split; [reflexivity|].
  split; [|split].
  - intros n Hn. unfold parse_offset.
    destruct (Hkw n) as (-> & -> & ->).
    unfold strtoll10. rewrite leading_number_dec.
    unfold LLONG_MAX, LLONG_MIN in *.
    rewrite Z.min_r, Z.max_r by lia. cbv zeta.
    assert ((n <? 0) = false) as -> by lia. reflexivity.
  - intros n Hn. unfold parse_offset.
    destruct (Hkw (- n)) as (-> & -> & ->).
    unfold strtoll10. rewrite leading_number_dec.
    unfold LLONG_MAX, LLONG_MIN, RD_KAFKA_OFFSET_TAIL_BASE in *.
    rewrite Z.min_r, Z.max_r by lia. cbv zeta.
    assert ((- n <? 0) = true) as -> by lia.
    assert ((- n =? - 2 ^ 63) = false) as -> by lia.
    assert ((-2000 - - - n <? - 2 ^ 63) = false) as -> by lia.
    f_equal. lia.
  - intros c s Hsp Hd Hm Hp H1 H2 H3. unfold parse_offset.
    apply String.eqb_neq in H1, H2, H3. rewrite H1, H2, H3.
    unfold strtoll10. rewrite leading_number_none by assumption.
    reflexivity.
Qed.

(** X18: the arguments of [-c] and [-p].  The message count is read with
    [strtoll] and the partition with [atoi]; a number written in decimal is
    read back as it is, a count beyond 64 bits is clamped to the largest
    count, and a text that holds no number gives 0: neither option ever
    fails.  A partition that does not fit an [int] is undefined
    behaviour. *)
Theorem count_and_partition_options :
  (forall n, LLONG_MIN <= n <= LLONG_MAX -> strtoll10 (dec n) = n) /\
  (forall n, LLONG_MAX <= n -> strtoll10 (dec n) = LLONG_MAX) /\
  (forall n, INT_MIN <= n <= INT_MAX -> atoi (dec n) = Some n) /\
  (forall n, INT_MAX < n -> atoi (dec n) = None) /\
  (forall c s,
     isspace c = false -> dec_digit c = None ->
     c <> "-"%char -> c <> "+"%char ->
     strtoll10 (String c s) = 0 /\ atoi (String c s) = Some 0) /\
  (forall JSON_ON F_JSON F_KEY F_OFFSET F_TEE F_NULL F_LINE set_global set_topic
          arg st,
     argparse_opt JSON_ON F_JSON F_KEY F_OFFSET F_TEE F_NULL F_LINE
                  set_global set_topic (mkOpt "c" arg) st
     = Parsed (set_conf (with_msg_cnt (strtoll10 arg) (a_conf st)) st) /\
     argparse_opt JSON_ON F_JSON F_KEY F_OFFSET F_TEE F_NULL F_LINE
                  set_global set_topic (mkOpt "p" arg) st
     = match atoi arg with
       | Some v => Parsed (set_conf (with_partition v (a_conf st)) st)
       | None => Unspecified
       end).
Proof.
  repeat apply conj.
  - intros n Hn. unfold strtoll10. rewrite leading_number_dec. lia.
  - intros n Hn. unfold strtoll10. rewrite leading_number_dec.
    unfold LLONG_MAX, LLONG_MIN in *. lia.
  - intros n Hn. unfold atoi. rewrite leading_number_dec. cbv zeta.
    assert ((INT_MIN <=? n) && (n <=? INT_MAX) = true) as -> by lia.
    reflexivity.
  - intros n Hn. unfold atoi. rewrite leading_number_dec. cbv zeta.
    assert ((n <=? INT_MAX) = false) as -> by lia.
    rewrite andb_false_r. reflexivity.
  - intros c s Hsp Hd Hm Hp. unfold strtoll10, atoi.
    rewrite leading_number_none by assumption. split; reflexivity.
  - intros. split; reflexivity.
Qed.

(** ** The option loop *)

Lemma fold_left_last {A B} (p : A -> bool) (g : A -> B) (l : list A) :
  forall init,
    fold_left (fun a o => if p o then g o else a) l init
    = from_option g init (last (filter (fun o => p o = true) l)).
Proof.
  induction l as [|o l IH]; intros init; [reflexivity|].
  cbn [fold_left]. rewrite IH.
  destruct (p o) eqn:E.
  - rewrite filter_cons_True by exact E. rewrite last_cons.
    destruct (last (filter _ l)); reflexivity.
  - rewrite filter_cons_False by congruence. reflexivity.
Qed.

Section Step.
Variable cs : bool.
Variable JSON_ON : bool.
Variables F_JSON F_KEY F_OFFSET F_TEE F_NULL F_LINE : Z.
Variable set_global set_topic : string -> string -> rd_kafka_conf_res_t.
Variable fmt_parse : string -> option Z.

Local Abbreviation step :=
  (argparse_opt JSON_ON F_JSON F_KEY F_OFFSET F_TEE F_NULL F_LINE
                set_global set_topic).
Local Abbreviation loop :=
  (getopt_loop JSON_ON F_JSON F_KEY F_OFFSET F_TEE F_NULL F_LINE
               set_global set_topic).
Local Abbreviation finish :=
  (argparse_finish cs F_JSON F_KEY set_global fmt_parse).
Local Abbreviation parse :=
  (argparse cs JSON_ON F_JSON F_KEY F_OFFSET F_TEE F_NULL F_LINE
            set_global set_topic fmt_parse).
Local Abbreviation mask := (option_mask F_JSON F_KEY F_OFFSET F_TEE F_NULL F_LINE).

(** A field after the loop is the fold of what each option does to it. *)
Lemma getopt_loop_fold {A} (f : arg_state -> A) (u : getopt_result -> A -> A) :
  (forall o st st1, step o st = Parsed st1 -> f st1 = u o (f st)) ->
  forall opts st st',
    loop opts st = Parsed st' ->
    f st' = fold_left (fun a o => u o a) opts (f st).
Proof.
  intros Hstep. induction opts as [|o opts IH]; intros st st' H;
    cbn [getopt_loop] in H.
  - injection H as <-. reflexivity.
  - destruct (step o st) as [st1| |] eqn:Hs; try discriminate.
    cbn [fold_left]. rewrite <- (Hstep _ _ _ Hs). apply IH, H.
Qed.

(** A field that only one option sets is decided by the last occurrence of
    that option. *)
Lemma getopt_loop_decided {A} (f : arg_state -> A) (c : ascii)
    (g : string -> A) :
  (forall o st st1, step o st = Parsed st1 ->
     f st1 = if Ascii.eqb (g_opt o) c then g (g_optarg o) else f st) ->
  forall opts st st',
    loop opts st = Parsed st' -> f st' = decided c g (f st) opts.
Proof.
  intros Hstep opts st st' H.
  rewrite (getopt_loop_fold f
             (fun o a => if Ascii.eqb (g_opt o) c then g (g_optarg o) else a)
             Hstep opts st st' H).
  rewrite (fold_left_last (fun o => Ascii.eqb (g_opt o) c)
                          (fun o => g (g_optarg o))).
  unfold decided, last_arg. destruct (last _); reflexivity.
Qed.

Ltac step_cases H :=
  match type of H with
  | argparse_opt _ _ _ _ _ _ _ _ _ ?o _ = _ =>
      destruct o as [[[] [] [] [] [] [] [] []] arg]
  end;
  cbn [argparse_opt g_opt g_optarg] in H; try discriminate;
  unfold property_option, conf_set_or_fatal, or_flags in H;
  repeat case_match; simplify_eq/=; try reflexivity.

Lemma step_topic o st st1 :
  step o st = Parsed st1 ->
  conf_topic (a_conf st1)
  = if Ascii.eqb (g_opt o) "t" then Some (g_optarg o) else conf_topic (a_conf st).
Proof. intros H. step_cases H. Qed.

Lemma step_brokers o st st1 :
  step o st = Parsed st1 ->
  conf_brokers (a_conf st1)
  = if Ascii.eqb (g_opt o) "b" then Some (g_optarg o)
    else conf_brokers (a_conf st).
Proof. intros H. step_cases H. Qed.

Lemma step_debug o st st1 :
  step o st = Parsed st1 ->
  conf_debug (a_conf st1)
  = if Ascii.eqb (g_opt o) "d" then Some (g_optarg o) else conf_debug (a_conf st).
Proof. intros H. step_cases H. Qed.

Lemma step_fmt o st st1 :
  step o st = Parsed st1 ->
  a_fmt st1 = if Ascii.eqb (g_opt o) "f" then Some (g_optarg o) else a_fmt st.
Proof. intros H. step_cases H. Qed.

Lemma step_delim o st st1 :
  step o st = Parsed st1 ->
  a_delim st1 = if Ascii.eqb (g_opt o) "D" then g_optarg o else a_delim st.
Proof. intros H. step_cases H. Qed.

Lemma step_key_delim o st st1 :
  step o st = Parsed st1 ->
  a_key_delim st1
  = if Ascii.eqb (g_opt o) "K" then Some (g_optarg o) else a_key_delim st.
Proof. intros H. step_cases H. Qed.

Lemma step_msg_cnt o st st1 :
  step o st = Parsed st1 ->
  conf_msg_cnt (a_conf st1)
  = if Ascii.eqb (g_opt o) "c" then strtoll10 (g_optarg o)
    else conf_msg_cnt (a_conf st).
Proof. intros H. step_cases H. Qed.

Lemma step_partition o st st1 :
  step o st = Parsed st1 ->
  Some (conf_partition (a_conf st1))
  = if Ascii.eqb (g_opt o) "p" then atoi (g_optarg o)
    else Some (conf_partition (a_conf st)).
Proof.
  intros H. step_cases H.
  match goal with E : atoi _ = Some _ |- _ => rewrite E end. reflexivity.
Qed.

Lemma step_offset o st st1 :
  step o st = Parsed st1 ->
  Some (conf_offset (a_conf st1))
  = if Ascii.eqb (g_opt o) "o" then parse_offset (g_optarg o)
    else Some (conf_offset (a_conf st)).
Proof.
  intros H. step_cases H.
  match goal with E : parse_offset _ = Some _ |- _ => rewrite E end.
  reflexivity.
Qed.

Lemma step_exit_eof o st st1 :
  step o st = Parsed st1 ->
  conf_exit_eof (a_conf st1)
  = if Ascii.eqb (g_opt o) "e" then true else conf_exit_eof (a_conf st).
Proof. intros H. step_cases H. Qed.

Lemma step_mode o st st1 :
  step o st = Parsed st1 ->
  conf_mode (a_conf st1)
  = if is_mode (g_opt o) then ascii_val (g_opt o) else conf_mode (a_conf st).
Proof. intros H. step_cases H. Qed.

Lemma step_flags o st st1 :
  step o st = Parsed st1 ->
  conf_flags (a_conf st1) = Z.lor (conf_flags (a_conf st)) (mask (g_opt o)).
Proof. intros H. step_cases H; rewrite Z.lor_0_r; reflexivity. Qed.

Lemma step_delims o st st1 :
  step o st = Parsed st1 ->
  conf_delim (a_conf st1) = conf_delim (a_conf st) /\
  conf_key_delim (a_conf st1) = conf_key_delim (a_conf st).
Proof. intros H. step_cases H; split; reflexivity. Qed.

Lemma step_conf_dump o st st1 :
  step o st = Parsed st1 ->
  conf_conf_dump (a_conf st1)
  = (Ascii.eqb (g_opt o) "X" && String.eqb (g_optarg o) "dump")
    || conf_conf_dump (a_conf st).
Proof.
  intros H. step_cases H;
    repeat match goal with
           | E : String.eqb _ _ = _ |- _ => rewrite E; clear E
           end; reflexivity.
Qed.

(** The loop keeps what holds at its start and every option keeps. *)
Lemma getopt_loop_invariant (P : arg_state -> Prop) :
  (forall o st st1, step o st = Parsed st1 -> P st -> P st1) ->
  forall opts st st', loop opts st = Parsed st' -> P st -> P st'.
Proof.
  intros Hstep. induction opts as [|o opts IH]; intros st st' H HP;
    cbn [getopt_loop] in H.
  - injection H as <-. exact HP.
  - destruct (step o st) as [st1| |] eqn:Hs; try discriminate.
    eapply IH; eauto.
Qed.

End Step.

(** ** What the command line decides *)

Lemma flag_set_lor a b m : flag_set (Z.lor a b) m = flag_set a m || flag_set b m.
Proof.
  unfold flag_set. rewrite Z.land_lor_distr_l.
  destruct (Z.land a m =? 0) eqn:Ea, (Z.land b m =? 0) eqn:Eb; cbn;
    rewrite ?Z.eqb_eq, ?Z.eqb_neq in *.
  - rewrite Ea, Eb. reflexivity.
  - rewrite Ea, Z.lor_0_l. apply negb_true_iff, Z.eqb_neq, Eb.
  - rewrite Eb, Z.lor_0_r. apply negb_true_iff, Z.eqb_neq, Ea.
  - apply negb_true_iff, Z.eqb_neq. intros H.
    apply Z.lor_eq_0_iff in H. tauto.
Qed.

Lemma flag_set_0 m : flag_set 0 m = false.
Proof. unfold flag_set. rewrite Z.land_0_l. reflexivity. Qed.

Lemma flag_set_same m : m <> 0 -> flag_set m m = true.
Proof.
  intros H. unfold flag_set. rewrite Z.land_diag.
  apply negb_true_iff, Z.eqb_neq, H.
Qed.

Lemma flag_set_other m m' : Z.land m m' = 0 -> flag_set m m' = false.
Proof. intros H. unfold flag_set. rewrite H. reflexivity. Qed.

Lemma fold_left_exists {A} (p : A -> bool) (l : list A) : forall init,
  fold_left (fun a o => if p o then true else a) l init = existsb p l || init.
Proof.
  induction l as [|o l IH]; intros init; [reflexivity|].
  cbn [fold_left existsb]. rewrite IH.
  destruct (p o); cbn; [apply orb_true_r|reflexivity].
Qed.

Section Parsing.
Variable cs : bool.
Variable JSON_ON : bool.
Variables F_JSON F_KEY F_OFFSET F_TEE F_NULL F_LINE : Z.
Variable set_global set_topic : string -> string -> rd_kafka_conf_res_t.
Variable fmt_parse : string -> option Z.

Local Abbreviation step :=
  (argparse_opt JSON_ON F_JSON F_KEY F_OFFSET F_TEE F_NULL F_LINE
                set_global set_topic).
Local Abbreviation loop :=
  (getopt_loop JSON_ON F_JSON F_KEY F_OFFSET F_TEE F_NULL F_LINE
               set_global set_topic).
Local Abbreviation finish :=
  (argparse_finish cs F_JSON F_KEY set_global fmt_parse).
Local Abbreviation parse :=
  (argparse cs JSON_ON F_JSON F_KEY F_OFFSET F_TEE F_NULL F_LINE
            set_global set_topic fmt_parse).
Local Abbreviation mask :=
  (option_mask F_JSON F_KEY F_OFFSET F_TEE F_NULL F_LINE).
Local Abbreviation decide_by := (getopt_loop_decided JSON_ON F_JSON F_KEY
  F_OFFSET F_TEE F_NULL F_LINE set_global set_topic).

(** [argparse] is the loop followed by the checks. *)
Lemma argparse_parts opts isatty c st :
  parse opts isatty c = Parsed st ->
  exists st0, loop opts (initial_args c) = Parsed st0 /\
              finish isatty st0 = Parsed st.
Proof.
  unfold argparse. intros H.
  destruct (loop opts (initial_args c)) as [st0| |]; try discriminate.
  eauto.
Qed.

(** What the checks after the loop leave as it is. *)
Lemma finish_fields isatty st0 st :
  finish isatty st0 = Parsed st ->
  conf_topic (a_conf st) = conf_topic (a_conf st0) /\
  conf_brokers (a_conf st) = conf_brokers (a_conf st0) /\
  conf_debug (a_conf st) = conf_debug (a_conf st0) /\
  conf_partition (a_conf st) = conf_partition (a_conf st0) /\
  conf_offset (a_conf st) = conf_offset (a_conf st0) /\
  conf_msg_cnt (a_conf st) = conf_msg_cnt (a_conf st0) /\
  conf_exit_eof (a_conf st) = conf_exit_eof (a_conf st0) /\
  conf_flags (a_conf st) = conf_flags (a_conf st0) /\
  conf_conf_dump (a_conf st) = conf_conf_dump (a_conf st0) /\
  a_delim st = a_delim st0 /\ a_key_delim st = a_key_delim st0 /\
  conf_mode (a_conf st)
  = (if conf_mode (a_conf st0) =? 0
     then if isatty then ascii_val "C" else ascii_val "P"
     else conf_mode (a_conf st0)).
Proof.
  intros H. unfold argparse_finish in H.
  repeat case_match; simplify_eq/=; repeat split; try congruence;
    repeat match goal with E : (_ =? _) = _ |- _ => rewrite E; clear E end;
    try reflexivity; try congruence.
Qed.

(** X19: what a command line must hold.  When [argparse] returns, the
    brokers are given, the mode is one of C, P and L, and the topic is given
    unless the mode is L; the list of brokers was accepted as the property
    [metadata.broker.list]; and the two delimiters are byte values, so that
    the configuration handed to the producer meets what the read loop
    expects. *)
Theorem argparse_postconditions opts isatty rk st :
  parse opts isatty (conf_at_start rk) = Parsed st ->
  let c := a_conf st in
  (exists brokers l,
     conf_brokers c = Some brokers /\
     set_global "metadata.broker.list" brokers = RD_KAFKA_CONF_OK /\
     conf_rk_conf c = l ++ [("metadata.broker.list"%string, brokers)]) /\
  (conf_mode c = ascii_val "C" \/ conf_mode c = ascii_val "P" \/
   conf_mode c = ascii_val "L") /\
  (conf_mode c <> ascii_val "L" -> conf_topic c <> None) /\
  0 <= delim (config_of c) < 256 /\ 0 <= key_delim (config_of c) < 256.
Proof.
  intros H c. apply argparse_parts in H as (st0 & Hloop & Hfin).
  assert (Hinv : (conf_mode (a_conf st0) = 0 \/
                  conf_mode (a_conf st0) = ascii_val "C" \/
                  conf_mode (a_conf st0) = ascii_val "P" \/
                  conf_mode (a_conf st0) = ascii_val "L") /\
                 conf_delim (a_conf st0) = 0 /\
                 conf_key_delim (a_conf st0) = 0).
  { apply (getopt_loop_invariant JSON_ON F_JSON F_KEY F_OFFSET F_TEE F_NULL
             F_LINE set_global set_topic
             (fun st => (conf_mode (a_conf st) = 0 \/
                         conf_mode (a_conf st) = ascii_val "C" \/
                         conf_mode (a_conf st) = ascii_val "P" \/
                         conf_mode (a_conf st) = ascii_val "L") /\
                        conf_delim (a_conf st) = 0 /\
                        conf_key_delim (a_conf st) = 0)
             ) with (opts := opts) (st := initial_args (conf_at_start rk));
      [|exact Hloop|cbn; auto].
    intros o s s1 Hs (Hm & Hd & Hk).
    apply step_delims in Hs as Hdel. destruct Hdel as (Hd1 & Hk1).
    apply step_mode in Hs. rewrite Hs, Hd1, Hk1.
    split; [|auto]. unfold is_mode.
    destruct (Ascii.eqb_spec (g_opt o) "P") as [->|_]; [auto|].
    destruct (Ascii.eqb_spec (g_opt o) "C") as [->|_]; [auto|].
    destruct (Ascii.eqb_spec (g_opt o) "L") as [->|_]; [auto|].
    exact Hm. }
  destruct Hinv as (Hm & Hd & Hk).
  pose proof (parse_delim_range cs) as Hrange.
  subst c. unfold argparse_finish in Hfin. unfold config_of. cbn [delim key_delim].
  destruct (conf_brokers (a_conf st0)) as [brokers|] eqn:Hb; [|discriminate].
  cbv zeta in Hfin.
  destruct (negb _ && bool_decide _) eqn:Htopic; [discriminate|].
  destruct (set_global "metadata.broker.list" brokers) eqn:Hset;
    try discriminate.
  assert (Hmode : forall c0 : conf,
            c0 = (if conf_mode (a_conf st0) =? 0
                  then with_mode (if isatty then ascii_val "C" else ascii_val "P")
                         (a_conf st0)
                  else a_conf st0) ->
            (conf_mode c0 = ascii_val "C" \/ conf_mode c0 = ascii_val "P" \/
             conf_mode c0 = ascii_val "L") /\
            conf_brokers c0 = Some brokers /\
            conf_topic c0 = conf_topic (a_conf st0) /\
            conf_delim c0 = 0 /\ conf_key_delim c0 = 0 /\
            conf_rk_conf c0 = conf_rk_conf (a_conf st0)).
  { intros c0 ->. destruct (conf_mode (a_conf st0) =? 0) eqn:E.
    - cbn. destruct isatty; auto 10.
    - apply Z.eqb_neq in E. repeat split; auto. tauto. }
  specialize (Hmode _ eq_refl).
  set (c0 := if conf_mode (a_conf st0) =? 0 then _ else _) in *.
  destruct Hmode as (Hm0 & Hb0 & Ht0 & Hd0 & Hk0 & Hrk0).
  assert (Htop : conf_mode c0 <> ascii_val "L" -> conf_topic c0 <> None).
  { intros HL Hnone. apply andb_false_iff in Htopic as [Ht|Ht].
    - apply negb_false_iff, Z.eqb_eq in Ht. contradiction.
    - apply bool_decide_eq_false in Ht. contradiction. }
  cbn [a_conf a_delim a_key_delim a_fmt set_conf conf_mode conf_flags
       with_rk_conf with_delim] in Hfin.
  destruct (conf_mode c0 =? ascii_val "C") eqn:EC.
  { destruct (fmt_parse _); [discriminate|]. injection Hfin as <-.
    cbn. rewrite Hd0, Hk0. repeat split; auto; try lia.
    exists brokers, (conf_rk_conf c0). auto. }
  destruct (conf_mode c0 =? ascii_val "P") eqn:EP.
  { destruct (flag_set (conf_flags c0) F_KEY).
    - destruct (a_key_delim st0) as [k|]; [|discriminate].
      injection Hfin as <-. cbn.
      pose proof (Hrange (a_delim st0)). pose proof (Hrange k).
      repeat split; auto; try lia.
      exists brokers, (conf_rk_conf c0). auto.
    - injection Hfin as <-. cbn. rewrite Hk0.
      pose proof (Hrange (a_delim st0)).
      repeat split; auto; try lia.
      exists brokers, (conf_rk_conf c0). auto. }
  injection Hfin as <-. cbn. rewrite Hd0, Hk0.
  repeat split; auto; try lia.
  exists brokers, (conf_rk_conf c0). auto.
Qed.

Lemma last_arg_given c opts : last_arg c opts = None <-> given c opts = false.
Proof.
  unfold last_arg, given. induction opts as [|o opts IH]; [tauto|].
  cbn [existsb]. destruct (Ascii.eqb (g_opt o) c) eqn:E.
  - rewrite filter_cons_True by exact E. rewrite last_cons.
    destruct (last (filter _ opts)); cbn; split; discriminate.
  - rewrite filter_cons_False by congruence. exact IH.
Qed.

Lemma loop_mode opts c st0 :
  loop opts (initial_args c) = Parsed st0 ->
  conf_mode (a_conf st0)
  = from_option ascii_val (conf_mode c) (last_mode opts).
Proof.
  intros H.
  rewrite (getopt_loop_fold JSON_ON F_JSON F_KEY F_OFFSET F_TEE F_NULL F_LINE
             set_global set_topic (fun st => conf_mode (a_conf st))
             (fun o a => if is_mode (g_opt o) then ascii_val (g_opt o) else a)
             (step_mode JSON_ON F_JSON F_KEY F_OFFSET F_TEE F_NULL F_LINE
                        set_global set_topic) _ _ _ H).
  rewrite (fold_left_last (fun o => is_mode (g_opt o))
                          (fun o => ascii_val (g_opt o))).
  unfold last_mode. cbn [a_conf initial_args].
  destruct (last _); reflexivity.
Qed.

Lemma last_mode_is_mode opts m :
  last_mode opts = Some m -> m = "P"%char \/ m = "C"%char \/ m = "L"%char.
Proof.
  unfold last_mode. intros H.
  destruct (last (filter _ opts)) as [o|] eqn:E; [|discriminate].
  injection H as <-. apply last_Some_elem_of in E.
  apply list_elem_of_filter in E as [E _]. unfold is_mode in E.
  destruct (Ascii.eqb_spec (g_opt o) "P") as [->|_]; [auto|].
  destruct (Ascii.eqb_spec (g_opt o) "C") as [->|_]; [auto|].
  destruct (Ascii.eqb_spec (g_opt o) "L") as [->|_]; [auto|].
  discriminate.
Qed.

(** X20: the mode.  When [argparse] returns, the mode is that of the last of
    the options -P, -C and -L given; when none is given it is C if standard
    input is a terminal and P otherwise. *)
Theorem argparse_mode opts isatty rk st :
  parse opts isatty (conf_at_start rk) = Parsed st ->
  conf_mode (a_conf st)
  = match last_mode opts with
    | Some m => ascii_val m
    | None => if isatty then ascii_val "C" else ascii_val "P"
    end.
Proof.
  intros H. apply argparse_parts in H as (st0 & Hloop & Hfin).
  apply finish_fields in Hfin. destruct Hfin as (_&_&_&_&_&_&_&_&_&_&_&Hm).
  rewrite Hm, (loop_mode _ _ _ Hloop). cbn [conf_at_start].
  destruct (last_mode opts) as [m|] eqn:E; cbn; [|reflexivity].
  apply last_mode_is_mode in E as [->|[->| ->]]; reflexivity.
Qed.

(** X21: the options a command line cannot do without.  When the options
    themselves are accepted: without -b the process exits with status 1
    through [usage], whatever else is given; with -b but without -t it does
    so too, unless the mode is L. *)
Theorem argparse_required_options opts isatty rk st0 :
  loop opts (initial_args (conf_at_start rk)) = Parsed st0 ->
  (given "b" opts = false ->
   parse opts isatty (conf_at_start rk)
   = Quit 1 (Usage (Some "-b <broker,..> missing"%string))) /\
  (given "b" opts = true -> given "t" opts = false ->
   last_mode opts <> Some "L"%char ->
   parse opts isatty (conf_at_start rk)
   = Quit 1 (Usage (Some "-t <topic> missing"%string))).
Proof.
  intros Hloop.
  pose proof (decide_by (fun st => conf_brokers (a_conf st)) "b"%char Some
                (step_brokers JSON_ON F_JSON F_KEY F_OFFSET F_TEE F_NULL F_LINE
                              set_global set_topic) _ _ _ Hloop) as Hb.
  pose proof (decide_by (fun st => conf_topic (a_conf st)) "t"%char Some
                (step_topic JSON_ON F_JSON F_KEY F_OFFSET F_TEE F_NULL F_LINE
                            set_global set_topic) _ _ _ Hloop) as Ht.
  pose proof (loop_mode _ _ _ Hloop) as Hm.
  unfold decided in Hb, Ht. cbn [a_conf initial_args conf_at_start
    conf_brokers conf_topic conf_mode with_rk_conf initial_conf] in Hb, Ht, Hm.
  unfold argparse. rewrite Hloop. unfold argparse_finish. split.
  - intros Hg. apply last_arg_given in Hg. rewrite Hg in Hb. cbn in Hb.
    rewrite Hb. reflexivity.
  - intros Hg Hgt HL. apply last_arg_given in Hgt. rewrite Hgt in Ht.
    cbn in Ht.
    destruct (last_arg "b" opts) as [b|] eqn:Eb.
    2:{ apply last_arg_given in Eb. congruence. }
    cbn in Hb. rewrite Hb. cbv zeta.
    assert (Hnot : forall c0 : conf,
              c0 = (if conf_mode (a_conf st0) =? 0
                    then with_mode (if isatty then ascii_val "C"
                                    else ascii_val "P") (a_conf st0)
                    else a_conf st0) ->
              negb (conf_mode c0 =? ascii_val "L")
              && bool_decide (conf_topic c0 = None) = true).
    { intros c0 ->. apply andb_true_iff. split.
      - apply negb_true_iff, Z.eqb_neq.
        destruct (conf_mode (a_conf st0) =? 0) eqn:E0.
        + cbn. destruct isatty; vm_compute; discriminate.
        + rewrite Hm in *. destruct (last_mode opts) as [m|] eqn:E; cbn in *.
          * apply last_mode_is_mode in E as E'.
            destruct E' as [->|[->| ->]]; try (vm_compute; discriminate).
            congruence.
          * discriminate.
      - apply bool_decide_eq_true.
        destruct (conf_mode (a_conf st0) =? 0); cbn; exact Ht. }
    rewrite (Hnot _ eq_refl). reflexivity.
Qed.

(** X22: an option given more than once.  When [argparse] returns, the
    topic, the brokers and the debug contexts are the arguments of the last
    -t, -b and -d; the message count, the partition and the offset are what
    the last -c, -p and -o give (0, no partition and 0 when the option is
    not given); and exit-at-EOF is on exactly when -e is given. *)
Theorem argparse_last_wins opts isatty rk st :
  parse opts isatty (conf_at_start rk) = Parsed st ->
  let c := a_conf st in
  conf_topic c = last_arg "t" opts /\
  conf_brokers c = last_arg "b" opts /\
  conf_debug c = last_arg "d" opts /\
  conf_msg_cnt c = decided "c" strtoll10 0 opts /\
  Some (conf_partition c)
  = decided "p" atoi (Some RD_KAFKA_PARTITION_UA) opts /\
  Some (conf_offset c) = decided "o" parse_offset (Some 0) opts /\
  conf_exit_eof c = given "e" opts.
Proof.
  intros H c. subst c. apply argparse_parts in H as (st0 & Hloop & Hfin).
  apply finish_fields in Hfin.
  destruct Hfin as (Ht & Hb & Hd & Hp & Ho & Hc & He & _).
  rewrite Ht, Hb, Hd, Hp, Ho, Hc, He.
  repeat apply conj.
  - rewrite (decide_by (fun st => conf_topic (a_conf st)) "t"%char Some
               (step_topic JSON_ON F_JSON F_KEY F_OFFSET F_TEE F_NULL F_LINE
                           set_global set_topic) _ _ _ Hloop).
    unfold decided. destruct (last_arg "t" opts); reflexivity.
  - rewrite (decide_by (fun st => conf_brokers (a_conf st)) "b"%char Some
               (step_brokers JSON_ON F_JSON F_KEY F_OFFSET F_TEE F_NULL F_LINE
                             set_global set_topic) _ _ _ Hloop).
    unfold decided. destruct (last_arg "b" opts); reflexivity.
  - rewrite (decide_by (fun st => conf_debug (a_conf st)) "d"%char Some
               (step_debug JSON_ON F_JSON F_KEY F_OFFSET F_TEE F_NULL F_LINE
                           set_global set_topic) _ _ _ Hloop).
    unfold decided. destruct (last_arg "d" opts); reflexivity.
  - exact (decide_by (fun st => conf_msg_cnt (a_conf st)) "c"%char strtoll10
             (step_msg_cnt JSON_ON F_JSON F_KEY F_OFFSET F_TEE F_NULL F_LINE
                           set_global set_topic) _ _ _ Hloop).
  - exact (decide_by (fun st => Some (conf_partition (a_conf st))) "p"%char atoi
             (step_partition JSON_ON F_JSON F_KEY F_OFFSET F_TEE F_NULL F_LINE
                             set_global set_topic) _ _ _ Hloop).
  - exact (decide_by (fun st => Some (conf_offset (a_conf st))) "o"%char
             parse_offset
             (step_offset JSON_ON F_JSON F_KEY F_OFFSET F_TEE F_NULL F_LINE
                          set_global set_topic) _ _ _ Hloop).
  - rewrite (getopt_loop_fold JSON_ON F_JSON F_KEY F_OFFSET F_TEE F_NULL F_LINE
               set_global set_topic (fun st => conf_exit_eof (a_conf st))
               (fun o a => if Ascii.eqb (g_opt o) "e" then true else a)
               (step_exit_eof JSON_ON F_JSON F_KEY F_OFFSET F_TEE F_NULL F_LINE
                              set_global set_topic) _ _ _ Hloop).
    rewrite (fold_left_exists (fun o => Ascii.eqb (g_opt o) "e")).
    cbn. apply orb_false_r.
Qed.

Lemma loop_locals opts c st0 :
  loop opts (initial_args c) = Parsed st0 ->
  a_delim st0 = decided "D" id newline opts /\
  a_key_delim st0 = last_arg "K" opts /\
  a_fmt st0 = last_arg "f" opts /\
  conf_delim (a_conf st0) = conf_delim c /\
  conf_key_delim (a_conf st0) = conf_key_delim c.
Proof.
  intros Hloop. repeat apply conj.
  - exact (decide_by a_delim "D"%char id
             (step_delim JSON_ON F_JSON F_KEY F_OFFSET F_TEE F_NULL F_LINE
                         set_global set_topic) _ _ _ Hloop).
  - rewrite (decide_by a_key_delim "K"%char Some
               (step_key_delim JSON_ON F_JSON F_KEY F_OFFSET F_TEE F_NULL
                               F_LINE set_global set_topic) _ _ _ Hloop).
    unfold decided. destruct (last_arg "K" opts); reflexivity.
  - rewrite (decide_by a_fmt "f"%char Some
               (step_fmt JSON_ON F_JSON F_KEY F_OFFSET F_TEE F_NULL F_LINE
                         set_global set_topic) _ _ _ Hloop).
    unfold decided. destruct (last_arg "f" opts); reflexivity.
  - apply (getopt_loop_invariant JSON_ON F_JSON F_KEY F_OFFSET F_TEE F_NULL
             F_LINE set_global set_topic
             (fun st => conf_delim (a_conf st) = conf_delim c))
      with (opts := opts) (st := initial_args c); [|exact Hloop|reflexivity].
    intros o s1 s2 Hs Hd. apply step_delims in Hs as [-> _]. exact Hd.
  - apply (getopt_loop_invariant JSON_ON F_JSON F_KEY F_OFFSET F_TEE F_NULL
             F_LINE set_global set_topic
             (fun st => conf_key_delim (a_conf st) = conf_key_delim c))
      with (opts := opts) (st := initial_args c); [|exact Hloop|reflexivity].
    intros o s1 s2 Hs Hd. apply step_delims in Hs as [_ ->]. exact Hd.
Qed.

Lemma parse_delim_newline_char : parse_delim cs newline = 10.
Proof. destruct cs; reflexivity. Qed.

(** X23: the delimiters of the producer.  When [argparse] returns in mode P,
    the message delimiter is what [parse_delim] makes of the argument of
    the last -D, and the newline (10) when -D is not given; when the
    key-delimiter flag is set the key delimiter is what [parse_delim] makes
    of the argument of the last -K, and otherwise it is left at 0. *)
Theorem producer_delimiters opts isatty rk st :
  parse opts isatty (conf_at_start rk) = Parsed st ->
  conf_mode (a_conf st) = ascii_val "P" ->
  let c := a_conf st in
  conf_delim c = parse_delim cs (decided "D" id newline opts) /\
  (given "D" opts = false -> conf_delim c = 10) /\
  (flag_set (conf_flags c) F_KEY = true ->
   exists k, last_arg "K" opts = Some k /\
             conf_key_delim c = parse_delim cs k) /\
  (flag_set (conf_flags c) F_KEY = false -> conf_key_delim c = 0).
Proof.
  intros H Hmode c. subst c.
  apply argparse_parts in H as (st0 & Hloop & Hfin).
  destruct (loop_locals _ _ _ Hloop) as (Hd & Hk & _ & _ & Hk0).
  cbn [conf_at_start conf_key_delim with_rk_conf initial_conf] in Hk0.
  assert (Hdelim : conf_delim (a_conf st) = parse_delim cs (a_delim st0) /\
            (flag_set (conf_flags (a_conf st)) F_KEY = true ->
             exists k, a_key_delim st0 = Some k /\
                       conf_key_delim (a_conf st) = parse_delim cs k) /\
            (flag_set (conf_flags (a_conf st)) F_KEY = false ->
             conf_key_delim (a_conf st) = conf_key_delim (a_conf st0))).
  { unfold argparse_finish in Hfin.
    repeat case_match; simplify_eq/=; repeat split; intros;
      try congruence; try discriminate; eauto;
      try (destruct isatty; vm_compute in Hmode; congruence);
      try match goal with
          | E : (conf_mode _ =? _) = _ |- _ =>
              rewrite Hmode in E; vm_compute in E; discriminate
          end. }
  destruct Hdelim as (H1 & H2 & H3). rewrite <- Hd.
  split; [exact H1|]. split; [|split].
  - intros Hg. apply last_arg_given in Hg. rewrite H1, Hd. unfold decided.
    rewrite Hg. apply parse_delim_newline_char.
  - intros Hf. destruct (H2 Hf) as (k & Hk1 & Hk2). exists k.
    rewrite <- Hk. auto.
  - intros Hf. rewrite (H3 Hf). exact Hk0.
Qed.

(** The flags after the loop. *)
Lemma loop_flags opts c st0 m :
  loop opts (initial_args c) = Parsed st0 ->
  flag_set (conf_flags (a_conf st0)) m
  = existsb (fun o => flag_set (mask (g_opt o)) m) opts
    || flag_set (conf_flags c) m.
Proof.
  intros Hloop.
  rewrite (getopt_loop_fold JSON_ON F_JSON F_KEY F_OFFSET F_TEE F_NULL F_LINE
             set_global set_topic (fun st => conf_flags (a_conf st))
             (fun o a => Z.lor a (mask (g_opt o)))
             (step_flags JSON_ON F_JSON F_KEY F_OFFSET F_TEE F_NULL F_LINE
                         set_global set_topic) _ _ _ Hloop).
  cbn [a_conf initial_args]. clear Hloop. generalize (conf_flags c).
  induction opts as [|o l IH]; intros a; [reflexivity|].
  cbn [fold_left existsb]. rewrite IH, flag_set_lor.
  generalize (existsb (fun o0 => flag_set (mask (g_opt o0)) m) l).
  intros b. destruct (flag_set a m), (flag_set (mask (g_opt o)) m), b;
    reflexivity.
Qed.

Ltac mask_case c letter :=
  destruct (Ascii.eqb_spec c letter) as [->|?];
  [cbn; rewrite ?flag_set_same, ?flag_set_other by auto; reflexivity|].

(** X24: the flags.  When the six masks of [conf.flags] are distinct bits and
    [argparse] returns, each flag is set exactly when its option is given:
    -J (JSON), -K (key delimiter), -O (offset), -T (tee), -Z (null) and -l
    (line mode); no option sets or clears the flag of another. *)
Theorem argparse_flags opts isatty rk st :
  independent [F_JSON; F_KEY; F_OFFSET; F_TEE; F_NULL; F_LINE] ->
  parse opts isatty (conf_at_start rk) = Parsed st ->
  let fl := conf_flags (a_conf st) in
  flag_set fl F_JSON = given "J" opts /\
  flag_set fl F_KEY = given "K" opts /\
  flag_set fl F_OFFSET = given "O" opts /\
  flag_set fl F_TEE = given "T" opts /\
  flag_set fl F_NULL = given "Z" opts /\
  flag_set fl F_LINE = given "l" opts.
Proof.
  intros Hind H fl. subst fl.
  apply argparse_parts in H as (st0 & Hloop & Hfin).
  apply finish_fields in Hfin. destruct Hfin as (_&_&_&_&_&_&_&Hf&_).
  rewrite Hf.
  cbn [independent] in Hind.
  destruct Hind as (N1 & D1 & N2 & D2 & N3 & D3 & N4 & D4 & N5 & D5 & N6 & _).
  repeat match goal with
         | H : Forall _ (_ :: _) |- _ => apply Forall_cons in H as [? H]
         | H : Forall _ [] |- _ => clear H
         end.
  assert (Hsym : forall a b, Z.land a b = 0 -> Z.land b a = 0)
    by (intros a b E; rewrite Z.land_comm; exact E).
  assert (Hone : forall m letter,
            (forall c, flag_set (mask c) m = Ascii.eqb c letter) ->
            flag_set (conf_flags (a_conf st0)) m = given letter opts).
  { intros m letter Hm. rewrite (loop_flags _ _ _ m Hloop).
    cbn [conf_at_start conf_flags with_rk_conf initial_conf].
    rewrite flag_set_0, orb_false_r. unfold given.
    induction opts as [|o l IH]; [reflexivity|].
    cbn [existsb]. rewrite Hm. f_equal.
    clear -Hm. induction l as [|o' l IH]; [reflexivity|].
    cbn [existsb]. rewrite Hm, IH. reflexivity. }
  repeat apply conj; apply Hone; intros c; unfold option_mask;
    mask_case c "J"%char; mask_case c "K"%char; mask_case c "O"%char;
    mask_case c "T"%char; mask_case c "Z"%char; mask_case c "l"%char;
    apply flag_set_0.
Qed.

Lemma substring_length n s : (String.length (String.substring 0 n s) <= n)%nat.
Proof.
  revert s. induction n as [|n IH]; intros s.
  - destruct s; cbn; lia.
  - destruct s as [|c s]; cbn; [lia|]. specialize (IH s). lia.
Qed.

(** X25: the format of the consumer.  When [argparse] returns in mode C,
    [fmt_parse] was given, and has accepted: the argument of the last -f
    when -f is given, whatever -D and -K say; otherwise, with the JSON flag
    set, the text of the last -D (a newline by default); otherwise the
    payload followed by that text, preceded by the key and the text of the
    last -K when -K is given, the whole cut to 63 characters.  In this mode
    the delimiters are not parsed: [conf.delim] stays 0. *)
Theorem consumer_format opts isatty rk st :
  parse opts isatty (conf_at_start rk) = Parsed st ->
  conf_mode (a_conf st) = ascii_val "C" ->
  let D := decided "D" id newline opts in
  exists fmt,
    a_fmt st = Some fmt /\ fmt_parse fmt = None /\
    fmt = match last_arg "f" opts with
          | Some f => f
          | None =>
              if flag_set (conf_flags (a_conf st)) F_JSON then D
              else match last_arg "K" opts with
                   | Some K => snprintf 64 ("%k" ++ K ++ "%s" ++ D)%string
                   | None => snprintf 64 ("%s" ++ D)%string
                   end
          end /\
    (last_arg "f" opts = None ->
     flag_set (conf_flags (a_conf st)) F_JSON = false ->
     (String.length fmt <= 63)%nat) /\
    conf_delim (a_conf st) = 0.
Proof.
  intros H Hmode D. subst D.
  apply argparse_parts in H as (st0 & Hloop & Hfin).
  destruct (loop_locals _ _ _ Hloop) as (Hd & Hk & Hf & Hd0 & _).
  cbn [conf_at_start conf_delim with_rk_conf initial_conf] in Hd0.
  rewrite <- Hd, <- Hk, <- Hf.
  assert (Hfmt : exists fmt,
            a_fmt st = Some fmt /\ fmt_parse fmt = None /\
            fmt = match a_fmt st0 with
                  | Some f => f
                  | None => default_fmt F_JSON st0
                  end /\
            conf_flags (a_conf st) = conf_flags (a_conf st0) /\
            conf_delim (a_conf st) = conf_delim (a_conf st0)).
  { unfold argparse_finish in Hfin.
    repeat case_match; simplify_eq/=; eauto 10;
      try (destruct isatty; vm_compute in Hmode; congruence);
      try (exfalso; match goal with
                    | E : (_ =? _) = false |- _ =>
                        apply Z.eqb_neq in E; apply E; exact Hmode
                    end). }
  destruct Hfmt as (fmt & Ha & Hp & Hfm & Hfl & Hdl).
  exists fmt. rewrite Hfl, Hdl.
  split; [exact Ha|]. split; [exact Hp|]. split; [|split; [|exact Hd0]].
  - rewrite Hfm. unfold default_fmt.
    destruct (a_fmt st0); [reflexivity|].
    destruct (flag_set _ F_JSON); [reflexivity|].
    destruct (a_key_delim st0); reflexivity.
  - intros Hnone Hj. rewrite Hfm, Hnone. unfold default_fmt. rewrite Hj.
    destruct (a_key_delim st0); unfold snprintf; apply substring_length.
Qed.

End Parsing.

(** *** The property option *)

Lemma strchr_cut_first c name val :
  (forall x, In x (list_ascii_of_string name) -> x <> c) ->
  strchr_cut c (name ++ String c val) = Some (name, val).
Proof.
  induction name as [|x name IH]; intros Hname.
  - change (strchr_cut c (String c val) = Some (EmptyString, val)).
    cbn [strchr_cut]. rewrite Ascii.eqb_refl. reflexivity.
  - change (strchr_cut c (String x (name ++ String c val))
            = Some (String x name, val)).
    cbn [strchr_cut]. assert (Ascii.eqb x c = false) as ->
        by (apply Ascii.eqb_neq, Hname; left; reflexivity).
    rewrite IH; [reflexivity|]. intros y Hy. apply Hname. right. exact Hy.
Qed.

Lemma strchr_cut_none c s :
  (forall x, In x (list_ascii_of_string s) -> x <> c) -> strchr_cut c s = None.
Proof.
  induction s as [|x s IH]; intros Hs; cbn [strchr_cut]; [reflexivity|].
  assert (Ascii.eqb x c = false) as ->
      by (apply Ascii.eqb_neq, Hs; left; reflexivity).
  rewrite IH; [reflexivity|]. intros y Hy. apply Hs. right. exact Hy.
Qed.

(** X26: the option -X.  The words [list] and [help] end the process with
    status 0 and [dump] asks for the dump of the configuration.  Any other
    argument must be [name=value], the name being what stands before the
    first equals sign (the value may hold more of them): without an equals
    sign the process exits with status 1.  A name that starts with
    [topic.] is first offered, without this prefix, to the topic
    configuration: if that accepts it the property is set there; if it
    rejects the value the process exits with status 1 and the global
    configuration is not asked; if it does not know the name, or when the
    name has no such prefix, the property is offered under its full name to
    the global configuration, which sets it or makes the process exit with
    status 1. *)
Theorem property_option_spec set_global set_topic st :
  let option := property_option set_global set_topic in
  let no_equals := fun s : string =>
    forall x, In x (list_ascii_of_string s) -> x <> "="%char in
  option "list"%string st = Quit 0 PropertiesShown /\
  option "help"%string st = Quit 0 PropertiesShown /\
  option "dump"%string st
  = Parsed (set_conf (with_conf_dump true (a_conf st)) st) /\
  (forall arg,
     no_equals arg -> arg <> "list"%string -> arg <> "help"%string ->
     arg <> "dump"%string ->
     option arg st = Quit 1 ExpectedProperty) /\
  (forall name val,
     no_equals name ->
     let arg := (name ++ String "=" val)%string in
     let short := drop_chars 6 name in
     let global :=
       match set_global name val with
       | RD_KAFKA_CONF_OK =>
           Parsed (set_conf (with_rk_conf
                               (conf_rk_conf (a_conf st) ++ [(name, val)])
                               (a_conf st)) st)
       | _ => Quit 1 Fatal
       end in
     (has_prefix "topic." name = false -> option arg st = global) /\
     (has_prefix "topic." name = true ->
      option arg st =
      match set_topic short val with
      | RD_KAFKA_CONF_OK =>
          Parsed (set_conf (with_rkt_conf
                              (conf_rkt_conf (a_conf st) ++ [(short, val)])
                              (a_conf st)) st)
      | RD_KAFKA_CONF_INVALID => Quit 1 Fatal
      | RD_KAFKA_CONF_UNKNOWN => global
      end)).
Proof.
  intros option no_equals. subst option no_equals. cbv beta.
  split; [reflexivity|]. split; [reflexivity|]. split; [reflexivity|].
  split.
  - intros arg Hno H1 H2 H3. unfold property_option.
    apply String.eqb_neq in H1, H2, H3. rewrite H1, H2, H3. cbn [orb].
    rewrite strchr_cut_none by exact Hno. reflexivity.
  - intros name val Hno arg short global. subst arg short global.
    assert (Hkw : forall w,
              (forall x, In x (list_ascii_of_string w) -> x <> "="%char) ->
              String.eqb (name ++ String "=" val) w = false).
    { intros w Hw. apply String.eqb_neq. intros E.
      assert (Hin : In "="%char (list_ascii_of_string (name ++ String "=" val))).
      { clear. induction name as [|x name IH]; [left; reflexivity|].
        right. exact IH. }
      rewrite E in Hin. apply (Hw _ Hin). reflexivity. }
    assert (Hlist : forall w, w = "list"%string \/ w = "help"%string
                              \/ w = "dump"%string ->
              String.eqb (name ++ String "=" val) w = false).
    { intros w Hw. apply Hkw. intros x Hx.
      destruct Hw as [->|[->| ->]]; cbn in Hx;
        repeat (destruct Hx as [<-|Hx]; [discriminate|]); contradiction. }
    unfold property_option.
    rewrite !Hlist by auto. cbn [orb].
    rewrite strchr_cut_first by exact Hno.
    split; intros Hp; rewrite Hp; [reflexivity|].
    change (String.length "topic.") with 6%nat.
    destruct (set_topic (drop_chars 6 name) val); reflexivity.
Qed.

(** *** The statements on concrete command lines *)

(** [-b localhost -t test -P -K :] with standard input not a terminal. *)
Lemma argparse_postconditions_witness :
  exists st,
    try_argparse [mkOpt "b" "localhost"; mkOpt "t" "test"; flag "P";
                  mkOpt "K" ":"] false = Parsed st /\
    conf_brokers (a_conf st) = Some "localhost"%string /\
    conf_topic (a_conf st) <> None /\
    delim (config_of (a_conf st)) = 10 /\
    0 <= key_delim (config_of (a_conf st)) < 256.
Proof.
  eassert (E : try_argparse [mkOpt "b" "localhost"; mkOpt "t" "test";
                             flag "P"; mkOpt "K" ":"] false = Parsed _)
    by (vm_compute; reflexivity).
  destruct (argparse_postconditions _ _ _ _ _ _ _ _ _ _ _ _ _ _ _ E)
    as (_ & _ & Ht & _ & Hk).
  eexists. split; [exact E|]. split; [reflexivity|].
  split; [apply Ht; vm_compute; discriminate|].
  split; [reflexivity|exact Hk].
Defined.

(** [-b localhost -t test -C -P]: the last mode given is P, though standard
    input is a terminal. *)
Lemma argparse_mode_witness :
  exists st,
    try_argparse [mkOpt "b" "localhost"; mkOpt "t" "test"; flag "C";
                  flag "P"] true = Parsed st /\
    conf_mode (a_conf st) = ascii_val "P".
Proof.
  eassert (E : try_argparse [mkOpt "b" "localhost"; mkOpt "t" "test";
                             flag "C"; flag "P"] true = Parsed _)
    by (vm_compute; reflexivity).
  eexists. split; [exact E|].
  exact (argparse_mode _ _ _ _ _ _ _ _ _ _ _ _ _ _ _ E).
Defined.

(** [-t test -e]: no brokers. *)
Lemma argparse_required_options_witness :
  try_argparse [mkOpt "t" "test"; flag "e"] true
  = Quit 1 (Usage (Some "-b <broker,..> missing"%string)).
Proof.
  eassert (E : getopt_loop true 1 2 4 8 16 32 accept_all accept_all
                 [mkOpt "t" "test"; flag "e"]
                 (initial_args (conf_at_start [])) = Parsed _)
    by (vm_compute; reflexivity).
  apply (argparse_required_options false true 1 2 4 8 16 32 accept_all
           accept_all (fun _ => None) _ true [] _ E).
  reflexivity.
Defined.

(** [-b a -b b -t x -t y -p 1 -p 2 -c 5 -o -3 -e -C] *)
Lemma argparse_last_wins_witness :
  exists st,
    try_argparse [mkOpt "b" "a"; mkOpt "b" "b"; mkOpt "t" "x"; mkOpt "t" "y";
                  mkOpt "p" "1"; mkOpt "p" "2"; mkOpt "c" "5";
                  mkOpt "o" "-3"; flag "e"; flag "C"] false = Parsed st /\
    conf_topic (a_conf st) = Some "y"%string /\
    conf_brokers (a_conf st) = Some "b"%string /\
    conf_debug (a_conf st) = None /\
    conf_msg_cnt (a_conf st) = 5 /\
    Some (conf_partition (a_conf st)) = Some 2 /\
    Some (conf_offset (a_conf st)) = Some (-2003) /\
    conf_exit_eof (a_conf st) = true.
Proof.
  eassert (E : try_argparse
                 [mkOpt "b" "a"; mkOpt "b" "b"; mkOpt "t" "x"; mkOpt "t" "y";
                  mkOpt "p" "1"; mkOpt "p" "2"; mkOpt "c" "5";
                  mkOpt "o" "-3"; flag "e"; flag "C"] false = Parsed _)
    by (vm_compute; reflexivity).
  eexists. split; [exact E|].
  exact (argparse_last_wins _ _ _ _ _ _ _ _ _ _ _ _ _ _ _ E).
Defined.

(** [-b localhost -t test -P -D ; -K \x09]: the messages end at a
    semicolon and the key ends at a tab. *)
Lemma producer_delimiters_witness :
  exists st,
    try_argparse [mkOpt "b" "localhost"; mkOpt "t" "test"; flag "P";
                  mkOpt "D" ";"; mkOpt "K" "\x09"] true = Parsed st /\
    conf_delim (a_conf st) = 59 /\ conf_key_delim (a_conf st) = 9.
Proof.
  eassert (E : try_argparse [mkOpt "b" "localhost"; mkOpt "t" "test";
                             flag "P"; mkOpt "D" ";"; mkOpt "K" "\x09"] true
               = Parsed _)
    by (vm_compute; reflexivity).
  destruct (producer_delimiters _ _ _ _ _ _ _ _ _ _ _ _ _ _ _ E eq_refl)
    as (Hd & _ & Hk & _).
  eexists. split; [exact E|]. split; [exact Hd|].
  destruct (Hk eq_refl) as (k & Hk1 & Hk2).
  injection Hk1 as <-. exact Hk2.
Defined.

(** [-b localhost -t test -C -O -Z -J]: three of the six flags. *)
Lemma argparse_flags_witness :
  exists st,
    try_argparse [mkOpt "b" "localhost"; mkOpt "t" "test"; flag "C";
                  flag "O"; flag "Z"; flag "J"] true = Parsed st /\
    flag_set (conf_flags (a_conf st)) 1 = true /\
    flag_set (conf_flags (a_conf st)) 2 = false /\
    flag_set (conf_flags (a_conf st)) 4 = true /\
    flag_set (conf_flags (a_conf st)) 8 = false /\
    flag_set (conf_flags (a_conf st)) 16 = true /\
    flag_set (conf_flags (a_conf st)) 32 = false.
Proof.
  eassert (E : try_argparse [mkOpt "b" "localhost"; mkOpt "t" "test";
                             flag "C"; flag "O"; flag "Z"; flag "J"] true
               = Parsed _)
    by (vm_compute; reflexivity).
  assert (I : independent [1; 2; 4; 8; 16; 32])
    by (repeat first [split | discriminate | constructor]).
  eexists. split; [exact E|].
  exact (argparse_flags _ _ _ _ _ _ _ _ _ _ _ _ _ _ _ I E).
Defined.

(** [-b localhost -t test -C -K : -D ;]: the key, a colon, the payload, a
    semicolon. *)
Lemma consumer_format_witness :
  exists st,
    try_argparse [mkOpt "b" "localhost"; mkOpt "t" "test"; flag "C";
                  mkOpt "K" ":"; mkOpt "D" ";"] true = Parsed st /\
    a_fmt st = Some "%k:%s;"%string /\ conf_delim (a_conf st) = 0.
Proof.
  eassert (E : try_argparse [mkOpt "b" "localhost"; mkOpt "t" "test";
                             flag "C"; mkOpt "K" ":"; mkOpt "D" ";"] true
               = Parsed _)
    by (vm_compute; reflexivity).
  destruct (consumer_format _ _ _ _ _ _ _ _ _ _ _ _ _ _ _ E eq_refl)
    as (fmt & Ha & _ & Hf & _ & Hd).
  eexists. split; [exact E|]. split; [|exact Hd].
  rewrite Ha, Hf. reflexivity.
Defined.
